(** * runc: a script runner for C sources -- verification of [runc.c]

    The development embeds the functions of [runc.c] in Rocq and checks the
    statements of the specification against them.

    Conventions of the embedding.
    - A C string is a [string]; its terminating NUL is not part of the value
      and is made explicit wherever the code reads or writes it.
    - Sizes and offsets ([size_t], [regoff_t], lengths held in [int]) are
      [nat]; values of type [int] that hold a status are [Z].  A status is
      the [int] that [system] returns or that [main] returns; how the
      operating system encodes the termination of a process in it is not
      modelled.
    - The process is a state: the operating system it runs on, the outcomes
      of its future allocations, [errno], the value an uninitialised [int]
      holds, and the log of the library calls it has made.  Functions of the
      program are computations in the monad [M] over that state.
    - [system] runs an external command; what that command does is a
      parameter [sh] of the functions that call it.
    - Library functions follow their standards: [SHA1] is FIPS 180-4,
      [regcomp] and [regexec] are the POSIX extended regular expressions,
      [isspace] is that of the C locale.
    - Undefined behaviour is made visible rather than assumed away: a store
      or load through a null pointer ends the run with [Fault]; [fclose] of
      a null stream is logged and faults or returns as the environment says;
      stores into a heap block are kept with their index, so that a store
      past the end of the block can be told from one within it. *)

From Stdlib Require Import Bool Arith ZArith List Ascii String Lia.
Import ListNotations.

Local Open Scope list_scope.
Local Open Scope string_scope.

(* ================================================================== *)
(** * C strings *)

Module CStr.

(** The double quote character (code 34). *)
Definition dquote : string := String (ascii_of_nat 34) EmptyString.

(** The newline, [\n]. *)
Definition newline : ascii := ascii_of_nat 10.

(** The terminating NUL. *)
Definition NUL : ascii := ascii_of_nat 0.

Definition strlen (s : string) : nat := String.length s.

(** [strcat(strcpy(buf, a), b)] leaves [a ++ b] in [buf]. *)
Definition strcat (a b : string) : string := a ++ b.

(** The numeric value of a [char] read as [unsigned char]. *)
Definition code (c : ascii) : nat := nat_of_ascii c.

(** [isspace] in the C locale: space, and the controls 9 to 13
    (\t \n \v \f \r). *)
Definition isspace (c : ascii) : bool :=
  (code c =? 32)%nat || ((9 <=? code c)%nat && (code c <=? 13)%nat).

(** The bytes of a C string up to its first NUL: what a function taking a
    [const char *] sees of a buffer. *)
Fixpoint c_str (bytes : string) : string :=
  match bytes with
  | EmptyString => EmptyString
  | String c rest => if Ascii.eqb c NUL then EmptyString else String c (c_str rest)
  end.

(** [take n s] and [drop n s]: the first [n] characters and the rest. *)
Fixpoint take (n : nat) (s : string) : string :=
  match n, s with
  | S n', String c rest => String c (take n' rest)
  | _, _ => EmptyString
  end.

Fixpoint drop (n : nat) (s : string) : string :=
  match n, s with
  | S n', String _ rest => drop n' rest
  | _, _ => s
  end.

(** [all p s]: every character of [s] satisfies [p]. *)
Fixpoint all (p : ascii -> bool) (s : string) : bool :=
  match s with
  | EmptyString => true
  | String c rest => p c && all p rest
  end.

(** [mem c s]: the character [c] occurs in [s]. *)
Fixpoint mem (c : ascii) (s : string) : bool :=
  match s with
  | EmptyString => false
  | String d rest => Ascii.eqb c d || mem c rest
  end.

End CStr.
Import CStr.

(* ================================================================== *)
(** * The digest function of the library: SHA-1

    [source_hash] calls [SHA1] of OpenSSL.  The function is modelled after
    FIPS 180-4 on 32-bit words held in [Z]; additions wrap modulo 2^32. *)

Module Sha1.

Local Open Scope Z_scope.

Definition SHA_DIGEST_LENGTH : nat := 20.

Definition w32 (x : Z) : Z := x mod 2 ^ 32.
Definition add32 (x y : Z) : Z := w32 (x + y).
Definition rotl (n x : Z) : Z :=
  w32 (Z.lor (Z.shiftl x n) (Z.shiftr x (32 - n))).
Definition not32 (x : Z) : Z := Z.lxor x 0xFFFFFFFF.

(** Big-endian conversions between a word and its four bytes. *)
Definition be32_bytes (x : Z) : list Z :=
  [ Z.land (Z.shiftr x 24) 255; Z.land (Z.shiftr x 16) 255;
    Z.land (Z.shiftr x 8) 255; Z.land x 255 ].

Definition be32_word (b3 b2 b1 b0 : Z) : Z :=
  Z.lor (Z.shiftl b3 24) (Z.lor (Z.shiftl b2 16) (Z.lor (Z.shiftl b1 8) b0)).

(** Padding: the byte 0x80, zero bytes up to 56 modulo 64, and the length
    of the message in bits as a 64-bit big-endian number. *)
Definition pad_zeros (len : nat) : nat := ((119 - len mod 64) mod 64)%nat.

Definition be64_bytes (x : Z) : list Z :=
  (be32_bytes (w32 (Z.shiftr x 32)) ++ be32_bytes (w32 x))%list.

Definition pad (msg : list Z) : list Z :=
  (msg ++ [128] ++ repeat 0 (pad_zeros (List.length msg))
       ++ be64_bytes (8 * Z.of_nat (List.length msg)))%list.

(** The sixteen words of a 64-byte block; the rest of the input. *)
Fixpoint words (n : nat) (bytes : list Z) : list Z :=
  match n, bytes with
  | S n', b3 :: b2 :: b1 :: b0 :: rest => be32_word b3 b2 b1 b0 :: words n' rest
  | _, _ => []
  end.

(** The message schedule, most recent word first: [sched] holds
    W(t-1), W(t-2), ... and is extended by W(t). *)
Definition next_w (sched : list Z) : Z :=
  rotl 1 (Z.lxor (Z.lxor (nth 2 sched 0) (nth 7 sched 0))
                 (Z.lxor (nth 13 sched 0) (nth 15 sched 0))).

Fixpoint extend (n : nat) (sched : list Z) : list Z :=
  match n with
  | O => sched
  | S n' => extend n' (next_w sched :: sched)
  end.

Definition schedule (block : list Z) : list Z :=
  rev (extend 64 (rev (words 16 block))).

Definition hstate : Type := (Z * Z * Z * Z * Z)%type.

Definition f_k (t : nat) (b c d : Z) : Z * Z :=
  if (t <? 20)%nat then (Z.lor (Z.land b c) (Z.land (not32 b) d), 0x5A827999)
  else if (t <? 40)%nat then (Z.lxor (Z.lxor b c) d, 0x6ED9EBA1)
  else if (t <? 60)%nat then
    (Z.lor (Z.lor (Z.land b c) (Z.land b d)) (Z.land c d), 0x8F1BBCDC)
  else (Z.lxor (Z.lxor b c) d, 0xCA62C1D6).

Definition round (st : hstate * nat) (w : Z) : hstate * nat :=
  let '((a, b, c, d, e), t) := st in
  let '(f, k) := f_k t b c d in
  let temp := add32 (add32 (add32 (add32 (rotl 5 a) f) e) k) w in
  ((temp, a, rotl 30 b, c, d), S t).

Definition compress (h : hstate) (block : list Z) : hstate :=
  let '(h0, h1, h2, h3, h4) := h in
  let '((a, b, c, d, e), _) := fold_left round (schedule block) (h, O) in
  (add32 h0 a, add32 h1 b, add32 h2 c, add32 h3 d, add32 h4 e).

Fixpoint blocks (n : nat) (h : hstate) (bytes : list Z) : hstate :=
  match n with
  | O => h
  | S n' => blocks n' (compress h (firstn 64 bytes)) (skipn 64 bytes)
  end.

Definition H0 : hstate :=
  (0x67452301, 0xEFCDAB89, 0x98BADCFE, 0x10325476, 0xC3D2E1F0).

Definition digest (msg : list Z) : list Z :=
  let padded := pad msg in
  let '(h0, h1, h2, h3, h4) := blocks (List.length padded / 64) H0 padded in
  (be32_bytes h0 ++ be32_bytes h1 ++ be32_bytes h2 ++ be32_bytes h3
              ++ be32_bytes h4)%list.

Definition bytes_of_string (s : string) : list Z :=
  map (fun c => Z.of_nat (nat_of_ascii c)) (list_ascii_of_string s).

Definition string_of_bytes (l : list Z) : string :=
  string_of_list_ascii (map (fun b => ascii_of_nat (Z.to_nat b)) l).

(** [SHA1(d, n, md)]: the digest of the [n] bytes at [d], stored in the 20
    bytes at [md]. *)
Definition SHA1 (d : string) (n : nat) : string :=
  string_of_bytes (digest (bytes_of_string (take n d))).

End Sha1.
Import Sha1.

(* ================================================================== *)
(** * Hexadecimal rendering *)

Definition hex_digit (n : nat) : ascii :=
  if (n <? 10)%nat then ascii_of_nat (48 + n) else ascii_of_nat (87 + n).

(** [sprintf(str, "%02x", (unsigned int)b)]: two lowercase digits. *)
Definition sprintf_02x (b : ascii) : string :=
  String (hex_digit (nat_of_ascii b / 16))
    (String (hex_digit (nat_of_ascii b mod 16)) EmptyString).

(** [to_hex(data, n, str)]: the first [n] bytes of [data], two digits each;
    digit pair [i] is written at [str + 2*i]. *)
Fixpoint to_hex (data : string) (n : nat) : string :=
  match n, data with
  | S n', String b rest => sprintf_02x b ++ to_hex rest n'
  | _, _ => EmptyString
  end.

(* ================================================================== *)
(** * The process and its environment *)

Inductive errno_t : Type :=
  E_none | EEXIST | EISDIR | EACCES | ENOENT | ENOTDIR | ENOSPC.

Definition errno_eqb (a b : errno_t) : bool :=
  match a, b with
  | E_none, E_none | EEXIST, EEXIST | EISDIR, EISDIR | EACCES, EACCES
  | ENOENT, ENOENT | ENOTDIR, ENOTDIR | ENOSPC, ENOSPC => true
  | _, _ => false
  end.

(** The operating system as the program observes it. *)
Record os : Type := mkOs {
  (** files that [fopen(path, "rb")] opens, with their bytes *)
  os_files : list (string * string);
  (** directories that exist, named as [mkdir] is given them *)
  os_dirs : list string;
  (** directories that [mkdir] refuses to create, with the error *)
  os_mkdir_error : list (string * errno_t);
  (** [getenv("HOME")] *)
  os_HOME : option string;
  (** [getpwuid(getuid())->pw_dir], when there is a user record *)
  os_pw_dir : option string;
  (** whether [fclose] of a null stream faults (it dereferences the stream
      in some C libraries and returns [EOF] in others) *)
  os_fclose_null_faults : bool
}.

Fixpoint assoc {A : Type} (k : string) (l : list (string * A)) : option A :=
  match l with
  | [] => None
  | (k', v) :: l' => if String.eqb k k' then Some v else assoc k l'
  end.

Definition file_bytes (o : os) (path : string) : option string :=
  assoc path (os_files o).

Definition readable (o : os) (path : string) : bool :=
  match file_bytes o path with Some _ => true | None => false end.

Definition dir_exists (o : os) (path : string) : bool :=
  existsb (String.eqb path) (os_dirs o).

Definition add_dir (path : string) (o : os) : os :=
  mkOs (os_files o) (path :: os_dirs o) (os_mkdir_error o) (os_HOME o)
       (os_pw_dir o) (os_fclose_null_faults o).

Definition add_file (path bytes : string) (o : os) : os :=
  mkOs ((path, bytes) :: os_files o) (os_dirs o) (os_mkdir_error o) (os_HOME o)
       (os_pw_dir o) (os_fclose_null_faults o).

(** The heap blocks the program frees, named after the variables of the
    source that hold them. *)
Inductive pointer : Type :=
  P_sourcecode | P_hash | P_cache_path | P_hash_hex | P_out_path | P_hint
| P_cmdline | P_buf.

(** Which function called [system]. *)
Inductive caller : Type := By_compile | By_launch.

(** Library calls, in the order the process makes them. *)
Inductive event : Type :=
| Ev_fopen (path : string) (opened : bool)
| Ev_fclose (stream_is_null : bool)
| Ev_malloc (size : nat) (succeeded : bool)
| Ev_mkdir (path : string) (mode : Z) (result : Z)
| Ev_system (by_ : caller) (cmdline : string) (status : Z)
| Ev_printf (text : string)
| Ev_printf_freed (format : string) (p : pointer)
| Ev_free (p : pointer).

Record proc : Type := mkProc {
  p_os : os;
  (** outcomes of the coming calls of [malloc]; when the list is exhausted
      every call succeeds *)
  p_malloc : list bool;
  p_errno : errno_t;
  (** the indeterminate value an uninitialised [int] of [main] holds *)
  p_uninit : Z;
  (** the calls made so far, the most recent first *)
  p_log : list event
}.

(** A computation ends normally with a value, or the process is killed by
    a fault (a store or load through a null pointer). *)
Inductive res (A : Type) : Type :=
| Ok (a : A) (p : proc)
| Fault (p : proc).
Arguments Ok {A} a p.
Arguments Fault {A} p.

Definition M (A : Type) : Type := proc -> res A.

Definition ret {A : Type} (a : A) : M A := fun p => Ok a p.

Definition bind {A B : Type} (c : M A) (k : A -> M B) : M B :=
  fun p => match c p with
           | Ok a p' => k a p'
           | Fault p' => Fault p'
           end.

Notation "x <- c ;; k" := (bind c (fun x => k))
  (at level 61, c at next level, right associativity).
Notation "' pat <- c ;; k" := (bind c (fun x => match x with pat => k end))
  (at level 61, pat pattern, c at next level, right associativity).
Notation "c ;; k" := (bind c (fun _ => k))
  (at level 61, right associativity).

Definition final {A : Type} (r : res A) : proc :=
  match r with Ok _ p => p | Fault p => p end.

(** The calls a run has made, in the order they were made. *)
Definition trace {A : Type} (r : res A) : list event := rev (p_log (final r)).

(** The value [main] returns; [None] after a fault.  This is the [int] of
    the C program; the status that the parent of the process sees is
    [process_status] of it. *)
Definition exit_status (r : res Z) : option Z :=
  match r with Ok z _ => Some z | Fault _ => None end.

Definition set_os (o : os) (p : proc) : proc :=
  mkProc o (p_malloc p) (p_errno p) (p_uninit p) (p_log p).
Definition set_errno (e : errno_t) (p : proc) : proc :=
  mkProc (p_os p) (p_malloc p) e (p_uninit p) (p_log p).
Definition log (e : event) (p : proc) : proc :=
  mkProc (p_os p) (p_malloc p) (p_errno p) (p_uninit p) (e :: p_log p).

(** ** Library calls *)

Definition emit (e : event) : M unit := fun p => Ok tt (log e p).

Definition fault {A : Type} : M A := fun p => Fault p.

Definition malloc (size : nat) : M bool :=
  fun p => match p_malloc p with
           | [] => Ok true (log (Ev_malloc size true) p)
           | b :: rest =>
               Ok b (log (Ev_malloc size b)
                         (mkProc (p_os p) rest (p_errno p) (p_uninit p) (p_log p)))
           end.

(** [free(x)]: the call is recorded.  The model keeps no account of which
    blocks are live.  Where a run releases a block of [main] a second time
    the C program has no defined behaviour from that call on, and the calls
    the model lists after it say nothing about the program. *)
Definition free (x : pointer) : M unit := emit (Ev_free x).

Definition printf (text : string) : M unit := emit (Ev_printf text).

(** [printf(format, p)] where the source has released the block [p] on the
    line before the call: the call is made, but what it prints in place of
    the directive is whatever the released block holds by then.  The event
    records the format and the block, not a text. *)
Definition printf_freed (format : string) (p : pointer) : M unit :=
  emit (Ev_printf_freed format p).

(** [fopen(path, "rb")]: the stream, which stands for the bytes of the
    file, or a null pointer. *)
Definition fopen (path : string) : M (option string) :=
  fun p => let f := file_bytes (p_os p) path in
           Ok f (log (Ev_fopen path (match f with Some _ => true | None => false end)) p).

Definition fclose (stream : option string) : M unit :=
  fun p => match stream with
           | Some _ => Ok tt (log (Ev_fclose false) p)
           | None =>
               if os_fclose_null_faults (p_os p)
               then Fault (log (Ev_fclose true) p)
               else Ok tt (log (Ev_fclose true) p)
           end.

(** [mkdir(path, mode)]: fails with [EEXIST] on an existing directory, with
    the error of the environment where it refuses, creates the directory
    otherwise. *)
Definition mkdir (path : string) (mode : Z) : M Z :=
  fun p =>
    let o := p_os p in
    if dir_exists o path
    then Ok (-1)%Z (log (Ev_mkdir path mode (-1)) (set_errno EEXIST p))
    else match assoc path (os_mkdir_error o) with
         | Some e => Ok (-1)%Z (log (Ev_mkdir path mode (-1)) (set_errno e p))
         | None => Ok 0%Z (log (Ev_mkdir path mode 0) (set_os (add_dir path o) p))
         end.

Definition get_errno : M errno_t := fun p => Ok (p_errno p) p.
Definition getenv_HOME : M (option string) := fun p => Ok (os_HOME (p_os p)) p.
Definition getpwuid_pw_dir : M (option string) := fun p => Ok (os_pw_dir (p_os p)) p.
Definition uninitialised : M Z := fun p => Ok (p_uninit p) p.

(* ================================================================== *)
(** * The functions of [runc.c] that run no command *)

(** [file_exists]: the stream is closed whether or not it was opened. *)
Definition file_exists (filename : string) : M bool :=
  file <- fopen filename ;;
  let exists_ := match file with Some _ => true | None => false end in
  fclose file ;;
  ret exists_.

(** [mkdir_p]: the loop copies [dir] into [buf] character by character and
    calls [mkdir] on the prefix copied so far after each slash.  [done] is
    the content of [buf] before the current character, [rest] is [dir + i]. *)
Fixpoint mkdir_p_loop (done rest : string) (mode : Z) : M Z :=
  match rest with
  | EmptyString => ret 0%Z
  | String c rest' =>
      let buf := done ++ String c EmptyString in
      if negb (Ascii.eqb c "/") then mkdir_p_loop buf rest' mode
      else
        result <- mkdir buf mode ;;
        errno <- get_errno ;;
        if negb (result =? 0)%Z && negb (errno_eqb errno EEXIST)
           && negb (errno_eqb errno EISDIR)
        then free P_buf ;; ret result
        else mkdir_p_loop buf rest' mode
  end.

Definition mkdir_p (dir : string) (mode : Z) : M Z :=
  ok <- malloc (strlen dir + 1) ;;
  if negb ok then ret 1%Z
  else mkdir_p_loop EmptyString dir mode.

(** The conversion of a [long] to [int] in [*len = filesize]. *)
Definition int_of_long (z : Z) : Z := ((z + 2 ^ 31) mod 2 ^ 32 - 2 ^ 31)%Z.

(** [readfilestr]: the bytes of the file and the length stored in [*len].
    The buffer holds the bytes followed by a NUL; the NUL is stored before
    the result of [malloc] is tested.  [fread] is taken to deliver the whole
    file. *)
Definition readfilestr (filename : string) : M (option (string * Z)) :=
  file <- fopen filename ;;
  match file with
  | None => ret None
  | Some bytes =>
      let filesize := String.length bytes in
      ok <- malloc (filesize + 1) ;;
      if negb ok then fault
      else fclose file ;; ret (Some (bytes, int_of_long (Z.of_nat filesize)))
  end.

(** [source_hash]: the digest of the first [size] bytes of [data] in a
    fresh block of [SHA_DIGEST_LENGTH] bytes, or null.  This is the call for
    [0 <= size <= strlen(data)], where [SHA1] reads bytes that are there.
    Outside that range the C call converts [size] to [size_t] and [SHA1]
    reads outside the buffer; the model does not describe that, and the
    value it gives there stands for nothing.  [main] passes the length that
    [readfilestr] stored, which is in range for a file shorter than 2^31
    bytes. *)
Definition source_hash (data : string) (size : Z) : M (option string) :=
  ok <- malloc SHA_DIGEST_LENGTH ;;
  if negb ok then ret None
  else ret (Some (SHA1 data (Z.to_nat size))).

Definition path_part : string := "/.runc/cache/".

(** [get_cache_path]: the result of [malloc] is not tested before
    [strcpy] stores through it. *)
Definition get_cache_path : M (option string) :=
  env <- getenv_HOME ;;
  homedir <- match env with
             | Some h => ret (Some h)
             | None => getpwuid_pw_dir
             end ;;
  match homedir with
  | None => ret None
  | Some h =>
      ok <- malloc (strlen path_part + strlen h + 1) ;;
      if negb ok then fault
      else ret (Some (strcat h path_part))
  end.

Definition get_hash_path (cache_path hash : string) : M (option string) :=
  ok <- malloc (SHA_DIGEST_LENGTH * 2 + 1) ;;
  if negb ok then ret None
  else
    let hash_hex := to_hex hash SHA_DIGEST_LENGTH in
    ok <- malloc (strlen cache_path + strlen hash_hex + 1) ;;
    if negb ok then free P_hash_hex ;; ret None
    else free P_hash_hex ;; ret (Some (strcat cache_path hash_hex)).

(* ------------------------------------------------------------------ *)
(** ** The hint pattern

    [extract_hint] compiles, with [REG_EXTENDED | REG_NEWLINE], the pattern
    whose text is

      ^[:blank:]*/\*!([^\*]+)\*/[:blank:]*$

    - [[:blank:]] stands outside a bracket expression, so it is itself a
      bracket expression: it matches one of the characters : b l a n k.
    - [[^\*]] matches any character but the backslash and the star (a
      backslash is an ordinary member of a bracket expression); under
      [REG_NEWLINE] a non-matching list does not match a newline either.
    - [^] matches at the start of the text and after each newline, [$] at
      the end of the text and before each newline.

    No iterated set contains the character that must follow it, hence a
    line is matched in at most one way and the longest run is the only
    candidate. *)

Module Pattern.

Definition blank_bracket (c : ascii) : bool := mem c ":blank".

Definition payload_bracket (c : ascii) : bool :=
  negb (mem c "\*") && negb (Ascii.eqb c newline).

(** The longest prefix of [s] made of characters in [set], and the rest. *)
Fixpoint span (set : ascii -> bool) (s : string) : string * string :=
  match s with
  | EmptyString => (EmptyString, EmptyString)
  | String c rest =>
      if set c
      then let (run, s') := span set rest in (String c run, s')
      else (EmptyString, s)
  end.

(** [literal lit s]: what follows [lit] at the start of [s]. *)
Fixpoint literal (lit s : string) : option string :=
  match lit, s with
  | EmptyString, _ => Some s
  | String a lit', String c rest =>
      if Ascii.eqb a c then literal lit' rest else None
  | String _ _, EmptyString => None
  end.

(** [$]: the end of the text or a newline comes next. *)
Definition at_eol (s : string) : bool :=
  match s with
  | EmptyString => true
  | String c _ => Ascii.eqb c newline
  end.

(** A match of the pattern starting at the head of [s], which is at the
    start of a line: the offsets [(rm_so, rm_eo)] of the parenthesised
    subexpression, counted from the head of [s]. *)
Definition match_here (s : string) : option (nat * nat) :=
  let (lead, s1) := span blank_bracket s in
  match literal "/*!" s1 with
  | None => None
  | Some s2 =>
      let (payload, s3) := span payload_bracket s2 in
      match payload, literal "*/" s3 with
      | String _ _, Some s4 =>
          let (trail, s5) := span blank_bracket s4 in
          if at_eol s5
          then Some (String.length lead + 3,
                     String.length lead + 3 + String.length payload)
          else None
      | _, _ => None
      end
  end.

(** [regexec]: the leftmost match.  [bol] tells whether the head of [s]
    is at the start of a line, [off] is its offset in the text. *)
Fixpoint search (bol : bool) (off : nat) (s : string) : option (nat * nat) :=
  match (if bol then match_here s else None) with
  | Some (so, eo) => Some (off + so, off + eo)
  | None =>
      match s with
      | EmptyString => None
      | String c rest => search (Ascii.eqb c newline) (S off) rest
      end
  end.

(** [regexec(&regex, sourcecode, 2, matches, 0)]: [matches[1]] when the
    pattern matches. *)
Definition regexec (sourcecode : string) : option (nat * nat) :=
  search true 0 sourcecode.

(** [stops set s]: the longest run of [set] at the head of [s] is empty. *)
Definition stops (set : ascii -> bool) (s : string) : bool :=
  match s with
  | EmptyString => true
  | String c _ => negb (set c)
  end.

(** [contains sub s]: [sub] occurs in [s]. *)
Fixpoint contains (sub s : string) : bool :=
  match literal sub s with
  | Some _ => true
  | None =>
      match s with
      | EmptyString => false
      | String _ rest => contains sub rest
      end
  end.

(** [complete_lines s]: [s] is empty or ends with a newline, so that what
    follows [s] in a text starts a line. *)
Fixpoint complete_lines (s : string) : bool :=
  match s with
  | EmptyString => true
  | String c EmptyString => Ascii.eqb c newline
  | String _ rest => complete_lines rest
  end.

End Pattern.

(** A heap block and the stores made into it: [(i, c)] is a store of [c]
    at index [i], in program order. *)
Record block : Type := mkBlock {
  blk_size : nat;
  blk_stores : list (nat * ascii)
}.

(** The stores of [n] consecutive characters from index [i]. *)
Fixpoint stores_at (i : nat) (s : string) : list (nat * ascii) :=
  match s with
  | EmptyString => []
  | String c rest => (i, c) :: stores_at (S i) rest
  end.

(** A store is within the block when its index is below the size. *)
Definition in_bounds (b : block) : Prop :=
  forall i c, In (i, c) (blk_stores b) -> i < blk_size b.

(** The C string that consecutive stores from index 0 leave at the block. *)
Definition blk_string (b : block) : string :=
  c_str (string_of_list_ascii (map snd (blk_stores b))).

(** [strncpy(dst, src, n)]: [n] characters are stored, those of [src]
    followed by NULs if [src] is shorter. *)
Definition strncpy (src : string) (n : nat) : string :=
  take n src ++ string_of_list_ascii (repeat NUL (n - String.length (take n src))).

(** [extract_hint]: the text of the parenthesised subexpression in a block
    of [hintlen] bytes, with a NUL stored at index [hintlen].  Compiling the
    constant pattern is taken to succeed. *)
Definition extract_hint (sourcecode : string) : M (option block) :=
  match Pattern.regexec sourcecode with
  | None => ret None
  | Some (rm_so, rm_eo) =>
      let hintlen := rm_eo - rm_so in
      ok <- malloc hintlen ;;
      if negb ok then ret None
      else ret (Some (mkBlock hintlen
                        (stores_at 0 (strncpy (drop rm_so sourcecode) hintlen)
                         ++ [(hintlen, NUL)])))
  end.

(** [hint_only_flags].  The loop tests the pointer [c], which is never null,
    not the character [*c]: the body also runs on the terminating NUL, and
    there it returns, as NUL is neither a dash nor a space.  The statement
    after the loop is not reached.  [hint_only_flags_body] is one run of the
    body: [Some b] for [return b], [None] to go on with [c++]. *)
Definition hint_only_flags_body (ch : ascii) : option bool :=
  if Ascii.eqb ch "-" then Some true
  else if negb (isspace ch) then Some false
  else None.

Fixpoint hint_only_flags (options : string) : bool :=
  match options with
  | String ch rest =>
      match hint_only_flags_body ch with
      | Some b => b
      | None => hint_only_flags rest
      end
  | EmptyString =>
      match hint_only_flags_body NUL with
      | Some b => b
      | None => true
      end
  end.

(** [sprintf] for formats whose only directive is [%s]. *)
Fixpoint sprintf (fmt : string) (args : list string) : string :=
  match fmt with
  | EmptyString => EmptyString
  | String c rest =>
      if Ascii.eqb c "%" then
        match rest with
        | String d rest' =>
            if Ascii.eqb d "s" then
              match args with
              | a :: args' => a ++ sprintf rest' args'
              | [] => sprintf rest' []
              end
            else String c (String d (sprintf rest' args))
        | EmptyString => String c EmptyString
        end
      else String c (sprintf rest args)
  end.

Definition nl : string := String newline EmptyString.

(* ================================================================== *)
(** * The functions that run commands, and [main] *)

Definition DEFAULT_COMPILER : string := "clang -Wall -std=c99".

Definition cmdline_fmt : string :=
  "%s %s " ++ dquote ++ "%s" ++ dquote ++ " -o " ++ dquote ++ "%s" ++ dquote.

(** [S_IRWXU | S_IRWXG | S_IROTH | S_IXOTH] *)
Definition dir_mode : Z := Z.lor (Z.lor (Z.lor 448 56) 4) 1.

Section Commands.

(** What the command interpreter does with a command line: the value
    [system] returns and the effect on the environment. *)
Variable sh : string -> os -> Z * os.

Definition system (by_ : caller) (cmdline : string) : M Z :=
  fun p => let (status, o) := sh cmdline (p_os p) in
           Ok status (log (Ev_system by_ cmdline status) (set_os o p)).

(** [compile]: whether the command was run, and the value stored in
    [*result] if it was. *)
Definition compile (filename output : string) (hint : option string)
  : M (bool * option Z) :=
  let compiler := DEFAULT_COMPILER in
  let extra_flags := EmptyString in
  let (compiler, extra_flags) :=
    match hint with
    | Some h => if hint_only_flags h then (compiler, h) else (h, extra_flags)
    | None => (compiler, extra_flags)
    end in
  ok <- malloc (strlen cmdline_fmt - 8 + strlen compiler + strlen extra_flags
                + strlen filename + strlen output + 1) ;;
  if negb ok then ret (false, None)
  else
    let cmdline := sprintf cmdline_fmt [compiler; extra_flags; filename; output] in
    printf (cmdline ++ nl) ;;
    result <- system By_compile cmdline ;;
    free P_cmdline ;;
    ret (true, Some result).

(** The command line [launch] builds: the file name, then for each
    argument a space and a quote, the argument, a space and a quote. *)
Definition launch_cmdline (filename : string) (argv : list string) : string :=
  fold_left (fun cmdline arg =>
               strcat (strcat (strcat cmdline (" " ++ dquote)) arg) (" " ++ dquote))
            argv filename.

Definition launch_cmdline_len (filename : string) (argv : list string) : nat :=
  fold_left (fun len arg => len + (3 + strlen arg)) argv (strlen filename).

Definition launch (filename : string) (argv : list string)
  : M (bool * option Z) :=
  ok <- malloc (launch_cmdline_len filename argv) ;;
  if negb ok then ret (false, None)
  else
    result <- system By_launch (launch_cmdline filename argv) ;;
    free P_cmdline ;;
    ret (true, Some result).

(** The value of an [int] that a callee stored into, or that nothing was
    stored into. *)
Definition stored_or_uninitialised (v : option Z) : M Z :=
  match v with
  | Some z => ret z
  | None => uninitialised
  end.

(** The block of [main] run when the entry does not exist.  [Some r]
    stands for [return r]; [None] for reaching the end of the block. *)
Definition main_miss (filename sourcecode cache_path out_path : string)
  : M (option Z) :=
  made <- mkdir_p cache_path dir_mode ;;
  if negb (made =? 0)%Z then
    printf ("runc: could not create cache directory at " ++ cache_path ++ nl) ;;
    free P_sourcecode ;; free P_cache_path ;; free P_out_path ;;
    ret (Some 1%Z)
  else
    hint <- extract_hint (c_str sourcecode) ;;
    '(compile_ok, stored) <- compile filename out_path (option_map blk_string hint) ;;
    free P_hint ;;
    (if negb compile_ok then
       printf ("runc: error compiling " ++ filename ++ " to " ++ out_path ++ nl) ;;
       free P_sourcecode ;; free P_cache_path ;; free P_out_path
     else ret tt) ;;
    compile_result <- stored_or_uninitialised stored ;;
    if negb (compile_result =? 0)%Z then
      free P_sourcecode ;; free P_cache_path ;; free P_out_path ;;
      ret (Some compile_result)
    else ret None.

Definition main (argv : list string) : M Z :=
  match argv with
  | _ :: filename :: args =>
      source <- readfilestr filename ;;
      match source with
      | None => printf ("runc: could not read " ++ filename ++ nl) ;; ret 1%Z
      | Some (sourcecode, sourcelen) =>
          hash <- source_hash sourcecode sourcelen ;;
          match hash with
          | None =>
              printf ("runc: could not compute hash of " ++ filename ++ nl) ;;
              free P_sourcecode ;; ret 1%Z
          | Some hash =>
              cache_path <- get_cache_path ;;
              match cache_path with
              | None =>
                  printf ("runc: could not get cache path" ++ nl) ;;
                  free P_sourcecode ;; ret 1%Z
              | Some cache_path =>
                  out_path <- get_hash_path cache_path hash ;;
                  free P_hash ;;
                  match out_path with
                  | None =>
                      printf ("runc: could not generate output file path for "
                                ++ filename ++ nl) ;;
                      free P_sourcecode ;; free P_cache_path ;; ret 1%Z
                  | Some out_path =>
                      exists_ <- file_exists out_path ;;
                      early <- (if negb exists_
                                then main_miss filename sourcecode cache_path out_path
                                else ret None) ;;
                      match early with
                      | Some status => ret status
                      | None =>
                          free P_sourcecode ;; free P_cache_path ;;
                          '(launch_ok, stored) <- launch out_path args ;;
                          free P_out_path ;;
                          if negb launch_ok then
                            printf_freed ("runc: failed to launch %s" ++ nl)
                                         P_out_path ;;
                            ret 1%Z
                          else stored_or_uninitialised stored
                      end
                  end
              end
          end
      end
  | _ => printf ("runc: usage: runc <filename>" ++ nl) ;; ret 1%Z
  end.

End Commands.

(** A process that has made no call yet. *)
Definition start (o : os) (mallocs : list bool) (uninit : Z) : proc :=
  mkProc o mallocs E_none uninit [].

(* ================================================================== *)
(** * Notions used in the statements *)

(* ------------------------------------------------------------------ *)
(** ** Allocation *)

(** The next call of [malloc] succeeds. *)
Definition malloc_succeeds (p : proc) : Prop := hd true (p_malloc p) = true.

(* ------------------------------------------------------------------ *)
(** ** The build command *)

(** The source and output arguments that end every build command. *)
Definition source_output_arguments (filename output : string) : string :=
  " " ++ dquote ++ filename ++ dquote ++ " -o " ++ dquote ++ output ++ dquote.

(** The command line [compile] builds, by the three cases of the hint. *)
Definition build_command (filename output : string) (hint : option string)
  : string :=
  match hint with
  | None =>
      DEFAULT_COMPILER ++ " " ++ source_output_arguments filename output
  | Some h =>
      if hint_only_flags h
      then DEFAULT_COMPILER ++ " " ++ h ++ source_output_arguments filename output
      else h ++ " " ++ source_output_arguments filename output
  end.

(* ------------------------------------------------------------------ *)
(** ** The command interpreter and the launch command *)

(** How the command interpreter splits a command line into words, for
    command lines in which only the space and the double quote are special:
    spaces outside quotes separate words, a double quote opens or closes a
    quoted stretch, and a quoted space belongs to its word.  The
    interpreter also expands the dollar and the backquote, unescapes the
    backslash, and outside quotes splits on tabs, newlines and operators
    and expands patterns; a command line with such characters is outside
    what [words] describes.  It describes the command lines made of letters,
    digits, slashes, dots, underscores and dashes outside quotes, and
    between quotes of any character but the double quote, the dollar, the
    backquote and the backslash. *)
Module Shell.

Fixpoint words_from (quoted started : bool) (word s : string) : list string :=
  match s with
  | EmptyString => if started then [word] else []
  | String c rest =>
      if Ascii.eqb c (ascii_of_nat 34)
      then words_from (negb quoted) true word rest
      else if Ascii.eqb c " " && negb quoted
      then (if started then [word] else []) ++ words_from false false "" rest
      else words_from quoted true (word ++ String c "") rest
  end%list.

Definition words (cmdline : string) : list string :=
  words_from false false "" cmdline.

End Shell.

(** What [launch] puts around an argument. *)
Definition launch_quoted (arg : string) : string :=
  " " ++ dquote ++ arg ++ " " ++ dquote.

(** The concatenation of a list of strings. *)
Fixpoint join (l : list string) : string :=
  match l with
  | [] => EmptyString
  | a :: l' => a ++ join l'
  end.

(* ------------------------------------------------------------------ *)
(** ** Traces *)

(** [grows P l0 l]: the log [l] extends [l0] by calls that satisfy [P]. *)
Inductive grows (P : event -> Prop) (l0 : list event) : list event -> Prop :=
| grows_refl : grows P l0 l0
| grows_cons (e : event) (l : list event) :
    P e -> grows P l0 l -> grows P l0 (e :: l).

(** The number of calls in a log that satisfy [f]. *)
Fixpoint count (f : event -> bool) (l : list event) : nat :=
  match l with
  | [] => 0
  | e :: l' => (if f e then 1 else 0) + count f l'
  end.

Definition is_mkdir (e : event) : bool :=
  match e with Ev_mkdir _ _ _ => true | _ => false end.

Definition is_compile (e : event) : bool :=
  match e with Ev_system By_compile _ _ => true | _ => false end.

Definition is_launch (e : event) : bool :=
  match e with Ev_system By_launch _ _ => true | _ => false end.

(** A call that runs no command. *)
Definition silent (e : event) : Prop :=
  match e with Ev_system _ _ _ => False | _ => True end.

(** A call that neither runs a command nor creates a directory. *)
Definition quiet (e : event) : Prop :=
  match e with Ev_system _ _ _ | Ev_mkdir _ _ _ => False | _ => True end.

(** A call that neither compiles nor creates a directory. *)
Definition frame (e : event) : Prop :=
  is_mkdir e = false /\ is_compile e = false.

(** A call that is not a compilation. *)
Definition no_compile (e : event) : Prop := is_compile e = false.

(** The number of compilations in the trace of a run. *)
Definition compilations {A : Type} (r : res A) : nat := count is_compile (trace r).

(* ------------------------------------------------------------------ *)
(** ** The cache entry of a source file *)

(** The home directory [get_cache_path] finds. *)
Definition home_dir (o : os) : option string :=
  match os_HOME o with
  | Some h => Some h
  | None => os_pw_dir o
  end.

(** The path of the cache entry [main] derives for a source file with the
    given bytes. *)
Definition entry_path (home bytes : string) : string :=
  strcat (strcat home path_part)
         (to_hex (SHA1 bytes (Z.to_nat (int_of_long (Z.of_nat (String.length bytes)))))
                 SHA_DIGEST_LENGTH).

Definition cache_entry (o : os) (filename : string) : option string :=
  match file_bytes o filename, home_dir o with
  | Some bytes, Some home => Some (entry_path home bytes)
  | _, _ => None
  end.

(** The calls of a run from the probe on when the entry is readable and
    the command line of the launch is allocated: the probe, then the launch
    of the entry, which returns [status]. *)
Definition hit_calls (out_path : string) (args : list string) (status : Z)
  : list event :=
  [ Ev_fopen out_path true; Ev_fclose false;
    Ev_free P_sourcecode; Ev_free P_cache_path;
    Ev_malloc (launch_cmdline_len out_path args) true;
    Ev_system By_launch (launch_cmdline out_path args) status;
    Ev_free P_cmdline; Ev_free P_out_path ].

(* ------------------------------------------------------------------ *)
(** ** The parts of [main] *)

(** The part of [main] from the probe of the entry on. *)
Definition run_entry (sh : string -> os -> Z * os)
           (filename sourcecode cache_path out_path : string)
           (args : list string) : M Z :=
  exists_ <- file_exists out_path ;;
  early <- (if negb exists_
            then main_miss sh filename sourcecode cache_path out_path
            else ret None) ;;
  match early with
  | Some status => ret status
  | None =>
      free P_sourcecode ;; free P_cache_path ;;
      '(launch_ok, stored) <- launch sh out_path args ;;
      free P_out_path ;;
      if negb launch_ok then
        printf_freed ("runc: failed to launch %s" ++ nl) P_out_path ;;
        ret 1%Z
      else stored_or_uninitialised stored
  end.

(** The end of [main]: the launch of the entry. *)
Definition launch_entry (sh : string -> os -> Z * os) (out_path : string)
           (args : list string) : M Z :=
  free P_sourcecode ;; free P_cache_path ;;
  '(launch_ok, stored) <- launch sh out_path args ;;
  free P_out_path ;;
  if negb launch_ok then
    printf_freed ("runc: failed to launch %s" ++ nl) P_out_path ;;
    ret 1%Z
  else stored_or_uninitialised stored.

(* ------------------------------------------------------------------ *)
(** ** Outcomes *)

(** [reaches P p q]: the state [q] is reached from [p] by calls that
    satisfy [P], none of which changes the environment; and allocations
    that never fail before keep never failing. *)
Definition reaches (P : event -> Prop) (p q : proc) : Prop :=
  p_os q = p_os p
  /\ p_uninit q = p_uninit p
  /\ grows P (p_log p) (p_log q)
  /\ (p_malloc p = [] -> p_malloc q = []).

(** [post p Q F r]: the run [r] from [p] made quiet calls only; its value
    satisfies [Q] if it ended normally and [F] holds if it faulted. *)
Definition post {A : Type} (p : proc) (Q : A -> Prop) (F : Prop) (r : res A)
  : Prop :=
  reaches quiet p (final r)
  /\ match r with
     | Ok a _ => Q a
     | Fault _ => F
     end.

(** [main] either ends before the probe, having neither run a command nor
    created a directory, or reaches the probe with the entry path of the
    source file, in the environment it started in. *)
Definition main_outcome (sh : string -> os -> Z * os) (filename : string)
           (args : list string) (p : proc) (r : res Z) : Prop :=
  (exists bytes home p1,
      file_bytes (p_os p) filename = Some bytes
      /\ home_dir (p_os p) = Some home
      /\ reaches quiet p p1
      /\ r = run_entry sh filename bytes (strcat home path_part)
                       (entry_path home bytes) args p1)
  \/ (reaches quiet p (final r)
      /\ (p_malloc p = [] -> cache_entry (p_os p) filename = None)).

(** The launch either cannot allocate its command line, and ends with
    status 1 having run nothing, or runs the entry with the arguments and
    ends with the value [system] returned. *)
Definition launch_outcome (sh : string -> os -> Z * os) (out_path : string)
           (args : list string) (p : proc) (r : res Z) : Prop :=
  (p_malloc p <> []
   /\ exit_status r = Some 1%Z
   /\ grows quiet (p_log p) (p_log (final r)))
  \/ (exit_status r = Some (fst (sh (launch_cmdline out_path args) (p_os p)))
      /\ p_log (final r)
         = ([ Ev_free P_out_path; Ev_free P_cmdline;
              Ev_system By_launch (launch_cmdline out_path args)
                (fst (sh (launch_cmdline out_path args) (p_os p)));
              Ev_malloc (launch_cmdline_len out_path args) true;
              Ev_free P_cache_path; Ev_free P_sourcecode ] ++ p_log p)%list).

(** The two ways the block run on a miss ends: without having run a
    command, or after the build command, with its status [st], returning
    [st] from [main] unless it is 0. *)
Definition miss_outcome (filename out_path : string) (p : proc)
           (r : res (option Z)) : Prop :=
  (exists v p', r = Ok v p' /\ grows silent (p_log p) (p_log p'))
  \/ (exists hint st l1 p',
         grows silent (p_log p) l1
         /\ r = Ok (if negb (st =? 0)%Z then Some st else None) p'
         /\ grows silent
              (Ev_system By_compile (build_command filename out_path hint) st :: l1)
              (p_log p')).

(** The shape of the trace of a run: no compilation; or one compilation
    with a status other than 0, returned as the status of the run, and
    commands neither before nor after; or one compilation with status 0.
    [C] holds of the command compiled. *)
Definition run_shape (C : string -> Prop) (l0 : list event) (r : res Z) : Prop :=
  grows no_compile l0 (p_log (final r))
  \/ (exists cmd st l1,
         C cmd
         /\ grows silent l0 l1
         /\ st <> 0%Z
         /\ exit_status r = Some st
         /\ grows silent (Ev_system By_compile cmd st :: l1) (p_log (final r)))
  \/ (exists cmd l1,
         C cmd
         /\ grows silent l0 l1
         /\ grows no_compile (Ev_system By_compile cmd 0 :: l1) (p_log (final r))).

(** The build commands for a source file and its cache entry. *)
Definition builds (filename out_path : string) (cmd : string) : Prop :=
  exists hint, cmd = build_command filename out_path hint.

(** The build commands of a run of [main]: those for the source file named
    by the first argument and its cache entry in the environment. *)
Definition builds_entry (argv : list string) (o : os) (cmd : string) : Prop :=
  exists prog filename args path,
    argv = prog :: filename :: args
    /\ cache_entry o filename = Some path
    /\ builds filename path cmd.

(* ------------------------------------------------------------------ *)
(** ** Hexadecimal digits *)

(** A lowercase hexadecimal digit. *)
Definition is_lower_hex (c : ascii) : bool := mem c "0123456789abcdef".

(** The value of a lowercase hexadecimal digit. *)
Definition hex_value (c : ascii) : nat :=
  if (nat_of_ascii c <? 58)%nat then nat_of_ascii c - 48 else nat_of_ascii c - 87.

(** The bytes that a string of digit pairs stands for. *)
Fixpoint of_hex (s : string) : string :=
  match s with
  | String h (String l rest) =>
      String (ascii_of_nat (16 * hex_value h + hex_value l)) (of_hex rest)
  | _ => EmptyString
  end.
(* ------------------------------------------------------------------ *)
(** ** Prefixes of a path *)

(** [ends_with c s]: the last character of [s] is [c]. *)
Fixpoint ends_with (c : ascii) (s : string) : bool :=
  match s with
  | EmptyString => false
  | String x EmptyString => Ascii.eqb x c
  | String _ rest => ends_with c rest
  end.

(** [slash_prefix path dir]: [path] is a prefix of [dir] that ends with a
    slash. *)
Definition slash_prefix (path dir : string) : Prop :=
  ends_with "/" path = true /\ exists rest, dir = path ++ rest.

(** Two environments that differ at most in the directories that exist,
    the second having those of the first and possibly more. *)
Definition same_but_dirs (o o' : os) : Prop :=
  os_files o' = os_files o
  /\ os_mkdir_error o' = os_mkdir_error o
  /\ os_HOME o' = os_HOME o
  /\ os_pw_dir o' = os_pw_dir o
  /\ os_fclose_null_faults o' = os_fclose_null_faults o
  /\ forall d, dir_exists o d = true -> dir_exists o' d = true.

(** What [mkdir_p dir mode] may call: [malloc] for its buffer, [mkdir] with
    [mode] on a prefix of [dir] that ends with a slash, [free] of the
    buffer. *)
Definition mkdir_p_call (dir : string) (mode : Z) (e : event) : Prop :=
  match e with
  | Ev_malloc n _ => n = strlen dir + 1
  | Ev_mkdir path md _ => md = mode /\ slash_prefix path dir
  | Ev_free b => b = P_buf
  | _ => False
  end.

(* ------------------------------------------------------------------ *)
(** ** Words of a command line *)

(** The double quote as a character. *)
Definition dquote_char : ascii := ascii_of_nat 34.

(** A character that the command interpreter takes as itself outside
    quotes, wherever it stands in a word: a letter, a digit, a slash, a dot,
    an underscore or a dash. *)
Definition plain (c : ascii) : bool :=
  ((48 <=? code c)%nat && (code c <=? 57)%nat)
  || ((65 <=? code c)%nat && (code c <=? 90)%nat)
  || ((97 <=? code c)%nat && (code c <=? 122)%nat)
  || mem c "/._-".

(** A character that the command interpreter takes as itself between double
    quotes: any but the double quote, the dollar, the backquote and the
    backslash, which it ends the stretch on, expands or unescapes there.
    NUL, which no C string holds, is left out too. *)
Definition quoted_literal (c : ascii) : bool :=
  negb (Ascii.eqb c dquote_char)
  && negb (Ascii.eqb c "$")
  && negb (Ascii.eqb c (ascii_of_nat 96))
  && negb (Ascii.eqb c (ascii_of_nat 92))
  && negb (Ascii.eqb c NUL).

(** An argument that arrives as it is when it stands between double
    quotes. *)
Definition quotable (s : string) : bool := all quoted_literal s.

(* ------------------------------------------------------------------ *)
(** ** Runs in which no allocation fails *)

(** The calls of [main] before the probe, for a source file with the given
    bytes and the given home directory. *)
Definition prelude_calls (filename bytes home : string) : list event :=
  [ Ev_fopen filename true;
    Ev_malloc (String.length bytes + 1) true;
    Ev_fclose false;
    Ev_malloc SHA_DIGEST_LENGTH true;
    Ev_malloc (strlen path_part + strlen home + 1) true;
    Ev_malloc (SHA_DIGEST_LENGTH * 2 + 1) true;
    Ev_malloc (String.length (entry_path home bytes) + 1) true;
    Ev_free P_hash_hex;
    Ev_free P_hash ].

(** The hint [extract_hint] returns, as a C string, when its block is
    allocated. *)
Definition source_hint (sourcecode : string) : option string :=
  match Pattern.regexec sourcecode with
  | Some (rm_so, rm_eo) =>
      Some (blk_string
              (mkBlock (rm_eo - rm_so)
                 (stores_at 0 (strncpy (drop rm_so sourcecode) (rm_eo - rm_so))
                  ++ [(rm_eo - rm_so, NUL)])%list))
  | None => None
  end.

(** The calls of [compile] and the release of the hint after it, when the
    command [cmd] returns [st]. *)
Definition build_calls (cmd : string) (st : Z) : list event :=
  [ Ev_malloc (String.length cmd + 1) true;
    Ev_printf (cmd ++ nl);
    Ev_system By_compile cmd st;
    Ev_free P_cmdline;
    Ev_free P_hint ].

(** The calls of the end of [main], when the launch command returns [st]. *)
Definition launch_calls (out_path : string) (args : list string) (st : Z)
  : list event :=
  [ Ev_free P_sourcecode; Ev_free P_cache_path;
    Ev_malloc (launch_cmdline_len out_path args) true;
    Ev_system By_launch (launch_cmdline out_path args) st;
    Ev_free P_cmdline; Ev_free P_out_path ].

(** The calls by which [main] releases its three blocks before it returns
    early. *)
Definition release_calls : list event :=
  [ Ev_free P_sourcecode; Ev_free P_cache_path; Ev_free P_out_path ].

(* ------------------------------------------------------------------ *)
(** ** Statuses *)

(** The value [system] returns for a command that exited with the status
    [code]: the wait status, which holds the status in bits 8 to 15. *)
Definition W_EXITCODE (code : Z) : Z := Z.shiftl code 8.

(** The status that the parent of a process sees when [main] returns [z]:
    the low eight bits of the value. *)
Definition process_status (z : Z) : Z := Z.land z 255.

(* ------------------------------------------------------------------ *)
(** ** Sample environments *)

Definition source_sample : string := "int main(void) { return 0; }".

(** An environment with the source file [a.c], the home directory [/h], an
    empty cache, and a library whose [fclose] tolerates the null stream. *)
Definition os_sample : os :=
  mkOs [("a.c", source_sample)] ["/"; "/h/"] [] (Some "/h") None false.

(** The same with a library whose [fclose] faults on the null stream. *)
Definition os_strict : os :=
  mkOs [("a.c", source_sample)] ["/"; "/h/"] [] (Some "/h") None true.

(** An interpreter whose commands all return 0 and change nothing. *)
Definition sh_idle (cmdline : string) (o : os) : Z * os := (0%Z, o).

(** The cache entry of [a.c] in [os_sample]. *)
Definition entry_sample : string := entry_path "/h" source_sample.

(** [os_sample] with the entry of [a.c] in the cache. *)
Definition os_cached : os := add_file entry_sample "artifact" os_sample.

(** An interpreter whose compiler succeeds and writes the entry of [a.c]. *)
Definition sh_cc (cmdline : string) (o : os) : Z * os :=
  if String.prefix "clang" cmdline
  then (0%Z, add_file entry_sample "artifact" o)
  else (0%Z, o).

(** An interpreter whose compiler fails: [system] returns 256, the wait
    status of a command that exited with status 1. *)
Definition sh_failing (cmdline : string) (o : os) : Z * os :=
  if String.prefix "clang" cmdline then (256%Z, o) else (0%Z, o).

(* ================================================================== *)
(** * Facts about strings *)

#[local] Arguments Ascii.eqb : simpl never.
#[local] Arguments String.eqb : simpl never.

Section StringFacts.

Lemma append_nil_r (s : string) : s ++ "" = s.
Proof. induction s as [|c s IH]; simpl; [reflexivity | now rewrite IH]. Qed.

Lemma append_assoc (a b c : string) : (a ++ b) ++ c = a ++ (b ++ c).
Proof. induction a as [|x a IH]; simpl; [reflexivity | now rewrite IH]. Qed.

Lemma length_append (a b : string) :
  String.length (a ++ b) = String.length a + String.length b.
Proof. induction a as [|x a IH]; simpl; [reflexivity | now rewrite IH]. Qed.

Lemma drop_append (a b : string) : drop (String.length a) (a ++ b) = b.
Proof. induction a as [|x a IH]; simpl; [now destruct b | exact IH]. Qed.

Lemma drop_add (n m : nat) (s : string) : drop (n + m) s = drop m (drop n s).
Proof.
  revert s; induction n as [|n IH]; intro s; simpl.
  - reflexivity.
  - destruct s as [|c s]; simpl; [now destruct m | apply IH].
Qed.

Lemma take_append (a b : string) : take (String.length a) (a ++ b) = a.
Proof. induction a as [|x a IH]; simpl; [now destruct b | now rewrite IH]. Qed.

Lemma length_string_of_list_ascii (l : list ascii) :
  String.length (string_of_list_ascii l) = List.length l.
Proof. induction l as [|c l IH]; simpl; [reflexivity | now rewrite IH]. Qed.

(** A string without NUL is a C string as it stands. *)
Lemma c_str_no_nul (s t : string) :
  mem NUL s = false -> c_str (s ++ String NUL t) = s.
Proof.
  induction s as [|c s IH]; simpl; intro H.
  - reflexivity.
  - apply orb_false_iff in H as [Hc Hs].
    rewrite Ascii.eqb_sym, Hc. now rewrite IH.
Qed.

Lemma string_of_stores (i : nat) (s : string) :
  string_of_list_ascii (map snd (stores_at i s)) = s.
Proof.
  revert i; induction s as [|c s IH]; intro i; simpl;
    [reflexivity | now rewrite IH].
Qed.

Lemma string_of_list_ascii_app (l1 l2 : list ascii) :
  string_of_list_ascii (l1 ++ l2)
  = string_of_list_ascii l1 ++ string_of_list_ascii l2.
Proof. induction l1 as [|c l IH]; simpl; [reflexivity | now rewrite IH]. Qed.

End StringFacts.

(* ================================================================== *)
(** * The content hasher *)

Example sha1_abc :
  to_hex (SHA1 "abc" 3) 20 = "a9993e364706816aba3e25717850c26c9cd0d89d".
Proof. vm_compute. reflexivity. Qed.

Example sha1_empty :
  to_hex (SHA1 "" 0) 20 = "da39a3ee5e6b4b0d3255bfef95601890afd80709".
Proof. vm_compute. reflexivity. Qed.

Example sha1_two_blocks :
  to_hex (SHA1 "abcdbcdecdefdefgefghfghighijhijkijkljklmklmnlmnomnopnopq" 56) 20
  = "84983e441c3bd26ebaae4aa1f95129e5e54670f1".
Proof. vm_compute. reflexivity. Qed.

Lemma digest_length (msg : list Z) : List.length (digest msg) = 20.
Proof.
  unfold digest.
  destruct (blocks _ H0 (pad msg)) as [[[[h0 h1] h2] h3] h4].
  reflexivity.
Qed.

Lemma SHA1_length (d : string) (n : nat) :
  String.length (SHA1 d n) = SHA_DIGEST_LENGTH.
Proof.
  unfold SHA1, string_of_bytes.
  rewrite length_string_of_list_ascii, length_map. apply digest_length.
Qed.

Lemma malloc_ok (n : nat) (p : proc) :
  malloc_succeeds p -> exists p', malloc n p = Ok true p' /\ p_os p' = p_os p.
Proof.
  unfold malloc_succeeds, malloc. destruct (p_malloc p) as [|b rest]; simpl.
  - intros _. eexists; split; reflexivity.
  - intros ->. eexists; split; reflexivity.
Qed.

(** [source_hash] returns a digest exactly when its allocation succeeds,
    and the digest is that of the bytes. *)
Lemma source_hash_some (data : string) (size : Z) (p p' : proc) (h : string) :
  source_hash data size p = Ok (Some h) p' ->
  malloc_succeeds p /\ h = SHA1 data (Z.to_nat size).
Proof.
  unfold source_hash, bind, malloc, malloc_succeeds.
  destruct (p_malloc p) as [|[|] rest]; simpl; unfold ret; intro E;
    inversion E; auto.
Qed.

(** C2.  The content hasher is deterministic: two calls of [source_hash] on
    the same bytes, with a size that does not exceed the bytes that are
    there, in whatever states of the process in which the digest can be
    allocated, return the same fingerprint, and it is 20 bytes long.  In
    particular two source files with the same bytes have the same
    fingerprint. *)
Theorem source_hash_deterministic :
  forall (data1 data2 : string) (size : Z) (p1 p2 : proc),
    (0 <= size)%Z ->
    (size <= Z.of_nat (String.length data1))%Z ->
    (size <= Z.of_nat (String.length data2))%Z ->
    take (Z.to_nat size) data1 = take (Z.to_nat size) data2 ->
    malloc_succeeds p1 ->
    malloc_succeeds p2 ->
    exists h p1' p2',
      source_hash data1 size p1 = Ok (Some h) p1'
      /\ source_hash data2 size p2 = Ok (Some h) p2'
      /\ String.length h = SHA_DIGEST_LENGTH.
Proof.
  intros data1 data2 size p1 p2 _ _ _ Hbytes H1 H2.
  destruct (malloc_ok SHA_DIGEST_LENGTH p1 H1) as [q1 [E1 _]].
  destruct (malloc_ok SHA_DIGEST_LENGTH p2 H2) as [q2 [E2 _]].
  exists (SHA1 data1 (Z.to_nat size)), q1, q2.
  unfold source_hash, bind. rewrite E1, E2. simpl. unfold ret.
  repeat split.
  - unfold SHA1. now rewrite Hbytes.
  - apply SHA1_length.
Qed.

Lemma source_hash_deterministic_witness :
  (0 <= 3)%Z
  /\ (3 <= Z.of_nat (String.length "abc"))%Z
  /\ (3 <= Z.of_nat (String.length "abcdef"))%Z
  /\ exists h p1' p2',
      source_hash "abc" 3 (start os_sample [] 0) = Ok (Some h) p1'
      /\ source_hash "abcdef" 3 (start os_sample [true; false] 5) = Ok (Some h) p2'
      /\ String.length h = SHA_DIGEST_LENGTH.
Proof.
  assert (H0 : (0 <= 3)%Z) by lia.
  assert (H1 : (3 <= Z.of_nat (String.length "abc"))%Z) by (cbn; lia).
  assert (H2 : (3 <= Z.of_nat (String.length "abcdef"))%Z) by (cbn; lia).
  split; [exact H0|]. split; [exact H1|]. split; [exact H2|].
  apply (source_hash_deterministic "abc" "abcdef" 3
           (start os_sample [] 0) (start os_sample [true; false] 5) H0 H1 H2);
    reflexivity.
Defined.

(* ================================================================== *)
(** * The build command *)

Lemma sprintf_cmdline_fmt (compiler extra_flags filename output : string) :
  sprintf cmdline_fmt [compiler; extra_flags; filename; output]
  = compiler ++ " " ++ extra_flags ++ source_output_arguments filename output.
Proof.
  unfold cmdline_fmt, source_output_arguments, dquote. cbn [String.append].
  cbv - [String.append]. reflexivity.
Qed.

(** The block [compile] allocates holds the command line and its NUL
    exactly. *)
Lemma cmdline_fmt_size (compiler extra_flags filename output : string) :
  strlen cmdline_fmt - 8 + strlen compiler + strlen extra_flags
  + strlen filename + strlen output + 1
  = String.length (sprintf cmdline_fmt [compiler; extra_flags; filename; output]) + 1.
Proof.
  rewrite sprintf_cmdline_fmt.
  unfold source_output_arguments, strlen, cmdline_fmt, dquote.
  repeat (rewrite length_append; cbn [String.length String.append]).
  cbn. lia.
Qed.

(** The two ways [compile] ends: without running anything when its buffer
    cannot be allocated, and after running the build command otherwise. *)
Lemma compile_cases (sh : string -> os -> Z * os) (filename output : string)
      (hint : option string) (p : proc) :
  (~ malloc_succeeds p
   /\ exists p',
       compile sh filename output hint p = Ok (false, None) p'
       /\ p_log p'
          = Ev_malloc (String.length (build_command filename output hint) + 1) false
              :: p_log p
       /\ p_uninit p' = p_uninit p)
  \/ (malloc_succeeds p
      /\ exists p',
          compile sh filename output hint p
          = Ok (true, Some (fst (sh (build_command filename output hint) (p_os p)))) p'
          /\ p_log p'
             = ([ Ev_free P_cmdline;
                  Ev_system By_compile (build_command filename output hint)
                    (fst (sh (build_command filename output hint) (p_os p)));
                  Ev_printf (build_command filename output hint ++ nl);
                  Ev_malloc (String.length (build_command filename output hint) + 1) true ]
                ++ p_log p)%list
          /\ p_uninit p' = p_uninit p).
Proof.
  set (cmdline := build_command filename output hint).
  unfold compile.
  set (ce := match hint with
             | Some h => if hint_only_flags h then (DEFAULT_COMPILER, h)
                         else (h, "")
             | None => (DEFAULT_COMPILER, "")
             end).
  assert (Hcmd : sprintf cmdline_fmt [fst ce; snd ce; filename; output] = cmdline).
  { rewrite sprintf_cmdline_fmt. subst ce cmdline. unfold build_command.
    destruct hint as [h|]; [destruct (hint_only_flags h)|]; reflexivity. }
  assert (Hsize : strlen cmdline_fmt - 8 + strlen (fst ce) + strlen (snd ce)
                  + strlen filename + strlen output + 1
                  = String.length cmdline + 1).
  { rewrite cmdline_fmt_size. now rewrite Hcmd. }
  destruct ce as [compiler extra_flags] eqn:Ece.
  cbn [fst snd] in Hcmd, Hsize. rewrite Hsize, Hcmd.
  unfold bind, malloc, malloc_succeeds.
  destruct (p_malloc p) as [|[|] rest] eqn:Em; cbn [hd negb].
  - right. split; [reflexivity|].
    unfold printf, emit, system; cbn [log p_os set_os].
    destruct (sh cmdline (p_os p)) as [st o'].
    eexists; repeat split; reflexivity.
  - right. split; [reflexivity|].
    unfold printf, emit, system; cbn [log p_os set_os].
    destruct (sh cmdline (p_os p)) as [st o'].
    eexists; repeat split; reflexivity.
  - left. split; [discriminate|].
    eexists; repeat split; reflexivity.
Qed.



Example build_command_no_hint :
  build_command "a.c" "/c/ab" None
  = "clang -Wall -std=c99  " ++ dquote ++ "a.c" ++ dquote ++ " -o "
      ++ dquote ++ "/c/ab" ++ dquote.
Proof. reflexivity. Qed.

Example build_command_flags :
  build_command "a.c" "/c/ab" (Some "-lm")
  = "clang -Wall -std=c99 -lm " ++ dquote ++ "a.c" ++ dquote ++ " -o "
      ++ dquote ++ "/c/ab" ++ dquote.
Proof. reflexivity. Qed.

Example build_command_override :
  build_command "a.c" "/c/ab" (Some "gcc -O2")
  = "gcc -O2  " ++ dquote ++ "a.c" ++ dquote ++ " -o "
      ++ dquote ++ "/c/ab" ++ dquote.
Proof. reflexivity. Qed.

(* ================================================================== *)
(** * Classification of hints *)

(** The classification is decided by the first character that is not a
    space, when there is one: flags-only exactly when it is a dash. *)
Lemma hint_only_flags_first_nonspace (ws : string) (c : ascii) (rest : string) :
  all isspace ws = true ->
  isspace c = false ->
  hint_only_flags (ws ++ String c rest) = Ascii.eqb c "-".
Proof.
  intros Hws Hc. induction ws as [|w ws IH]; cbn [String.append hint_only_flags].
  - unfold hint_only_flags_body. rewrite Hc.
    now destruct (Ascii.eqb c "-").
  - cbn [all] in Hws. apply andb_true_iff in Hws as [Hw Hws'].
    unfold hint_only_flags_body at 1. rewrite Hw.
    destruct (Ascii.eqb w "-") eqn:Ew.
    + apply Ascii.eqb_eq in Ew. subst w. discriminate Hw.
    + cbn [negb]. now apply IH.
Qed.

(** A hint made of spaces only, the empty hint included, is classified by
    the run of the loop body on the terminating NUL. *)
Lemma hint_only_flags_all_space (ws : string) :
  all isspace ws = true -> hint_only_flags ws = false.
Proof.
  induction ws as [|w ws IH]; cbn [all hint_only_flags]; intro H.
  - reflexivity.
  - apply andb_true_iff in H as [Hw Hws].
    unfold hint_only_flags_body. rewrite Hw.
    destruct (Ascii.eqb w "-") eqn:Ew.
    + apply Ascii.eqb_eq in Ew. subst w. discriminate Hw.
    + cbn [negb]. now apply IH.
Qed.

(** C4 (the code departs from the claim).  The two hints with a first
    character that is not a space are classified as the claim says; the
    empty hint and the hint of three spaces are classified as a full
    command, not as flags-only. *)
Theorem hint_only_flags_blank_hints :
  hint_only_flags "-O2 -Wall" = true
  /\ hint_only_flags "g++ -std=c++20" = false
  /\ hint_only_flags "" = false
  /\ hint_only_flags "   " = false.
Proof. repeat split; reflexivity. Qed.

(* ================================================================== *)
(** * The probe of the cache entry *)

(** On a path that cannot be opened [file_exists] calls [fclose] on the
    null stream; it returns false where that call returns, and the process
    faults where it does not. *)
Lemma file_exists_missing (path : string) (p : proc) :
  readable (p_os p) path = false ->
  p_log (final (file_exists path p))
  = Ev_fclose true :: Ev_fopen path false :: p_log p
  /\ file_exists path p
     = if os_fclose_null_faults (p_os p)
       then Fault (log (Ev_fclose true) (log (Ev_fopen path false) p))
       else Ok false (log (Ev_fclose true) (log (Ev_fopen path false) p)).
Proof.
  unfold readable, file_exists, bind, fopen, fclose.
  destruct (file_bytes (p_os p) path); [discriminate | intros _].
  cbn [log p_os]. destruct (os_fclose_null_faults (p_os p)); split; reflexivity.
Qed.

Lemma file_exists_present (path : string) (p : proc) :
  readable (p_os p) path = true ->
  file_exists path p
  = Ok true (log (Ev_fclose false) (log (Ev_fopen path true) p)).
Proof.
  unfold readable, file_exists, bind, fopen, fclose.
  destruct (file_bytes (p_os p) path); [intros _ | discriminate].
  reflexivity.
Qed.

(** C9 (the code departs from the claim).  No file exists at [/h/absent]:
    the calls [file_exists] makes are [fopen], which fails, and [fclose] on
    the null stream.  Where the library tolerates that call the function
    returns false; where it does not the process faults. *)
Theorem file_exists_closes_null_stream :
  readable os_sample "/h/absent" = false
  /\ trace (file_exists "/h/absent" (start os_sample [] 0))
     = [Ev_fopen "/h/absent" false; Ev_fclose true]
  /\ (exists p', file_exists "/h/absent" (start os_sample [] 0) = Ok false p')
  /\ (exists p', file_exists "/h/absent" (start os_strict [] 0) = Fault p').
Proof.
  split; [reflexivity |]. split; [reflexivity |].
  split; eexists; vm_compute; reflexivity.
Qed.

(* ================================================================== *)
(** * The hint pattern *)

Module PatternFacts.
Import Pattern.

Lemma span_spec (set : ascii -> bool) (s run s' : string) :
  span set s = (run, s') ->
  s = run ++ s' /\ all set run = true /\ stops set s' = true.
Proof.
  revert run s'. induction s as [|c s IH]; intros run s' E; cbn [span] in E.
  - inversion E; subst. auto.
  - destruct (set c) eqn:Hc.
    + destruct (span set s) as [run0 s0]. inversion E; subst.
      destruct (IH run0 s' eq_refl) as [-> [Hall Hstop]].
      cbn [String.append all]. rewrite Hc, Hall. auto.
    + inversion E; subst. cbn [String.append all stops]. rewrite Hc. auto.
Qed.

Lemma span_run (set : ascii -> bool) (run rest : string) :
  all set run = true -> stops set rest = true ->
  span set (run ++ rest) = (run, rest).
Proof.
  intros Hall Hstop. induction run as [|c run IH]; cbn [String.append].
  - destruct rest as [|d rest]; cbn [span]; [reflexivity|].
    cbn [stops] in Hstop. apply negb_true_iff in Hstop. now rewrite Hstop.
  - cbn [all] in Hall. apply andb_true_iff in Hall as [Hc Hall].
    cbn [span]. rewrite Hc, (IH Hall). reflexivity.
Qed.

Lemma literal_spec (lit s r : string) :
  literal lit s = Some r <-> s = lit ++ r.
Proof.
  revert s. induction lit as [|a lit IH]; intro s; cbn [literal String.append].
  - split; intro H; [now inversion H | now subst].
  - destruct s as [|c s].
    + split; intro H; discriminate.
    + destruct (Ascii.eqb a c) eqn:E.
      * apply Ascii.eqb_eq in E. subst c. rewrite IH.
        split; intro H; [now subst | now inversion H].
      * apply Ascii.eqb_neq in E.
        split; intro H; [discriminate | inversion H; congruence].
Qed.

Lemma literal_append (lit r : string) : literal lit (lit ++ r) = Some r.
Proof. now apply literal_spec. Qed.

(** Completeness on one line: a line made of characters of the first
    bracket expression, the opening mark, a non-empty payload, the closing
    mark and characters of the bracket expression again is matched, with
    the payload as subexpression. *)
Lemma match_here_complete (lead payload trail post : string) :
  all blank_bracket lead = true ->
  payload <> "" ->
  all payload_bracket payload = true ->
  all blank_bracket trail = true ->
  at_eol post = true ->
  match_here (lead ++ "/*!" ++ payload ++ "*/" ++ trail ++ post)
  = Some (String.length lead + 3,
          String.length lead + 3 + String.length payload).
Proof.
  intros Hlead Hne Hpay Htrail Heol. unfold match_here.
  rewrite (span_run blank_bracket lead _ Hlead) by reflexivity.
  rewrite literal_append.
  rewrite (span_run payload_bracket payload _ Hpay) by reflexivity.
  rewrite literal_append.
  destruct payload as [|c payload]; [congruence|].
  rewrite (span_run blank_bracket trail post Htrail).
  - now rewrite Heol.
  - destruct post as [|d post]; [reflexivity|].
    cbn [at_eol] in Heol. apply Ascii.eqb_eq in Heol. now subst d.
Qed.

(** Soundness on one line: whatever is matched has that form. *)
Lemma match_here_sound (s : string) (so eo : nat) :
  match_here s = Some (so, eo) ->
  exists lead payload trail post,
    s = lead ++ "/*!" ++ payload ++ "*/" ++ trail ++ post
    /\ so = String.length lead + 3
    /\ eo = so + String.length payload
    /\ all blank_bracket lead = true
    /\ payload <> ""
    /\ all payload_bracket payload = true
    /\ all blank_bracket trail = true
    /\ at_eol post = true.
Proof.
  unfold match_here.
  destruct (span blank_bracket s) as [lead s1] eqn:E1.
  destruct (literal "/*!" s1) as [s2|] eqn:E2; [|discriminate].
  destruct (span payload_bracket s2) as [payload s3] eqn:E3.
  destruct payload as [|c payload]; [discriminate|].
  destruct (literal "*/" s3) as [s4|] eqn:E4; [|discriminate].
  destruct (span blank_bracket s4) as [trail s5] eqn:E5.
  destruct (at_eol s5) eqn:E6; [|discriminate].
  intro H. inversion H; subst so eo. clear H.
  apply span_spec in E1 as [-> [H1 _]].
  apply literal_spec in E2. subst s1.
  apply span_spec in E3 as [-> [H3 _]].
  apply literal_spec in E4. subst s3.
  apply span_spec in E5 as [-> [H5 _]].
  exists lead, (String c payload), trail, s5.
  repeat split; auto; discriminate.
Qed.

(** *** A match does not look beyond the end of its line *)

Lemma span_before_newline (set : ascii -> bool) (l x : string) :
  set newline = false ->
  span set (l ++ String newline x)
  = (fst (span set l), snd (span set l) ++ String newline x).
Proof.
  intro Hnl. induction l as [|c l IH]; cbn [String.append span].
  - now rewrite Hnl.
  - destruct (set c); [|reflexivity].
    rewrite IH. now destruct (span set l).
Qed.

Lemma literal_before_newline (lit l x : string) :
  mem newline lit = false ->
  literal lit (l ++ String newline x)
  = option_map (fun r => r ++ String newline x) (literal lit l).
Proof.
  revert l. induction lit as [|a lit IH]; intros l Hlit;
    cbn [literal]; [reflexivity|].
  cbn [mem] in Hlit. apply orb_false_iff in Hlit as [Ha Hlit].
  destruct l as [|c l]; cbn [String.append].
  - rewrite Ascii.eqb_sym, Ha. reflexivity.
  - destruct (Ascii.eqb a c); [now apply IH | reflexivity].
Qed.

Lemma at_eol_before_newline (l x y : string) :
  at_eol (l ++ String newline x) = at_eol (l ++ String newline y).
Proof. destruct l; reflexivity. Qed.

Lemma match_here_line (l x y : string) :
  match_here (l ++ String newline x) = match_here (l ++ String newline y).
Proof.
  unfold match_here.
  rewrite !(span_before_newline blank_bracket l) by reflexivity.
  destruct (span blank_bracket l) as [lead s1]. cbn [fst snd].
  rewrite !(literal_before_newline "/*!" s1) by reflexivity.
  destruct (literal "/*!" s1) as [s2|]; cbn [option_map]; [|reflexivity].
  rewrite !(span_before_newline payload_bracket s2) by reflexivity.
  destruct (span payload_bracket s2) as [payload s3]. cbn [fst snd].
  destruct payload as [|c payload]; [reflexivity|].
  rewrite !(literal_before_newline "*/" s3) by reflexivity.
  destruct (literal "*/" s3) as [s4|]; cbn [option_map]; [|reflexivity].
  rewrite !(span_before_newline blank_bracket s4) by reflexivity.
  destruct (span blank_bracket s4) as [trail s5]. cbn [fst snd].
  now rewrite (at_eol_before_newline s5 x y).
Qed.

(** A string with a newline splits at its first newline. *)
Lemma first_newline (s : string) :
  mem newline s = true -> exists l x, s = l ++ String newline x.
Proof.
  induction s as [|c s IH]; cbn [mem]; intro H; [discriminate|].
  destruct (Ascii.eqb newline c) eqn:E.
  - apply Ascii.eqb_eq in E. subst c. now exists "", s.
  - destruct (IH H) as [l [x ->]]. now exists (String c l), x.
Qed.

Lemma match_here_append (s rest : string) :
  mem newline s = true -> match_here (s ++ rest) = match_here s.
Proof.
  intro H. destruct (first_newline s H) as [l [x ->]].
  rewrite append_assoc. cbn [String.append]. apply match_here_line.
Qed.

Lemma complete_lines_newline (c : ascii) (s : string) :
  complete_lines (String c s) = true -> mem newline (String c s) = true.
Proof.
  revert c. induction s as [|d s IH]; intros c H.
  - cbn [complete_lines] in H. cbn [mem]. rewrite Ascii.eqb_sym, H. reflexivity.
  - change (complete_lines (String d s) = true) in H.
    change (Ascii.eqb newline c || mem newline (String d s) = true).
    rewrite (IH d H). apply orb_true_r.
Qed.

(** The search through complete lines that hold no match goes on, at the
    start of a line, in what follows them. *)
Lemma search_append (pre rest : string) (bol : bool) (off : nat) :
  pre <> "" ->
  complete_lines pre = true ->
  search bol off pre = None ->
  search bol off (pre ++ rest) = search true (off + String.length pre) rest.
Proof.
  revert bol off. induction pre as [|c pre IH]; intros bol off Hne Hcl Hno;
    [congruence|].
  cbn [String.append search] in *.
  assert (Hhere : (if bol then match_here (String c (pre ++ rest)) else None)
                  = (if bol then match_here (String c pre) else None)).
  { destruct bol; [|reflexivity].
    apply (match_here_append (String c pre) rest).
    now apply complete_lines_newline. }
  rewrite Hhere.
  destruct (if bol then match_here (String c pre) else None) as [[so eo]|];
    [discriminate|].
  destruct pre as [|d pre].
  - cbn [complete_lines] in Hcl. rewrite Hcl. cbn [String.append String.length].
    now replace (off + 1) with (S off) by lia.
  - rewrite IH; [| discriminate | exact Hcl | exact Hno].
    f_equal. cbn [String.length]. lia.
Qed.

Lemma contains_append_r (sub a b : string) :
  contains sub b = true -> contains sub (a ++ b) = true.
Proof.
  intro H. induction a as [|c a IH]; cbn [String.append]; [exact H|].
  cbn [contains]. rewrite IH. now destruct (literal sub (String c (a ++ b))).
Qed.

(** A match needs the opening mark somewhere in the text. *)
Lemma search_contains (s : string) (bol : bool) (off : nat) (m : nat * nat) :
  search bol off s = Some m -> contains "/*!" s = true.
Proof.
  revert bol off. induction s as [|c s IH]; intros bol off H.
  - cbn [search] in H. destruct bol; [|discriminate].
    now vm_compute in H.
  - cbn [search] in H.
    destruct (if bol then match_here (String c s) else None)
      as [[so eo]|] eqn:E.
    + destruct bol; [|discriminate].
      apply match_here_sound in E
        as [lead [payload [trail [post [Es _]]]]].
      rewrite Es. apply contains_append_r.
      cbn [String.append]. reflexivity.
    + apply IH in H. cbn [contains]. rewrite H.
      now destruct (literal "/*!" (String c s)).
Qed.

End PatternFacts.

(* ================================================================== *)
(** * Extraction of the hint *)

Import Pattern PatternFacts.

(** What [extract_hint] does with a match: a block of [rm_eo - rm_so]
    bytes, the matched text stored from index 0 and a NUL stored at index
    [rm_eo - rm_so]. *)
Lemma extract_hint_matched (sourcecode : string) (so eo : nat) (p : proc) :
  Pattern.regexec sourcecode = Some (so, eo) ->
  malloc_succeeds p ->
  exists p',
    extract_hint sourcecode p
    = Ok (Some (mkBlock (eo - so)
                  (stores_at 0 (strncpy (drop so sourcecode) (eo - so))
                   ++ [(eo - so, NUL)])%list)) p'.
Proof.
  intros Hm Hp. unfold extract_hint. rewrite Hm. unfold bind.
  destruct (malloc_ok (eo - so) p Hp) as [q [E _]]. rewrite E.
  eexists. reflexivity.
Qed.

Lemma extract_hint_unmatched (sourcecode : string) (p : proc) :
  Pattern.regexec sourcecode = None -> extract_hint sourcecode p = Ok None p.
Proof. intro H. unfold extract_hint. now rewrite H. Qed.

(** The block of a hint is one byte short: the terminating NUL is stored at
    the index that equals the size of the block. *)
Lemma extract_hint_block (sourcecode : string) (p p' : proc) (b : block) :
  extract_hint sourcecode p = Ok (Some b) p' ->
  exists so eo,
    Pattern.regexec sourcecode = Some (so, eo)
    /\ blk_size b = eo - so
    /\ In (eo - so, NUL) (blk_stores b).
Proof.
  unfold extract_hint.
  destruct (Pattern.regexec sourcecode) as [[so eo]|]; [|discriminate].
  unfold bind. destruct (malloc (eo - so) p) as [[|] q|q]; cbn [negb];
    unfold ret; intro E; inversion E; subst.
  exists so, eo. cbn [blk_size blk_stores].
  repeat split. apply in_or_app. right. now left.
Qed.

Lemma extract_hint_overruns (sourcecode : string) (p p' : proc) (b : block) :
  extract_hint sourcecode p = Ok (Some b) p' -> ~ in_bounds b.
Proof.
  intros E Hb.
  destruct (extract_hint_block sourcecode p p' b E) as [so [eo [_ [Hsize Hin]]]].
  apply Hb in Hin. lia.
Qed.

Lemma regexec_own_line (pre text post : string) :
  complete_lines pre = true ->
  Pattern.at_eol post = true ->
  text <> "" ->
  all Pattern.payload_bracket text = true ->
  Pattern.regexec pre = None ->
  Pattern.regexec (pre ++ "/*!" ++ text ++ "*/" ++ post)
  = Some (String.length pre + 3, String.length pre + 3 + String.length text).
Proof.
  intros Hpre Hpost Hne Hpay Hno. unfold Pattern.regexec in *.
  assert (Hline : Pattern.match_here ("/*!" ++ text ++ "*/" ++ post)
                  = Some (3, 3 + String.length text)).
  { apply (match_here_complete "" text "" post); auto. }
  assert (Hsearch : forall off,
             Pattern.search true off ("/*!" ++ text ++ "*/" ++ post)
             = Some (off + 3, off + (3 + String.length text))).
  { intro off. change ("/*!" ++ text ++ "*/" ++ post)
      with (String "/" ("*!" ++ text ++ "*/" ++ post)) in *.
    cbn [Pattern.search]. now rewrite Hline. }
  destruct pre as [|c pre].
  - cbn [String.append String.length]. apply Hsearch.
  - rewrite search_append; [| discriminate | exact Hpre | exact Hno].
    rewrite Hsearch. cbn [Nat.add]. f_equal. f_equal. lia.
Qed.

(** C5, as amended.  When a line of the source text is exactly the opening
    mark, a text and the closing mark (the text not empty and free of star,
    backslash, newline and NUL), and no line before it is matched by the
    pattern, [extract_hint] returns the text between the marks as it stands,
    spaces next to the marks included.  A source text in which the opening
    mark does not occur yields no hint. *)
Theorem extract_hint_own_line :
  (forall (pre text post : string) (p : proc),
      complete_lines pre = true ->
      Pattern.at_eol post = true ->
      text <> "" ->
      all Pattern.payload_bracket text = true ->
      mem NUL text = false ->
      Pattern.regexec pre = None ->
      malloc_succeeds p ->
      exists b p',
        extract_hint (pre ++ "/*!" ++ text ++ "*/" ++ post) p = Ok (Some b) p'
        /\ blk_string b = text)
  /\ (forall (sourcecode : string) (p : proc),
         contains "/*!" sourcecode = false ->
         extract_hint sourcecode p = Ok None p).
Proof.
  split.
  - intros pre text post p Hpre Hpost Hne Hpay Hnul Hno Hm.
    pose proof (regexec_own_line pre text post Hpre Hpost Hne Hpay Hno) as Hre.
    destruct (extract_hint_matched _ _ _ p Hre Hm) as [p' E].
    eexists. exists p'. split; [exact E|].
    unfold blk_string. cbn [blk_stores].
    rewrite map_app, string_of_list_ascii_app, string_of_stores.
    replace (String.length pre + 3 + String.length text
             - (String.length pre + 3)) with (String.length text) by lia.
    rewrite drop_add, drop_append.
    change (drop 3 ("/*!" ++ text ++ "*/" ++ post)) with (text ++ "*/" ++ post).
    unfold strncpy. rewrite take_append, Nat.sub_diag.
    cbn [repeat string_of_list_ascii map snd]. rewrite append_nil_r.
    now apply c_str_no_nul.
  - intros sourcecode p H. apply extract_hint_unmatched.
    destruct (Pattern.regexec sourcecode) as [m|] eqn:E; [|reflexivity].
    apply search_contains in E. congruence.
Qed.

Lemma extract_hint_own_line_witness :
  (exists b p',
      extract_hint ("#include <math.h>" ++ nl ++ "/*! -lm */" ++ nl ++ "int x;")
                   (start os_sample [] 0) = Ok (Some b) p'
      /\ blk_string b = " -lm ")
  /\ extract_hint "int main(void) { return 0; }" (start os_sample [] 0)
     = Ok None (start os_sample [] 0).
Proof.
  destruct extract_hint_own_line as [Hhint Hnone]. split.
  - apply (Hhint ("#include <math.h>" ++ nl) " -lm " (nl ++ "int x;")
             (start os_sample [] 0)); try reflexivity.
    discriminate.
  - apply (Hnone "int main(void) { return 0; }" (start os_sample [] 0)).
    reflexivity.
Defined.

(** C5 as stated fails: on the source text whose only line is the comment
    with the payload [-O2] between single spaces, the hint returned is not
    [-O2]; it is the payload with both spaces. *)
Lemma extract_hint_keeps_spaces :
  ~ (exists b p',
        extract_hint "/*! -O2 */" (start os_sample [] 0) = Ok (Some b) p'
        /\ blk_string b = "-O2").
Proof.
  intros [b [p' [E H]]]. vm_compute in E. inversion E; subst b.
  discriminate H.
Qed.

Example extract_hint_O2 :
  exists b p',
    extract_hint "/*! -O2 */" (start os_sample [] 0) = Ok (Some b) p'
    /\ blk_string b = " -O2 ".
Proof.
  eexists. eexists. split; [vm_compute; reflexivity | reflexivity].
Qed.

(** A line with blanks before the comment is not matched: the bracket
    expression before the opening mark holds the characters of the word
    [:blank:], not the blank characters. *)
Lemma extract_hint_leading_blanks :
  extract_hint "  /*! -O2 */" (start os_sample [] 0)
  = Ok None (start os_sample [] 0)
  /\ exists b p',
      extract_hint "blank/*!gcc*/" (start os_sample [] 0) = Ok (Some b) p'
      /\ blk_string b = "gcc".
Proof.
  split; [reflexivity |].
  eexists. eexists. split; [vm_compute; reflexivity | reflexivity].
Qed.

(** C10 (the code departs from the claim).  For the hint of length 5 matched
    in a source text whose only line is the comment with payload [-O2], the
    block allocated has 5 bytes and the terminating NUL is stored at index
    5: the block does not hold 6 bytes and the store is out of bounds. *)
Theorem extract_hint_terminator_out_of_bounds :
  exists b p',
    extract_hint "/*! -O2 */" (start os_sample [] 0) = Ok (Some b) p'
    /\ String.length (blk_string b) = 5
    /\ blk_size b = 5
    /\ In (5, NUL) (blk_stores b)
    /\ ~ in_bounds b.
Proof.
  eexists. eexists. split; [vm_compute; reflexivity |].
  split; [reflexivity |]. split; [reflexivity |].
  assert (Hin : In (5, NUL) [(0, " "%char); (1, "-"%char); (2, "O"%char);
                             (3, "2"%char); (4, " "%char); (5, NUL)]).
  { do 5 right. now left. }
  split; [exact Hin |].
  intro Hb. apply Hb in Hin. cbn in Hin. lia.
Qed.

(* ================================================================== *)
(** * The launcher *)

Lemma launch_cmdline_eq (filename : string) (argv : list string) :
  launch_cmdline filename argv = filename ++ join (map launch_quoted argv).
Proof.
  unfold launch_cmdline. revert filename.
  induction argv as [|a argv IH]; intro filename; cbn [fold_left map join].
  - now rewrite append_nil_r.
  - rewrite IH. unfold strcat, launch_quoted.
    now rewrite !append_assoc.
Qed.

(** The block [launch] allocates is short of the command line and its NUL
    by one byte for each argument and one more. *)
Lemma launch_cmdline_short (filename : string) (argv : list string) :
  launch_cmdline_len filename argv + List.length argv
  = String.length (launch_cmdline filename argv).
Proof.
  unfold launch_cmdline_len, launch_cmdline. revert filename.
  assert (H : forall (n : nat) (s : string),
             n = String.length s ->
             fold_left (fun len arg => len + (3 + strlen arg)) argv n
             + List.length argv
             = String.length
                 (fold_left (fun cmdline arg =>
                               strcat (strcat (strcat cmdline (" " ++ dquote)) arg)
                                      (" " ++ dquote)) argv s)).
  { induction argv as [|a argv IH]; intros n s Hn; cbn [fold_left List.length].
    - lia.
    - rewrite <- (IH (n + (3 + strlen a) + 1)).
      + clear IH. generalize (3 + strlen a). intro k.
        assert (G : forall m,
                   fold_left (fun len arg => len + (3 + strlen arg)) argv (m + 1)
                   = fold_left (fun len arg => len + (3 + strlen arg)) argv m + 1).
        { induction argv as [|b argv IHb]; intro m; cbn [fold_left]; [reflexivity|].
          replace (m + 1 + (3 + strlen b)) with (m + (3 + strlen b) + 1) by lia.
          apply IHb. }
        rewrite G. lia.
      + unfold strcat, strlen. rewrite !length_append. cbn. lia. }
  intro filename. now apply H.
Qed.

(** C6 (the code departs from the claim).  For the artifact [/c/ab] and the
    arguments [x] and [y z], [launch] runs one command and returns the value
    [system] returned, but the command line carries a space before each
    closing quote: the artifact receives [x ] and [y z ], each argument
    with a space appended. *)
Theorem launch_appends_space :
  launch_cmdline "/c/ab" ["x"; "y z"]
  = "/c/ab " ++ dquote ++ "x " ++ dquote ++ " " ++ dquote ++ "y z " ++ dquote
  /\ Shell.words (launch_cmdline "/c/ab" ["x"; "y z"]) = ["/c/ab"; "x "; "y z "]
  /\ Shell.words (launch_cmdline "/c/ab" ["x"; "y z"]) <> ["/c/ab"; "x"; "y z"]
  /\ trace (launch sh_idle "/c/ab" ["x"; "y z"] (start os_sample [] 0))
     = [ Ev_malloc 15 true;
         Ev_system By_launch (launch_cmdline "/c/ab" ["x"; "y z"]) 0;
         Ev_free P_cmdline ].
Proof.
  split; [reflexivity |]. split; [reflexivity |].
  split; [discriminate | reflexivity].
Qed.

(* ================================================================== *)
(** * Reasoning about traces *)

#[local] Hint Constructors grows : core.

Lemma grows_trans (P : event -> Prop) (l0 l1 l2 : list event) :
  grows P l0 l1 -> grows P l1 l2 -> grows P l0 l2.
Proof. intros H01 H12. induction H12; auto. Qed.

Lemma grows_weaken (P Q : event -> Prop) (l0 l : list event) :
  (forall e, P e -> Q e) -> grows P l0 l -> grows Q l0 l.
Proof. intros HPQ H. induction H; auto. Qed.

Lemma grows_in (P : event -> Prop) (l0 l : list event) (e : event) :
  grows P l0 l -> In e l -> In e l0 \/ P e.
Proof.
  intros H. induction H as [|e' l HP H IH]; intro Hin; [now left|].
  destruct Hin as [-> | Hin]; [now right | now apply IH].
Qed.

Lemma count_app (f : event -> bool) (l1 l2 : list event) :
  count f (l1 ++ l2)%list = count f l1 + count f l2.
Proof. induction l1 as [|e l1 IH]; cbn [count app]; [reflexivity | rewrite IH; lia]. Qed.

Lemma count_rev (f : event -> bool) (l : list event) :
  count f (rev l) = count f l.
Proof.
  induction l as [|e l IH]; cbn [rev count]; [reflexivity|].
  rewrite count_app, IH. cbn [count]. lia.
Qed.

Lemma grows_count (P : event -> Prop) (f : event -> bool) (l0 l : list event) :
  (forall e, P e -> f e = false) -> grows P l0 l -> count f l = count f l0.
Proof.
  intros HP H. induction H as [|e l He H IH]; [reflexivity|].
  cbn [count]. now rewrite (HP e He), IH.
Qed.

Lemma quiet_silent (e : event) : quiet e -> silent e.
Proof. now destruct e. Qed.

Lemma quiet_frame (e : event) : quiet e -> frame e.
Proof. destruct e; unfold frame; cbn; intro H; try contradiction; auto. Qed.

Lemma silent_no_compile (e : event) : silent e -> is_compile e = false.
Proof. now destruct e. Qed.

Lemma silent_no_launch (e : event) : silent e -> is_launch e = false.
Proof. now destruct e. Qed.

(* ------------------------------------------------------------------ *)
(** ** What the functions add to the log *)

Lemma mkdir_p_loop_grows (rest done : string) (mode : Z) (p : proc) :
  exists v p',
    mkdir_p_loop done rest mode p = Ok v p'
    /\ grows silent (p_log p) (p_log p')
    /\ p_uninit p' = p_uninit p.
Proof.
  revert done p. induction rest as [|c rest IH]; intros done p;
    cbn [mkdir_p_loop].
  - exists 0%Z, p. unfold ret. auto.
  - destruct (negb (Ascii.eqb c "/")); [apply IH|].
    unfold bind, mkdir, get_errno.
    assert (Hgo : forall q,
               p_log q = Ev_mkdir (done ++ String c "") mode
                           (match p_log q with
                            | Ev_mkdir _ _ z :: _ => z
                            | _ => 0%Z
                            end) :: p_log p ->
               p_uninit q = p_uninit p ->
               exists v p',
                 mkdir_p_loop (done ++ String c "") rest mode q = Ok v p'
                 /\ grows silent (p_log p) (p_log p')
                 /\ p_uninit p' = p_uninit p).
    { intros q Hq Hu. destruct (IH (done ++ String c "") q)
        as [v [p' [E [Hg Hu']]]].
      exists v, p'. split; [exact E|]. split; [|congruence].
      eapply grows_trans; [|exact Hg]. rewrite Hq. constructor; cbn; auto. }
    destruct (dir_exists (p_os p) (done ++ String c "")).
    + cbn [set_errno log p_errno errno_eqb negb andb Z.eqb].
      apply Hgo; reflexivity.
    + destruct (assoc (done ++ String c "") (os_mkdir_error (p_os p)))
        as [e|].
      * cbn [set_errno log p_errno Z.eqb negb andb].
        destruct (negb (errno_eqb e EEXIST) && negb (errno_eqb e EISDIR)).
        -- eexists. eexists. unfold free, emit, ret. cbn.
           split; [reflexivity|]. split; [|reflexivity].
           repeat (constructor; cbn; auto).
        -- apply Hgo; reflexivity.
      * cbn [set_os log p_errno Z.eqb negb andb].
        apply Hgo; reflexivity.
Qed.

Lemma malloc_cases (n : nat) (p : proc) :
  exists b p',
    malloc n p = Ok b p'
    /\ p_log p' = Ev_malloc n b :: p_log p
    /\ p_os p' = p_os p
    /\ p_uninit p' = p_uninit p
    /\ (p_malloc p = [] -> b = true /\ p_malloc p' = []).
Proof.
  unfold malloc. destruct (p_malloc p) as [|b rest] eqn:Em.
  - exists true. eexists. split; [reflexivity|].
    do 3 (split; [reflexivity|]). intros _. split; [reflexivity | exact Em].
  - exists b. eexists. split; [reflexivity|].
    do 3 (split; [reflexivity|]). discriminate.
Qed.

Lemma mkdir_p_grows (dir : string) (mode : Z) (p : proc) :
  exists v p',
    mkdir_p dir mode p = Ok v p'
    /\ grows silent (p_log p) (p_log p')
    /\ p_uninit p' = p_uninit p.
Proof.
  unfold mkdir_p, bind.
  destruct (malloc_cases (strlen dir + 1) p) as [b [q [E [Hl [_ [Hu _]]]]]].
  rewrite E. destruct b; cbn [negb].
  - destruct (mkdir_p_loop_grows dir "" mode q) as [v [p' [E' [Hg Hu']]]].
    exists v, p'. split; [exact E'|]. split; [|congruence].
    eapply grows_trans; [|exact Hg]. rewrite Hl. constructor; cbn; auto.
  - exists 1%Z, q. unfold ret. split; [reflexivity|]. split; [|exact Hu].
    rewrite Hl. constructor; cbn; auto.
Qed.

Lemma extract_hint_grows (sourcecode : string) (p : proc) :
  exists h p',
    extract_hint sourcecode p = Ok h p'
    /\ grows silent (p_log p) (p_log p')
    /\ p_uninit p' = p_uninit p.
Proof.
  unfold extract_hint.
  destruct (Pattern.regexec sourcecode) as [[so eo]|].
  - unfold bind.
    destruct (malloc_cases (eo - so) p) as [b [q [E [Hl [_ [Hu _]]]]]].
    rewrite E. destruct b; cbn [negb]; eexists; eexists; unfold ret;
      (split; [reflexivity|]); (split; [|exact Hu]);
      rewrite Hl; constructor; cbn; auto.
  - exists None, p. unfold ret. auto.
Qed.

Lemma launch_cases (sh : string -> os -> Z * os) (filename : string)
      (argv : list string) (p : proc) :
  (exists p',
      launch sh filename argv p = Ok (false, None) p'
      /\ p_log p' = Ev_malloc (launch_cmdline_len filename argv) false :: p_log p
      /\ p_malloc p <> [])
  \/ (exists p',
         launch sh filename argv p
         = Ok (true, Some (fst (sh (launch_cmdline filename argv) (p_os p)))) p'
         /\ p_log p'
            = ([ Ev_free P_cmdline;
                 Ev_system By_launch (launch_cmdline filename argv)
                   (fst (sh (launch_cmdline filename argv) (p_os p)));
                 Ev_malloc (launch_cmdline_len filename argv) true ]
               ++ p_log p)%list).
Proof.
  unfold launch, bind, malloc.
  destruct (p_malloc p) as [|[|] rest] eqn:Em; cbn [negb].
  - right. unfold system; cbn [log p_os set_os].
    destruct (sh (launch_cmdline filename argv) (p_os p)) as [st o'].
    eexists; split; reflexivity.
  - right. unfold system; cbn [log p_os set_os].
    destruct (sh (launch_cmdline filename argv) (p_os p)) as [st o'].
    eexists; split; reflexivity.
  - left. eexists; repeat split; try reflexivity. discriminate.
Qed.

(* ================================================================== *)
(** * The orchestrator *)

Lemma reaches_refl (P : event -> Prop) (p : proc) : reaches P p p.
Proof. unfold reaches. auto. Qed.

Lemma reaches_trans (P : event -> Prop) (p q r : proc) :
  reaches P p q -> reaches P q r -> reaches P p r.
Proof.
  unfold reaches. intros [O1 [U1 [G1 M1]]] [O2 [U2 [G2 M2]]].
  repeat split; try congruence; [eapply grows_trans; eassumption | auto].
Qed.

Lemma reaches_log (P : event -> Prop) (e : event) (p : proc) :
  P e -> reaches P p (log e p).
Proof. intro H. unfold reaches. cbn. auto. Qed.

Lemma reaches_malloc (P : event -> Prop) (n : nat) (p : proc) :
  (forall b, P (Ev_malloc n b)) ->
  exists b q, malloc n p = Ok b q /\ reaches P p q /\ (p_malloc p = [] -> b = true).
Proof.
  intro HP. destruct (malloc_cases n p) as [b [q [E [L [O [U Hm]]]]]].
  exists b, q. split; [exact E|]. split.
  - unfold reaches. rewrite L. repeat split; auto. intro H. now apply Hm.
  - intro H. now apply Hm.
Qed.

#[local] Hint Resolve reaches_refl reaches_log : core.

(** Solves [reaches P p (log e1 (log e2 ... q))] from [reaches P p q]. *)
Ltac reach :=
  repeat first
    [ eassumption
    | apply reaches_refl
    | eapply reaches_trans; [| apply reaches_log; exact I] ].

Lemma bind_ok {A B : Type} (c : M A) (k : A -> M B) (p p' : proc) (a : A) :
  c p = Ok a p' -> bind c k p = k a p'.
Proof. intro E. unfold bind. now rewrite E. Qed.

Lemma bind_fault {A B : Type} (c : M A) (k : A -> M B) (p p' : proc) :
  c p = Fault p' -> bind c k p = Fault p'.
Proof. intro E. unfold bind. now rewrite E. Qed.

Lemma readfilestr_spec (filename : string) (p : proc) :
  post p (fun source =>
            match source with
            | Some (bytes, len) =>
                file_bytes (p_os p) filename = Some bytes
                /\ len = int_of_long (Z.of_nat (String.length bytes))
            | None => file_bytes (p_os p) filename = None
            end)
       (p_malloc p <> [])
       (readfilestr filename p).
Proof.
  unfold readfilestr. unfold bind at 1. unfold fopen.
  destruct (file_bytes (p_os p) filename) as [bytes|] eqn:Hfile.
  - destruct (reaches_malloc quiet (String.length bytes + 1)
                (log (Ev_fopen filename true) p)) as [b [q [E [R Hb]]]];
      [now cbn|].
    rewrite (bind_ok _ _ _ _ _ E).
    assert (R' : reaches quiet p q).
    { eapply reaches_trans; [|exact R]. now apply reaches_log. }
    destruct b; cbn [negb].
    + unfold bind, fclose, ret, post. cbn [final]. split; [|auto].
      eapply reaches_trans; [exact R'|]. now apply reaches_log.
    + unfold fault, post. cbn [final]. split; [exact R'|].
      intro H. now discriminate (Hb H).
  - unfold ret, post. cbn [final]. split; [|reflexivity]. now apply reaches_log.
Qed.

Lemma source_hash_spec (data : string) (size : Z) (p : proc) :
  post p (fun hash =>
            match hash with
            | Some h => h = SHA1 data (Z.to_nat size)
            | None => p_malloc p <> []
            end)
       False
       (source_hash data size p).
Proof.
  unfold source_hash.
  destruct (reaches_malloc quiet SHA_DIGEST_LENGTH p) as [b [q [E [R Hb]]]];
    [now cbn|].
  rewrite (bind_ok _ _ _ _ _ E).
  destruct b; cbn [negb]; unfold ret, post; cbn [final].
  - auto.
  - split; [exact R|]. intro H. now discriminate (Hb H).
Qed.

Lemma get_cache_path_spec (p : proc) :
  post p (fun cache_path =>
            match cache_path with
            | Some path =>
                exists home,
                  home_dir (p_os p) = Some home /\ path = strcat home path_part
            | None => home_dir (p_os p) = None
            end)
       (p_malloc p <> [])
       (get_cache_path p).
Proof.
  unfold get_cache_path, home_dir. unfold bind at 1. unfold getenv_HOME.
  assert (Hgo : forall h,
             post p (fun cache_path =>
                       match cache_path with
                       | Some path => path = strcat h path_part
                       | None => False
                       end)
                  (p_malloc p <> [])
                  ((ok <- malloc (strlen path_part + strlen h + 1) ;;
                    if negb ok then fault else ret (Some (strcat h path_part))) p)).
  { intro h.
    destruct (reaches_malloc quiet (strlen path_part + strlen h + 1) p)
      as [b [q [E [R Hb]]]]; [now cbn|].
    rewrite (bind_ok _ _ _ _ _ E).
    destruct b; cbn [negb]; unfold ret, fault, post; cbn [final]; [auto|].
    split; [exact R|]. intro H. now discriminate (Hb H). }
  destruct (os_HOME (p_os p)) as [h|].
  - unfold bind at 1, ret at 1. destruct (Hgo h) as [R Hres]. split; [exact R|].
    destruct (bind _ _ p) as [[path|] q|q]; eauto. contradiction.
  - unfold bind at 1, getpwuid_pw_dir.
    destruct (os_pw_dir (p_os p)) as [h|].
    + destruct (Hgo h) as [R Hres]. split; [exact R|].
      destruct (bind _ _ p) as [[path|] q|q]; eauto. contradiction.
    + unfold ret, post. cbn [final]. auto.
Qed.

Lemma get_hash_path_spec (cache_path hash : string) (p : proc) :
  post p (fun out_path =>
            match out_path with
            | Some path => path = strcat cache_path (to_hex hash SHA_DIGEST_LENGTH)
            | None => p_malloc p <> []
            end)
       False
       (get_hash_path cache_path hash p).
Proof.
  unfold get_hash_path.
  destruct (reaches_malloc quiet (SHA_DIGEST_LENGTH * 2 + 1) p)
    as [b [q [E [R Hb]]]]; [now cbn|].
  rewrite (bind_ok _ _ _ _ _ E). destruct b; cbn [negb].
  - destruct (reaches_malloc quiet
                (strlen cache_path + strlen (to_hex hash SHA_DIGEST_LENGTH) + 1) q)
      as [b' [q' [E' [R' Hb']]]]; [now cbn|].
    rewrite (bind_ok _ _ _ _ _ E').
    assert (R2 : reaches quiet p (log (Ev_free P_hash_hex) q')).
    { eapply reaches_trans; [exact R|].
      eapply reaches_trans; [exact R'|]. now apply reaches_log. }
    destruct b'; cbn [negb]; unfold bind, free, emit, ret, post; cbn [final].
    + auto.
    + split; [exact R2|]. intro H.
      destruct R as [_ [_ [_ Hm]]]. now discriminate (Hb' (Hm H)).
  - unfold ret, post. cbn [final]. split; [exact R|].
    intro H. now discriminate (Hb H).
Qed.

Lemma main_cases (sh : string -> os -> Z * os) (prog filename : string)
      (args : list string) (p : proc) :
  main_outcome sh filename args p (main sh (prog :: filename :: args) p).
Proof.
  change (main sh (prog :: filename :: args) p)
    with ((source <- readfilestr filename ;;
           match source with
           | None => printf ("runc: could not read " ++ filename ++ nl) ;; ret 1%Z
           | Some (sourcecode, sourcelen) =>
               hash <- source_hash sourcecode sourcelen ;;
               match hash with
               | None =>
                   printf ("runc: could not compute hash of " ++ filename ++ nl) ;;
                   free P_sourcecode ;; ret 1%Z
               | Some hash =>
                   cache_path <- get_cache_path ;;
                   match cache_path with
                   | None =>
                       printf ("runc: could not get cache path" ++ nl) ;;
                       free P_sourcecode ;; ret 1%Z
                   | Some cache_path =>
                       out_path <- get_hash_path cache_path hash ;;
                       free P_hash ;;
                       match out_path with
                       | None =>
                           printf ("runc: could not generate output file path for "
                                     ++ filename ++ nl) ;;
                           free P_sourcecode ;; free P_cache_path ;; ret 1%Z
                       | Some out_path =>
                           run_entry sh filename sourcecode cache_path out_path args
                       end
                   end
               end
           end) p).
  assert (Hno : forall q, reaches quiet p q -> p_malloc q <> [] ->
                          p_malloc p = [] -> cache_entry (p_os p) filename = None).
  { intros q [_ [_ [_ Hm]]] Hq Hp. now elim Hq; apply Hm. }
  (* readfilestr *)
  destruct (readfilestr_spec filename p) as [R1 H1]. unfold bind at 1.
  destruct (readfilestr filename p) as [[[sourcecode sourcelen]|] q1|q1];
    cbn [final] in R1.
  2:{ right. unfold bind, printf, emit, ret. cbn [final]. split.
      - reach.
      - intros _. unfold cache_entry. now rewrite H1. }
  2:{ right. cbn [final]. split; [exact R1|]. intro H. contradiction. }
  destruct H1 as [Hfile ->].
  (* source_hash *)
  destruct (source_hash_spec sourcecode
              (int_of_long (Z.of_nat (String.length sourcecode))) q1) as [R2 H2].
  unfold bind at 1.
  destruct (source_hash _ _ q1) as [[hash|] q2|q2]; cbn [final] in R2;
    [| | contradiction].
  2:{ right. unfold bind, printf, free, emit, ret. cbn [final]. split.
      - assert (R12 : reaches quiet p q2) by (eapply reaches_trans; eassumption).
        reach.
      - now apply (Hno q1 R1). }
  subst hash.
  assert (R12 : reaches quiet p q2) by (eapply reaches_trans; eassumption).
  (* get_cache_path *)
  destruct (get_cache_path_spec q2) as [R3 H3]. unfold bind at 1.
  destruct (get_cache_path q2) as [[cache_path|] q3|q3]; cbn [final] in R3.
  2:{ right. unfold bind, printf, free, emit, ret. cbn [final]. split.
      - assert (R13 : reaches quiet p q3) by (eapply reaches_trans; eassumption).
        reach.
      - intros _. unfold cache_entry. rewrite Hfile.
        destruct R12 as [O12 _]. now rewrite <- O12, H3. }
  2:{ right. cbn [final]. split; [eapply reaches_trans; eassumption|].
      now apply (Hno q2 R12). }
  destruct H3 as [home [Hhome ->]].
  assert (R13 : reaches quiet p q3) by (eapply reaches_trans; eassumption).
  (* get_hash_path *)
  destruct (get_hash_path_spec (strcat home path_part)
              (SHA1 sourcecode
                 (Z.to_nat (int_of_long (Z.of_nat (String.length sourcecode))))) q3)
    as [R4 H4].
  unfold bind at 1.
  destruct (get_hash_path _ _ q3) as [[out_path|] q4|q4]; cbn [final] in R4;
    [| | contradiction].
  2:{ right. unfold bind, printf, free, emit, ret. cbn [final]. split.
      - assert (R14 : reaches quiet p q4) by (eapply reaches_trans; eassumption).
        reach.
      - now apply (Hno q3 R13). }
  subst out_path.
  left. exists sourcecode, home, (log (Ev_free P_hash) q4).
  split; [exact Hfile|]. split.
  - destruct R12 as [O12 _]. now rewrite <- O12.
  - split; [|reflexivity].
    assert (R14 : reaches quiet p q4) by (eapply reaches_trans; eassumption).
    reach.
Qed.

(* ------------------------------------------------------------------ *)
(** ** From the probe on *)

Lemma run_entry_eq (sh : string -> os -> Z * os)
      (filename sourcecode cache_path out_path : string) (args : list string) :
  run_entry sh filename sourcecode cache_path out_path args
  = (exists_ <- file_exists out_path ;;
     early <- (if negb exists_
               then main_miss sh filename sourcecode cache_path out_path
               else ret None) ;;
     match early with
     | Some status => ret status
     | None => launch_entry sh out_path args
     end).
Proof. reflexivity. Qed.

Lemma launch_entry_cases (sh : string -> os -> Z * os) (out_path : string)
      (args : list string) (p : proc) :
  launch_outcome sh out_path args p (launch_entry sh out_path args p).
Proof.
  unfold launch_entry. unfold bind at 1, free at 1, emit.
  unfold bind at 1, free at 1, emit.
  set (q := log (Ev_free P_cache_path) (log (Ev_free P_sourcecode) p)).
  destruct (launch_cases sh out_path args q)
    as [[p' [E [L Hm]]] | [p' [E L]]];
    rewrite (bind_ok _ _ _ _ _ E); cbn [negb].
  - left. unfold bind, free, printf_freed, emit, ret.
    cbn [exit_status final log p_log]. rewrite L. subst q. cbn [log p_log].
    split; [exact Hm|]. split; [reflexivity|].
    repeat (constructor; [exact I|]). constructor.
  - right. unfold bind, free, emit, stored_or_uninitialised, ret.
    cbn [exit_status final log p_log]. rewrite L. subst q.
    cbn [log p_log p_os app]. auto.
Qed.

Lemma launch_outcome_no_compile (sh : string -> os -> Z * os)
      (out_path : string) (args : list string) (p : proc) (r : res Z) :
  launch_outcome sh out_path args p r ->
  grows frame (p_log p) (p_log (final r)).
Proof.
  intros [[_ [_ G]] | [_ L]].
  - eapply grows_weaken; [apply quiet_frame | exact G].
  - rewrite L. cbn [app]. repeat (constructor; [now split|]). constructor.
Qed.

(** On a hit the run goes from the probe to the launch. *)
Lemma run_entry_hit (sh : string -> os -> Z * os)
      (filename sourcecode cache_path out_path : string) (args : list string)
      (p : proc) :
  readable (p_os p) out_path = true ->
  launch_outcome sh out_path args
    (log (Ev_fclose false) (log (Ev_fopen out_path true) p))
    (run_entry sh filename sourcecode cache_path out_path args p).
Proof.
  intro Hr. rewrite run_entry_eq.
  rewrite (bind_ok _ _ _ _ _ (file_exists_present out_path p Hr)).
  cbn [negb]. unfold bind at 1, ret at 1. apply launch_entry_cases.
Qed.

Lemma main_miss_cases (sh : string -> os -> Z * os)
      (filename sourcecode cache_path out_path : string) (p : proc) :
  miss_outcome filename out_path p
    (main_miss sh filename sourcecode cache_path out_path p).
Proof.
  unfold main_miss.
  destruct (mkdir_p_grows cache_path dir_mode p) as [made [p1 [E1 [G1 _]]]].
  rewrite (bind_ok _ _ _ _ _ E1).
  destruct (negb (made =? 0)%Z).
  { left. unfold bind, printf, free, emit, ret. eexists. eexists.
    split; [reflexivity|]. cbn [log p_log].
    repeat (constructor; [exact I|]). exact G1. }
  destruct (extract_hint_grows (c_str sourcecode) p1) as [hint [p2 [E2 [G2 _]]]].
  rewrite (bind_ok _ _ _ _ _ E2).
  assert (G12 : grows silent (p_log p) (p_log p2))
    by (eapply grows_trans; eassumption).
  destruct (compile_cases sh filename out_path (option_map blk_string hint) p2)
    as [[_ [p3 [E3 [L3 _]]]] | [_ [p3 [E3 [L3 _]]]]];
    rewrite (bind_ok _ _ _ _ _ E3); cbn [negb].
  - (* the command buffer is not allocated *)
    left. unfold stored_or_uninitialised, uninitialised, bind, printf, free,
      emit, ret.
    cbn [log p_uninit].
    destruct (negb (p_uninit p3 =? 0)%Z); eexists; eexists;
      (split; [reflexivity|]); cbn [log p_log]; rewrite L3;
      repeat (constructor; [exact I|]); exact G12.
  - (* the command is run *)
    right.
    exists (option_map blk_string hint),
      (fst (sh (build_command filename out_path (option_map blk_string hint))
               (p_os p2))),
      (Ev_printf (build_command filename out_path (option_map blk_string hint) ++ nl)
         :: Ev_malloc (String.length
                         (build_command filename out_path
                            (option_map blk_string hint)) + 1) true
         :: p_log p2).
    unfold stored_or_uninitialised, bind, free, emit, ret. cbn [log].
    destruct (negb (fst (sh (build_command filename out_path
                               (option_map blk_string hint)) (p_os p2)) =? 0)%Z);
      eexists; (split; [repeat (constructor; [exact I|]); exact G12|]);
      (split; [reflexivity|]); cbn [log p_log]; rewrite L3; cbn [app];
      repeat (constructor; [exact I|]); constructor.
Qed.

Lemma silent_grows_no_compile (l0 l : list event) :
  grows silent l0 l -> grows no_compile l0 l.
Proof. apply grows_weaken. exact silent_no_compile. Qed.

Lemma quiet_grows_silent (l0 l : list event) :
  grows quiet l0 l -> grows silent l0 l.
Proof. apply grows_weaken. exact quiet_silent. Qed.

Lemma frame_grows_no_compile (l0 l : list event) :
  grows frame l0 l -> grows no_compile l0 l.
Proof. apply grows_weaken. now intros e [_ H]. Qed.

Lemma run_shape_lift (C : string -> Prop) (l0 l1 : list event) (r : res Z) :
  grows silent l0 l1 -> run_shape C l1 r -> run_shape C l0 r.
Proof.
  intros G [H | [[cmd [st [l [HC [G1 [Hst [Hex G2]]]]]]] | [cmd [l [HC [G1 G2]]]]]].
  - left. eapply grows_trans; [apply silent_grows_no_compile; exact G | exact H].
  - right. left. exists cmd, st, l. repeat split; auto.
    eapply grows_trans; eassumption.
  - right. right. exists cmd, l. split; [exact HC|].
    split; [eapply grows_trans; eassumption | exact G2].
Qed.

Lemma run_shape_weaken (C D : string -> Prop) (l0 : list event) (r : res Z) :
  (forall cmd, C cmd -> D cmd) -> run_shape C l0 r -> run_shape D l0 r.
Proof.
  intros HCD [H | [[cmd [st [l [HC H]]]] | [cmd [l [HC H]]]]].
  - now left.
  - right. left. exists cmd, st, l. auto.
  - right. right. exists cmd, l. auto.
Qed.

Lemma run_entry_shape (sh : string -> os -> Z * os)
      (filename sourcecode cache_path out_path : string) (args : list string)
      (p : proc) :
  run_shape (builds filename out_path) (p_log p)
    (run_entry sh filename sourcecode cache_path out_path args p).
Proof.
  destruct (readable (p_os p) out_path) eqn:Hr.
  - (* hit *)
    left. pose proof (run_entry_hit sh filename sourcecode cache_path out_path
                        args p Hr) as H.
    apply launch_outcome_no_compile in H. apply frame_grows_no_compile.
    eapply grows_trans; [|exact H]. cbn [log p_log].
    repeat (constructor; [now split|]). constructor.
  - (* miss *)
    rewrite run_entry_eq.
    destruct (file_exists_missing out_path p Hr) as [_ E].
    set (q := log (Ev_fclose true) (log (Ev_fopen out_path false) p)) in *.
    assert (Gq : grows silent (p_log p) (p_log q)).
    { subst q. cbn [log p_log]. repeat (constructor; [exact I|]). constructor. }
    destruct (os_fclose_null_faults (p_os p)).
    + rewrite (bind_fault _ _ _ _ E). left. cbn [final].
      now apply silent_grows_no_compile.
    + rewrite (bind_ok _ _ _ _ _ E). cbn [negb].
      apply (run_shape_lift _ _ (p_log q)); [exact Gq|].
      destruct (main_miss_cases sh filename sourcecode cache_path out_path q)
        as [[v [p' [Em G]]] | [hint [st [l1 [p' [G1 [Em G2]]]]]]];
        rewrite (bind_ok _ _ _ _ _ Em).
      * destruct v as [status|].
        -- left. unfold ret. cbn [final]. now apply silent_grows_no_compile.
        -- left. pose proof (launch_entry_cases sh out_path args p') as H.
           apply launch_outcome_no_compile in H.
           eapply grows_trans; [apply silent_grows_no_compile; exact G|].
           now apply frame_grows_no_compile.
      * assert (HC : builds filename out_path
                       (build_command filename out_path hint))
          by now exists hint.
        destruct (st =? 0)%Z eqn:Est; cbn [negb].
        -- apply Z.eqb_eq in Est. subst st. right. right.
           exists (build_command filename out_path hint), l1.
           split; [exact HC|]. split; [exact G1|].
           pose proof (launch_entry_cases sh out_path args p') as H.
           apply launch_outcome_no_compile in H.
           eapply grows_trans; [apply silent_grows_no_compile; exact G2|].
           now apply frame_grows_no_compile.
        -- apply Z.eqb_neq in Est. right. left.
           exists (build_command filename out_path hint), st, l1.
           unfold ret. cbn [final exit_status]. auto.
Qed.

Lemma main_shape (sh : string -> os -> Z * os) (argv : list string) (p : proc) :
  run_shape (builds_entry argv (p_os p)) (p_log p) (main sh argv p).
Proof.
  destruct argv as [|prog [|filename args]];
    try (left; cbn; constructor; [reflexivity | constructor]).
  destruct (main_cases sh prog filename args p)
    as [[bytes [home [p1 [Hf [Hh [[_ [_ [G _]]] ->]]]]]] | [[_ [_ [G _]]] _]].
  - apply (run_shape_lift _ _ (p_log p1)); [now apply quiet_grows_silent|].
    apply (run_shape_weaken (builds filename (entry_path home bytes)));
      [| apply run_entry_shape].
    intros cmd HC. exists prog, filename, args, (entry_path home bytes).
    split; [reflexivity|]. split; [|exact HC].
    unfold cache_entry. now rewrite Hf, Hh.
  - left. apply silent_grows_no_compile. now apply quiet_grows_silent.
Qed.

Lemma count_in (f : event -> bool) (e : event) (l : list event) :
  In e l -> f e = true -> 1 <= count f l.
Proof.
  induction l as [|x l IH]; intros Hin Hf; [contradiction|].
  cbn [count]. destruct Hin as [-> | Hin]; [rewrite Hf; lia|].
  specialize (IH Hin Hf). lia.
Qed.

(** A run compiles at most once. *)
Lemma compilations_le_1 (sh : string -> os -> Z * os) (argv : list string)
      (o : os) (m : list bool) (u : Z) :
  compilations (main sh argv (start o m u)) <= 1.
Proof.
  unfold compilations, trace. rewrite count_rev.
  destruct (main_shape sh argv (start o m u))
    as [H | [[cmd [st [l [_ [G1 [_ [_ G2]]]]]]] | [cmd [l [_ [G1 G2]]]]]];
    cbn [start p_log] in *.
  - rewrite (grows_count no_compile is_compile _ _ (fun e H => H) H). cbn. lia.
  - rewrite (grows_count silent is_compile _ _ silent_no_compile G2).
    cbn [count is_compile].
    rewrite (grows_count silent is_compile _ _ silent_no_compile G1). cbn. lia.
  - rewrite (grows_count no_compile is_compile _ _ (fun e H => H) G2).
    cbn [count is_compile].
    rewrite (grows_count silent is_compile _ _ silent_no_compile G1). cbn. lia.
Qed.

(** What a run compiles is the build command for its source file, with the
    cache entry of the source file as output. *)
Lemma compile_event_command (sh : string -> os -> Z * os) (argv : list string)
      (o : os) (m : list bool) (u : Z) (cmd : string) (st : Z) :
  In (Ev_system By_compile cmd st) (trace (main sh argv (start o m u))) ->
  builds_entry argv o cmd.
Proof.
  intro Hin. unfold trace in Hin. apply in_rev in Hin.
  assert (Hl1 : forall l1 e, grows silent [] l1 -> In e l1 -> silent e).
  { intros l1 e G He. now destruct (grows_in _ _ _ _ G He) as [[] | H]. }
  destruct (main_shape sh argv (start o m u))
    as [H | [[cmd' [st' [l1 [HC [G1 [_ [_ G2]]]]]]] | [cmd' [l1 [HC [G1 G2]]]]]];
    cbn [start p_log p_os] in *.
  - destruct (grows_in _ _ _ _ H Hin) as [[] | Hn]. discriminate Hn.
  - destruct (grows_in _ _ _ _ G2 Hin) as [[Heq | Hin1] | []].
    + inversion Heq; subst. exact HC.
    + now elim (Hl1 l1 _ G1 Hin1).
  - destruct (grows_in _ _ _ _ G2 Hin) as [[Heq | Hin1] | Hn].
    + inversion Heq; subst. exact HC.
    + now elim (Hl1 l1 _ G1 Hin1).
    + discriminate Hn.
Qed.

(** On a hit the run neither compiles nor creates a directory; and when no
    allocation fails it goes from the probe to the launch of the entry and
    ends with the status of the launch. *)
Lemma main_hit (sh : string -> os -> Z * os) (prog filename : string)
      (args : list string) (o : os) (m : list bool) (u : Z) (path : string) :
  cache_entry o filename = Some path ->
  readable o path = true ->
  grows frame [] (p_log (final (main sh (prog :: filename :: args) (start o m u))))
  /\ (m = [] ->
      exit_status (main sh (prog :: filename :: args) (start o m u))
      = Some (fst (sh (launch_cmdline path args) o))
      /\ exists before,
          trace (main sh (prog :: filename :: args) (start o m u))
          = (before
             ++ hit_calls path args (fst (sh (launch_cmdline path args) o)))%list
          /\ forall e, In e before -> quiet e).
Proof.
  intros Hentry Hread.
  destruct (main_cases sh prog filename args (start o m u))
    as [[bytes [home [p1 [Hf [Hh [[O1 [_ [G M1]]] E]]]]]] | [[_ [_ [G _]]] Hnone]];
    cbn [start p_os p_malloc p_log] in *.
  - assert (path = entry_path home bytes).
    { unfold cache_entry in Hentry. rewrite Hf, Hh in Hentry. congruence. }
    subst path. rewrite E.
    assert (Hread1 : readable (p_os p1) (entry_path home bytes) = true)
      by now rewrite O1.
    pose proof (run_entry_hit sh filename bytes (strcat home path_part)
                  (entry_path home bytes) args p1 Hread1) as H.
    split.
    + apply launch_outcome_no_compile in H.
      eapply grows_trans; [|exact H]. cbn [log p_log].
      repeat (constructor; [now split|]).
      eapply grows_weaken; [apply quiet_frame | exact G].
    + intro Hm. destruct H as [[Hne _] | [Hex L]].
      * cbn [log p_malloc] in Hne. now elim Hne; apply M1.
      * cbn [log p_os] in Hex, L. rewrite O1 in Hex, L. split; [exact Hex|].
        exists (rev (p_log p1)). split.
        -- unfold trace. rewrite L. cbn [log p_log app rev].
           rewrite <- !app_assoc. reflexivity.
        -- intros e He. apply in_rev in He.
           now destruct (grows_in _ _ _ _ G He) as [[] | Hq].
  - split.
    + eapply grows_weaken; [apply quiet_frame | exact G].
    + intro Hm. rewrite (Hnone Hm) in Hentry. discriminate.
Qed.

(* ================================================================== *)
(** * Hits, misses and failed builds *)

(** C1.  In a run of [main] on a source file whose cache entry is a
    readable file, no directory is created and nothing is compiled; when no
    allocation fails, the calls from the probe on are those of the launch of
    the entry, preceded only by calls that run no command and create no
    directory, and the run ends with the status of the launch.  A run that
    creates a directory or compiles started with an entry that was not
    readable, and what it compiles is the build command whose output is that
    entry.  Hence two runs on an unchanged source file, the first of which
    compiled with success and the second of which finds the entry in place,
    compile once in all. *)
Theorem cache_hit_skips_compile :
  forall (sh : string -> os -> Z * os) (prog filename : string)
         (args : list string) (o : os) (m : list bool) (u : Z),
    let r := main sh (prog :: filename :: args) (start o m u) in
    (forall path,
        cache_entry o filename = Some path ->
        readable o path = true ->
        (forall e, In e (trace r) -> is_mkdir e = false /\ is_compile e = false)
        /\ (m = [] ->
            exit_status r = Some (fst (sh (launch_cmdline path args) o))
            /\ exists before,
                trace r
                = (before
                   ++ hit_calls path args (fst (sh (launch_cmdline path args) o)))%list
                /\ forall e, In e before -> quiet e))
    /\ (forall e,
           In e (trace r) ->
           is_mkdir e = true \/ is_compile e = true ->
           exists path, cache_entry o filename = Some path /\ readable o path = false)
    /\ (forall cmd st,
           In (Ev_system By_compile cmd st) (trace r) ->
           exists path hint,
             cache_entry o filename = Some path
             /\ cmd = build_command filename path hint)
    /\ (forall path cmd o2 m2 u2,
           let r2 := main sh (prog :: filename :: args) (start o2 m2 u2) in
           cache_entry o filename = Some path ->
           In (Ev_system By_compile cmd 0) (trace r) ->
           file_bytes o2 filename = file_bytes o filename ->
           home_dir o2 = home_dir o ->
           readable o2 path = true ->
           compilations r + compilations r2 = 1).
Proof.
  intros sh prog filename args o m u r.
  assert (Hhit : forall o' m' u' path,
             cache_entry o' filename = Some path ->
             readable o' path = true ->
             forall e,
               In e (trace (main sh (prog :: filename :: args) (start o' m' u'))) ->
               frame e).
  { intros o' m' u' path He Hr e Hin.
    destruct (main_hit sh prog filename args o' m' u' path He Hr) as [G _].
    unfold trace in Hin. apply in_rev in Hin.
    destruct (grows_in _ _ _ _ G Hin) as [[] | H]. exact H. }
  split; [|split; [|split]].
  - intros path He Hr. split.
    + intros e Hin. exact (Hhit o m u path He Hr e Hin).
    + intro Hm.
      destruct (main_hit sh prog filename args o m u path He Hr) as [_ H].
      exact (H Hm).
  - intros e Hin Hev.
    destruct (cache_entry o filename) as [path|] eqn:He.
    + exists path. split; [reflexivity|].
      destruct (readable o path) eqn:Hr; [|reflexivity].
      destruct (Hhit o m u path He Hr e Hin) as [H1 H2].
      destruct Hev; congruence.
    + exfalso.
      destruct (main_cases sh prog filename args (start o m u))
        as [[bytes [home [p1 [Hf [Hh _]]]]] | [[_ [_ [G _]]] _]];
        cbn [start p_os p_log] in *.
      * unfold cache_entry in He. now rewrite Hf, Hh in He.
      * unfold trace in Hin. apply in_rev in Hin.
        destruct (grows_in _ _ _ _ G Hin) as [[] | H].
        apply quiet_frame in H. destruct H. destruct Hev; congruence.
  - intros cmd st Hin.
    destruct (compile_event_command sh _ o m u cmd st Hin)
      as [prog' [filename' [args' [path [Hargv [He [hint ->]]]]]]].
    inversion Hargv; subst. now exists path, hint.
  - intros path cmd o2 m2 u2 r2 He Hin Hsrc Hhome Hr2.
    assert (He2 : cache_entry o2 filename = Some path).
    { unfold cache_entry in *. now rewrite Hsrc, Hhome. }
    assert (H1 : compilations r = 1).
    { pose proof (compilations_le_1 sh (prog :: filename :: args) o m u) as Hle.
      pose proof (count_in is_compile _ _ Hin eq_refl) as Hge.
      fold r in Hle. unfold compilations in *. lia. }
    assert (H2 : compilations r2 = 0).
    { unfold compilations.
      assert (Hall : forall l, (forall e, In e l -> frame e) -> count is_compile l = 0).
      { induction l as [|e l IH]; intro H; [reflexivity|].
        cbn [count]. destruct (H e (or_introl eq_refl)) as [_ ->].
        apply IH. intros e' He'. apply H. now right. }
      apply Hall. exact (Hhit o2 m2 u2 path He2 Hr2). }
    lia.
Qed.

(** A run of [main] in which [system] returned a value other than 0 for
    the build command ends with that value as the value of [main], and
    launches nothing. *)
Lemma main_returns_build_value :
  forall (sh : string -> os -> Z * os) (argv : list string) (o : os)
         (m : list bool) (u : Z) (cmd : string) (st : Z),
    let r := main sh argv (start o m u) in
    In (Ev_system By_compile cmd st) (trace r) ->
    st <> 0%Z ->
    exit_status r = Some st
    /\ (forall e, In e (trace r) -> is_launch e = false).
Proof.
  intros sh argv o m u cmd st r Hin Hst.
  unfold trace in Hin. apply in_rev in Hin.
  assert (Hl1 : forall l1 e, grows silent [] l1 -> In e l1 -> silent e).
  { intros l1 e G He. now destruct (grows_in _ _ _ _ G He) as [[] | H]. }
  destruct (main_shape sh argv (start o m u))
    as [H | [[cmd' [st' [l1 [_ [G1 [_ [Hex G2]]]]]]] | [cmd' [l1 [_ [G1 G2]]]]]];
    cbn [start p_log] in *; fold r in Hin |- *.
  - destruct (grows_in _ _ _ _ H Hin) as [[] | Hn]. discriminate Hn.
  - destruct (grows_in _ _ _ _ G2 Hin) as [[Heq | Hin1] | []].
    + inversion Heq; subst cmd' st'. split; [exact Hex|].
      intros e He. unfold trace in He. apply in_rev in He.
      destruct (grows_in _ _ _ _ G2 He) as [[<- | He1] | Hs].
      * reflexivity.
      * apply silent_no_launch. exact (Hl1 l1 e G1 He1).
      * now apply silent_no_launch.
    + now elim (Hl1 l1 _ G1 Hin1).
  - destruct (grows_in _ _ _ _ G2 Hin) as [[Heq | Hin1] | Hn].
    + inversion Heq. congruence.
    + now elim (Hl1 l1 _ G1 Hin1).
    + discriminate Hn.
Qed.

(* ------------------------------------------------------------------ *)
(** ** Sample runs *)

Ltac in_list := repeat first [left; reflexivity | right].

Lemma cache_hit_skips_compile_witness :
  (cache_entry os_cached "a.c" = Some entry_sample
   /\ readable os_cached entry_sample = true
   /\ (forall e,
          In e (trace (main sh_idle ["runc"; "a.c"; "x"] (start os_cached [] 0))) ->
          is_mkdir e = false /\ is_compile e = false)
   /\ exit_status (main sh_idle ["runc"; "a.c"; "x"] (start os_cached [] 0))
      = Some (fst (sh_idle (launch_cmdline entry_sample ["x"]) os_cached)))
  /\ (exists path,
         cache_entry os_sample "a.c" = Some path /\ readable os_sample path = false)
  /\ (exists path hint,
         cache_entry os_sample "a.c" = Some path
         /\ build_command "a.c" entry_sample None = build_command "a.c" path hint)
  /\ compilations (main sh_cc ["runc"; "a.c"] (start os_sample [] 0))
     + compilations
         (main sh_cc ["runc"; "a.c"]
            (start (p_os (final (main sh_cc ["runc"; "a.c"] (start os_sample [] 0))))
                   [] 0))
     = 1.
Proof.
  split; [|split; [|split]].
  - destruct (cache_hit_skips_compile sh_idle "runc" "a.c" ["x"] os_cached [] 0)
      as [Hhit _].
    assert (He : cache_entry os_cached "a.c" = Some entry_sample)
      by (vm_compute; reflexivity).
    assert (Hr : readable os_cached entry_sample = true)
      by (vm_compute; reflexivity).
    destruct (Hhit entry_sample He Hr) as [Hframe Hlaunch].
    destruct (Hlaunch eq_refl) as [Hex _].
    split; [exact He|]. split; [exact Hr|]. split; [exact Hframe | exact Hex].
  - destruct (cache_hit_skips_compile sh_idle "runc" "a.c" [] os_sample [] 0)
      as [_ [Hmiss _]].
    apply (Hmiss (Ev_mkdir "/h/.runc/" dir_mode 0)).
    + vm_compute. in_list.
    + left. reflexivity.
  - destruct (cache_hit_skips_compile sh_cc "runc" "a.c" [] os_sample [] 0)
      as [_ [_ [Hcmd _]]].
    apply (Hcmd (build_command "a.c" entry_sample None) 0%Z).
    vm_compute. in_list.
  - destruct (cache_hit_skips_compile sh_cc "runc" "a.c" [] os_sample [] 0)
      as [_ [_ [_ Htwice]]].
    apply (Htwice entry_sample (build_command "a.c" entry_sample None)
             (p_os (final (main sh_cc ["runc"; "a.c"] (start os_sample [] 0))))
             [] 0%Z).
    + vm_compute. reflexivity.
    + vm_compute. in_list.
    + vm_compute. reflexivity.
    + vm_compute. reflexivity.
    + vm_compute. reflexivity.
Defined.

(** C7 (the code departs from the claim).  [system] returns the wait status
    of the build command, which holds the exit status of the compiler in
    bits 8 to 15, and [main] returns that value as it is.  When the compiler
    exits with a status from 1 to 255, [main] launches nothing, as the claim
    says, and returns 256 times that status; but the status of the process,
    the low eight bits of that value, is 0 and not the status of the
    compiler. *)
Theorem compile_failure_status_lost :
  forall (sh : string -> os -> Z * os) (argv : list string) (o : os)
         (m : list bool) (u : Z) (cmd : string) (code : Z),
    let r := main sh argv (start o m u) in
    (0 < code < 256)%Z ->
    In (Ev_system By_compile cmd (W_EXITCODE code)) (trace r) ->
    exit_status r = Some (256 * code)%Z
    /\ option_map process_status (exit_status r) = Some 0%Z
    /\ option_map process_status (exit_status r) <> Some code
    /\ (forall e, In e (trace r) -> is_launch e = false).
Proof.
  intros sh argv o m u cmd code r Hcode Hin.
  assert (Hw : W_EXITCODE code = (256 * code)%Z).
  { unfold W_EXITCODE. rewrite Z.shiftl_mul_pow2 by lia.
    change (2 ^ 8)%Z with 256%Z. lia. }
  assert (Hst : W_EXITCODE code <> 0%Z) by lia.
  destruct (main_returns_build_value sh argv o m u cmd (W_EXITCODE code) Hin Hst)
    as [Hex Hno].
  fold r in Hex, Hno. rewrite Hw in Hex. rewrite Hex.
  assert (Hp : process_status (256 * code) = 0%Z).
  { unfold process_status. change 255%Z with (Z.ones 8).
    rewrite Z.land_ones by lia. change (2 ^ 8)%Z with 256%Z.
    rewrite Z.mul_comm. apply Z.mod_mul. lia. }
  cbn [option_map]. rewrite Hp.
  split; [reflexivity|]. split; [reflexivity|].
  split; [|exact Hno].
  intro H. inversion H. lia.
Qed.

Lemma compile_failure_status_lost_witness :
  (0 < 1 < 256)%Z
  /\ In (Ev_system By_compile (build_command "a.c" entry_sample None)
           (W_EXITCODE 1))
        (trace (main sh_failing ["runc"; "a.c"] (start os_sample [] 0)))
  /\ exit_status (main sh_failing ["runc"; "a.c"] (start os_sample [] 0))
     = Some 256%Z
  /\ option_map process_status
       (exit_status (main sh_failing ["runc"; "a.c"] (start os_sample [] 0)))
     = Some 0%Z
  /\ option_map process_status
       (exit_status (main sh_failing ["runc"; "a.c"] (start os_sample [] 0)))
     <> Some 1%Z
  /\ (forall e,
         In e (trace (main sh_failing ["runc"; "a.c"] (start os_sample [] 0))) ->
         is_launch e = false).
Proof.
  assert (Hcode : (0 < 1 < 256)%Z) by lia.
  assert (Hin : In (Ev_system By_compile (build_command "a.c" entry_sample None)
                      (W_EXITCODE 1))
                   (trace (main sh_failing ["runc"; "a.c"] (start os_sample [] 0))))
    by (vm_compute; in_list).
  split; [exact Hcode|]. split; [exact Hin|].
  exact (compile_failure_status_lost sh_failing ["runc"; "a.c"] os_sample [] 0
           (build_command "a.c" entry_sample None) 1 Hcode Hin).
Defined.

(** C8 (the code departs from the claim).  On a miss in which [compile]
    cannot allocate its command buffer, [main] prints its diagnostic and
    frees its three blocks, but does not return.  Whatever value the status
    that was never stored holds, the next call of the run is
    [free(sourcecode)] a second time: the one of the block that tests the
    status when the value is not 0, the one before the launch when it is.
    No command has run by then and the source text had not been released
    before the diagnostic.  From the second [free] on the program has no
    defined behaviour; nothing is stated about the calls after it. *)
Theorem main_goes_on_after_failed_compile :
  forall u : Z,
    let mallocs := [true; true; true; true; true; true; false] in
    let r := main sh_idle ["runc"; "a.c"] (start os_sample mallocs u) in
    readable os_sample entry_sample = false
    /\ exists before after,
        trace r
        = (before
           ++ [ Ev_printf ("runc: error compiling a.c to " ++ entry_sample ++ nl);
                Ev_free P_sourcecode; Ev_free P_cache_path; Ev_free P_out_path;
                Ev_free P_sourcecode ]
           ++ after)%list
        /\ (forall e, In e before -> silent e /\ e <> Ev_free P_sourcecode)
        /\ In (Ev_malloc
                 (String.length (build_command "a.c" entry_sample None) + 1) false)
              before.
Proof.
  intro u. cbv zeta.
  split; [vm_compute; reflexivity|].
  set (r := main sh_idle ["runc"; "a.c"]
              (start os_sample [true; true; true; true; true; true; false] u)).
  exists (firstn 18 (trace r)), (skipn 23 (trace r)).
  assert (Hbefore : forall e,
             In e (firstn 18 (trace r)) -> silent e /\ e <> Ev_free P_sourcecode).
  { intros e He. subst r.
    destruct u as [|q|q]; vm_compute in He;
      repeat (destruct He as [<- | He]; [split; [exact I | discriminate]|]);
      destruct He. }
  split; [|split; [exact Hbefore|]].
  - subst r. destruct u as [|q|q]; vm_compute; reflexivity.
  - subst r. destruct u as [|q|q]; vm_compute; in_list.
Qed.

(* ================================================================== *)
(** * Further properties of the functions *)

(* ------------------------------------------------------------------ *)
(** ** [to_hex] and the path of an entry *)

Lemma hex_digit_lower (n : nat) : n < 16 -> is_lower_hex (hex_digit n) = true.
Proof.
  intro H. do 16 (destruct n as [|n]; [reflexivity|]). lia.
Qed.

Lemma hex_value_digit (n : nat) : n < 16 -> hex_value (hex_digit n) = n.
Proof.
  intro H. do 16 (destruct n as [|n]; [reflexivity|]). lia.
Qed.

Lemma nat_of_ascii_lt (b : ascii) : nat_of_ascii b < 256.
Proof. apply nat_ascii_bounded. Qed.

Lemma of_hex_02x (b : ascii) (rest : string) :
  of_hex (sprintf_02x b ++ rest) = String b (of_hex rest).
Proof.
  unfold sprintf_02x. cbn [String.append of_hex].
  pose proof (nat_of_ascii_lt b) as Hb.
  rewrite !hex_value_digit.
  - rewrite <- (Nat.div_mod_eq (nat_of_ascii b) 16).
    now rewrite ascii_nat_embedding.
  - apply Nat.mod_upper_bound. discriminate.
  - apply Nat.Div0.div_lt_upper_bound. lia.
Qed.

Lemma sprintf_02x_lower (b : ascii) : all is_lower_hex (sprintf_02x b) = true.
Proof.
  unfold sprintf_02x. cbn [all]. pose proof (nat_of_ascii_lt b) as Hb.
  rewrite !hex_digit_lower; [reflexivity | |].
  - apply Nat.mod_upper_bound. discriminate.
  - apply Nat.Div0.div_lt_upper_bound. lia.
Qed.

Lemma all_append (f : ascii -> bool) (a b : string) :
  all f (a ++ b) = all f a && all f b.
Proof.
  induction a as [|x a IH]; cbn [String.append all]; [reflexivity|].
  now rewrite IH, andb_assoc.
Qed.

Lemma take_length (s : string) : take (String.length s) s = s.
Proof. induction s as [|c s IH]; cbn; [reflexivity | now rewrite IH]. Qed.

Lemma append_inv_l (a x y : string) : a ++ x = a ++ y -> x = y.
Proof.
  induction a as [|c a IH]; cbn [String.append]; intro H; [exact H|].
  inversion H. now apply IH.
Qed.

Lemma to_hex_length (data : string) (n : nat) :
  n <= String.length data -> String.length (to_hex data n) = 2 * n.
Proof.
  revert data. induction n as [|n IH]; intros data Hn.
  - now destruct data.
  - destruct data as [|b data]; cbn [String.length] in Hn; [lia|].
    cbn [to_hex]. rewrite length_append, IH by lia. cbn. lia.
Qed.

Lemma to_hex_lower (data : string) (n : nat) :
  all is_lower_hex (to_hex data n) = true.
Proof.
  revert data. induction n as [|n IH]; intro data.
  - now destruct data.
  - destruct data as [|b data]; [reflexivity|].
    cbn [to_hex]. now rewrite all_append, sprintf_02x_lower, IH.
Qed.

Lemma to_hex_inj (n : nat) (d1 d2 : string) :
  String.length d1 = n -> String.length d2 = n ->
  to_hex d1 n = to_hex d2 n -> d1 = d2.
Proof.
  revert d1 d2. induction n as [|n IH]; intros d1 d2 L1 L2 E.
  - destruct d1, d2; try discriminate. reflexivity.
  - destruct d1 as [|b1 d1], d2 as [|b2 d2]; try discriminate.
    cbn [to_hex] in E. pose proof (f_equal of_hex E) as Eb.
    rewrite !of_hex_02x in Eb. inversion Eb; subst b2.
    apply append_inv_l in E. f_equal.
    apply IH; cbn [String.length] in *; congruence.
Qed.

(** X1.  [to_hex] writes two lowercase hexadecimal digits for each byte:
    for [n] bytes that are there, the result has [2 * n] characters, all of
    them among 0-9 and a-f. *)
Theorem to_hex_digits :
  forall (data : string) (n : nat),
    n <= String.length data ->
    String.length (to_hex data n) = 2 * n
    /\ all is_lower_hex (to_hex data n) = true.
Proof.
  intros data n Hn. split.
  - now apply to_hex_length.
  - apply to_hex_lower.
Qed.

Lemma to_hex_digits_witness :
  3 <= String.length "abc"
  /\ String.length (to_hex "abc" 3) = 2 * 3
  /\ all is_lower_hex (to_hex "abc" 3) = true.
Proof.
  split; [cbn; lia|].
  apply (to_hex_digits "abc" 3). cbn. lia.
Defined.

(** X2.  The rendering loses nothing: reading the digit pairs of
    [to_hex data n] back gives the [n] bytes rendered. *)
Theorem of_hex_to_hex :
  forall (data : string) (n : nat),
    n <= String.length data ->
    of_hex (to_hex data n) = take n data.
Proof.
  intros data n. revert data.
  induction n as [|n IH]; intros data Hn.
  - destruct data; reflexivity.
  - destruct data as [|b data]; cbn [String.length] in Hn; [lia|].
    cbn [to_hex take]. rewrite of_hex_02x, IH; [reflexivity | lia].
Qed.

Lemma of_hex_to_hex_witness :
  2 <= String.length "abc" /\ of_hex (to_hex "abc" 2) = take 2 "abc".
Proof.
  split; [cbn; lia|].
  apply (of_hex_to_hex "abc" 2). cbn. lia.
Defined.

(** X3.  Given a fingerprint of 20 bytes and allocations that succeed,
    [get_hash_path] returns the cache path followed by 40 lowercase
    hexadecimal digits; the two blocks it allocates hold exactly the digits
    and the path with their NULs, and the block of the digits is freed. *)
Theorem get_hash_path_entry :
  forall (cache_path hash : string) (o : os) (u : Z),
    String.length hash = SHA_DIGEST_LENGTH ->
    let r := get_hash_path cache_path hash (start o [] u) in
    let path := cache_path ++ to_hex hash SHA_DIGEST_LENGTH in
    (exists p', r = Ok (Some path) p')
    /\ String.length (to_hex hash SHA_DIGEST_LENGTH) = 40
    /\ all is_lower_hex (to_hex hash SHA_DIGEST_LENGTH) = true
    /\ trace r
       = [ Ev_malloc (String.length (to_hex hash SHA_DIGEST_LENGTH) + 1) true;
           Ev_malloc (String.length path + 1) true;
           Ev_free P_hash_hex ].
Proof.
  intros cache_path hash o u Hlen r path.
  assert (H40 : String.length (to_hex hash SHA_DIGEST_LENGTH) = 40)
    by (rewrite to_hex_length; [reflexivity | rewrite Hlen; lia]).
  split; [|split; [exact H40 | split; [apply to_hex_lower|]]];
    subst r path; unfold get_hash_path, bind, malloc, free, emit, ret;
    cbn [start p_malloc negb final p_log log trace rev app].
  - eexists. reflexivity.
  - unfold strlen, strcat. rewrite length_append, H40. reflexivity.
Qed.

Lemma get_hash_path_entry_witness :
  String.length (SHA1 "abc" 3) = SHA_DIGEST_LENGTH
  /\ exists p',
      get_hash_path "/h/.runc/cache/" (SHA1 "abc" 3) (start os_sample [] 0)
      = Ok (Some ("/h/.runc/cache/" ++ to_hex (SHA1 "abc" 3) SHA_DIGEST_LENGTH)) p'.
Proof.
  split; [apply SHA1_length|].
  destruct (get_hash_path_entry "/h/.runc/cache/" (SHA1 "abc" 3) os_sample 0
              (SHA1_length "abc" 3)) as [[p' H] _].
  exists p'. exact H.
Defined.

(** X4.  Under one cache path, two fingerprints of 20 bytes are given the
    same entry path only if they are the same fingerprint. *)
Theorem get_hash_path_injective :
  forall (cache_path h1 h2 path : string) (p1 p2 p1' p2' : proc),
    String.length h1 = SHA_DIGEST_LENGTH ->
    String.length h2 = SHA_DIGEST_LENGTH ->
    get_hash_path cache_path h1 p1 = Ok (Some path) p1' ->
    get_hash_path cache_path h2 p2 = Ok (Some path) p2' ->
    h1 = h2.
Proof.
  intros cache_path h1 h2 path p1 p2 p1' p2' L1 L2 E1 E2.
  destruct (get_hash_path_spec cache_path h1 p1) as [_ H1].
  destruct (get_hash_path_spec cache_path h2 p2) as [_ H2].
  rewrite E1 in H1. rewrite E2 in H2. rewrite H1 in H2.
  unfold strcat in H2. apply append_inv_l in H2.
  now apply (to_hex_inj SHA_DIGEST_LENGTH).
Qed.

Lemma get_hash_path_injective_witness :
  SHA1 "abc" 3 = SHA1 "abcd" 3.
Proof.
  assert (E : exists p',
             get_hash_path "/c/" (SHA1 "abc" 3) (start os_sample [] 0)
             = Ok (Some ("/c/" ++ to_hex (SHA1 "abc" 3) SHA_DIGEST_LENGTH)) p')
    by (eexists; vm_compute; reflexivity).
  assert (E' : exists p',
             get_hash_path "/c/" (SHA1 "abcd" 3) (start os_sample [] 7)
             = Ok (Some ("/c/" ++ to_hex (SHA1 "abc" 3) SHA_DIGEST_LENGTH)) p')
    by (eexists; vm_compute; reflexivity).
  destruct E as [p1' E]. destruct E' as [p2' E'].
  exact (get_hash_path_injective "/c/" (SHA1 "abc" 3) (SHA1 "abcd" 3) _
           (start os_sample [] 0) (start os_sample [] 7) p1' p2'
           (SHA1_length "abc" 3) (SHA1_length "abcd" 3) E E').
Defined.

(* ------------------------------------------------------------------ *)
(** ** [mkdir_p] *)

Lemma ends_with_snoc (c : ascii) (s : string) :
  ends_with c (s ++ String c "") = true.
Proof.
  induction s as [|x s IH]; cbn [String.append ends_with].
  - apply Ascii.eqb_refl.
  - destruct s; exact IH.
Qed.

Lemma ends_with_cons (c x : ascii) (s : string) :
  s <> "" -> ends_with c (String x s) = ends_with c s.
Proof. destruct s; [congruence | reflexivity]. Qed.

Lemma append_snoc (done : string) (c : ascii) (a : string) :
  (done ++ String c "") ++ a = done ++ String c a.
Proof. now rewrite append_assoc. Qed.

Lemma same_but_dirs_refl (o : os) : same_but_dirs o o.
Proof. unfold same_but_dirs. auto 10. Qed.

Lemma same_but_dirs_trans (o1 o2 o3 : os) :
  same_but_dirs o1 o2 -> same_but_dirs o2 o3 -> same_but_dirs o1 o3.
Proof.
  unfold same_but_dirs.
  intros [F1 [E1 [H1 [P1 [C1 D1]]]]] [F2 [E2 [H2 [P2 [C2 D2]]]]].
  repeat split; try congruence. auto.
Qed.

Lemma same_but_dirs_add (path : string) (o : os) :
  same_but_dirs o (add_dir path o).
Proof.
  unfold same_but_dirs, add_dir, dir_exists. cbn.
  repeat split. intros d H. rewrite H. apply orb_true_r.
Qed.

Lemma dir_exists_add (path : string) (o : os) :
  dir_exists (add_dir path o) path = true.
Proof.
  unfold dir_exists, add_dir. cbn. now rewrite String.eqb_refl.
Qed.

Lemma dir_exists_add_other (path d : string) (o : os) :
  d <> path -> dir_exists (add_dir path o) d = dir_exists o d.
Proof.
  intro H. unfold dir_exists, add_dir. cbn.
  apply String.eqb_neq in H. now rewrite H.
Qed.

(** One run of the body of the loop on a slash: the three outcomes of
    [mkdir] and what the loop does next. *)
Lemma mkdir_step (done rest : string) (mode : Z) (p : proc) :
  let buf := done ++ "/" in
  (dir_exists (p_os p) buf = true
   /\ mkdir_p_loop done (String "/" rest) mode p
      = mkdir_p_loop buf rest mode
          (log (Ev_mkdir buf mode (-1)) (set_errno EEXIST p)))
  \/ (dir_exists (p_os p) buf = false
      /\ assoc buf (os_mkdir_error (p_os p)) = None
      /\ mkdir_p_loop done (String "/" rest) mode p
         = mkdir_p_loop buf rest mode
             (log (Ev_mkdir buf mode 0) (set_os (add_dir buf (p_os p)) p)))
  \/ (exists e,
         dir_exists (p_os p) buf = false
         /\ assoc buf (os_mkdir_error (p_os p)) = Some e
         /\ (e = EEXIST \/ e = EISDIR)
         /\ mkdir_p_loop done (String "/" rest) mode p
            = mkdir_p_loop buf rest mode
                (log (Ev_mkdir buf mode (-1)) (set_errno e p)))
  \/ (exists e,
         dir_exists (p_os p) buf = false
         /\ assoc buf (os_mkdir_error (p_os p)) = Some e
         /\ e <> EEXIST /\ e <> EISDIR
         /\ mkdir_p_loop done (String "/" rest) mode p
            = Ok (-1)%Z
                 (log (Ev_free P_buf)
                    (log (Ev_mkdir buf mode (-1)) (set_errno e p)))).
Proof.
  intro buf. cbn [mkdir_p_loop]. rewrite Ascii.eqb_refl. cbn [negb].
  fold buf. unfold bind, mkdir, get_errno.
  destruct (dir_exists (p_os p) buf) eqn:Hd.
  - left. split; [reflexivity|].
    cbn [set_errno log p_errno errno_eqb negb andb Z.eqb]. reflexivity.
  - destruct (assoc buf (os_mkdir_error (p_os p))) as [e|] eqn:He.
    + right. right.
      cbn [set_errno log p_errno Z.eqb negb andb].
      destruct e; cbn [errno_eqb negb andb];
        try (right; eexists; repeat split; try reflexivity; discriminate);
        left; eexists; repeat split; try reflexivity; auto.
    + right. left. repeat split.
Qed.

(** The calls of the loop, whatever the environment. *)
Lemma mkdir_p_loop_calls (rest done : string) (mode : Z) (p : proc) :
  exists v p' new,
    mkdir_p_loop done rest mode p = Ok v p'
    /\ p_log p' = (new ++ p_log p)%list
    /\ same_but_dirs (p_os p) (p_os p')
    /\ forall e, In e new ->
         match e with
         | Ev_mkdir path md _ =>
             md = mode /\ ends_with "/" path = true
             /\ exists a b, rest = a ++ b /\ path = done ++ a
         | Ev_free b => b = P_buf
         | _ => False
         end.
Proof.
  revert done p. induction rest as [|c rest IH]; intros done p.
  - exists 0%Z, p, []. cbn. repeat split; try apply same_but_dirs_refl.
    intros e [].
  - assert (Hlift : forall q ev,
               same_but_dirs (p_os p) (p_os q) ->
               p_log q = (ev ++ p_log p)%list ->
               (forall e, In e ev ->
                  match e with
                  | Ev_mkdir path md _ =>
                      md = mode /\ ends_with "/" path = true
                      /\ exists a b, String c rest = a ++ b /\ path = done ++ a
                  | Ev_free b => b = P_buf
                  | _ => False
                  end) ->
               exists v p' new,
                 mkdir_p_loop (done ++ String c "") rest mode q = Ok v p'
                 /\ p_log p' = (new ++ p_log p)%list
                 /\ same_but_dirs (p_os p) (p_os p')
                 /\ forall e, In e new ->
                      match e with
                      | Ev_mkdir path md _ =>
                          md = mode /\ ends_with "/" path = true
                          /\ exists a b, String c rest = a ++ b /\ path = done ++ a
                      | Ev_free b => b = P_buf
                      | _ => False
                      end).
    { intros q ev Hos Hlog Hev.
      destruct (IH (done ++ String c "") q) as [v [p' [new [E [L [S H]]]]]].
      exists v, p', (new ++ ev)%list. split; [exact E|].
      split; [rewrite L, Hlog; now rewrite app_assoc|].
      split; [eapply same_but_dirs_trans; eassumption|].
      intros e He. apply in_app_or in He as [He | He]; [|now apply Hev].
      specialize (H e He). destruct e; try exact H.
      destruct H as [Hm [Hs [a [b [-> ->]]]]]. split; [exact Hm|].
      split; [exact Hs|]. exists (String c a), b.
      split; [reflexivity | apply append_snoc]. }
    destruct (Ascii.eqb c "/") eqn:Ec.
    + apply Ascii.eqb_eq in Ec. subst c.
      assert (Hev : forall res e,
                 In e [Ev_mkdir (done ++ "/") mode res] ->
                 match e with
                 | Ev_mkdir path md _ =>
                     md = mode /\ ends_with "/" path = true
                     /\ exists a b, String "/" rest = a ++ b /\ path = done ++ a
                 | Ev_free b => b = P_buf
                 | _ => False
                 end).
      { intros res e [<- | []]. split; [reflexivity|].
        split; [apply ends_with_snoc|]. now exists "/", rest. }
      destruct (mkdir_step done rest mode p)
        as [[_ ->] | [[_ [_ ->]] | [[e1 [_ [_ [_ ->]]]] | [e2 [_ [_ [_ [_ ->]]]]]]]].
      * apply (Hlift _ [Ev_mkdir (done ++ "/") mode (-1)]);
          [apply same_but_dirs_refl | reflexivity | apply Hev].
      * apply (Hlift _ [Ev_mkdir (done ++ "/") mode 0]);
          [apply same_but_dirs_add | reflexivity | apply Hev].
      * apply (Hlift _ [Ev_mkdir (done ++ "/") mode (-1)]);
          [apply same_but_dirs_refl | reflexivity | apply Hev].
      * exists (-1)%Z. eexists.
        exists [Ev_free P_buf; Ev_mkdir (done ++ "/") mode (-1)].
        split; [reflexivity|]. split; [reflexivity|].
        split; [apply same_but_dirs_refl|].
        intros e [<- | He]; [reflexivity | now apply (Hev (-1)%Z)].
    + cbn [mkdir_p_loop]. rewrite Ec. cbn [negb].
      apply (Hlift p []); [apply same_but_dirs_refl | reflexivity |].
      intros e [].
Qed.

(** X5.  Whatever the environment, [mkdir_p dir mode] allocates one buffer
    of the length of [dir] plus one, calls [mkdir] only with [mode] and only
    on prefixes of [dir] that end with a slash (so a last component that no
    slash follows is never created), and frees nothing but its buffer.  It
    changes the environment only by the directories it creates. *)
Theorem mkdir_p_calls :
  forall (dir : string) (mode : Z) (o : os) (m : list bool) (u : Z),
    let r := mkdir_p dir mode (start o m u) in
    same_but_dirs o (p_os (final r))
    /\ (exists v p', r = Ok v p')
    /\ forall e, In e (trace r) -> mkdir_p_call dir mode e.
Proof.
  intros dir mode o m u r. subst r. unfold mkdir_p, bind.
  destruct (malloc_cases (strlen dir + 1) (start o m u))
    as [b [q [E [L [O _]]]]].
  rewrite E. destruct b; cbn [negb].
  - destruct (mkdir_p_loop_calls dir "" mode q) as [v [p' [new [El [Ll [S H]]]]]].
    rewrite El. cbn [final]. rewrite O in S. cbn [start p_os] in S.
    split; [exact S|]. split; [now exists v, p'|].
    intros e He. unfold trace in He. cbn [final] in He. apply in_rev in He.
    rewrite Ll, L in He. cbn [start p_log] in He.
    apply in_app_or in He as [He | [<- | []]]; [|reflexivity].
    specialize (H e He). destruct e; try exact H; try contradiction.
    destruct H as [Hm [Hs [a [b [-> ->]]]]].
    split; [exact Hm|]. split; [exact Hs|]. now exists b.
  - unfold ret. cbn [final]. rewrite O. cbn [start p_os].
    split; [apply same_but_dirs_refl|]. split; [now exists 1%Z, q|].
    intros e He. unfold trace in He. cbn [final] in He. apply in_rev in He.
    rewrite L in He. cbn [start p_log] in He.
    destruct He as [<- | []]. reflexivity.
Qed.

Lemma mkdir_p_calls_witness :
  In (Ev_mkdir "/h/.runc/" dir_mode 0)
     (trace (mkdir_p "/h/.runc/cache" dir_mode (start os_sample [] 0)))
  /\ mkdir_p_call "/h/.runc/cache" dir_mode (Ev_mkdir "/h/.runc/" dir_mode 0).
Proof.
  assert (Hin : In (Ev_mkdir "/h/.runc/" dir_mode 0)
                   (trace (mkdir_p "/h/.runc/cache" dir_mode (start os_sample [] 0))))
    by (vm_compute; in_list).
  split; [exact Hin|].
  destruct (mkdir_p_calls "/h/.runc/cache" dir_mode os_sample [] 0) as [_ [_ H]].
  exact (H _ Hin).
Defined.

Lemma mkdir_p_loop_creates (rest done : string) (mode : Z) (p : proc) :
  os_mkdir_error (p_os p) = [] ->
  exists p' new,
    mkdir_p_loop done rest mode p = Ok 0%Z p'
    /\ p_log p' = (new ++ p_log p)%list
    /\ (forall e, In e new -> is_mkdir e = true)
    /\ same_but_dirs (p_os p) (p_os p')
    /\ forall a b, rest = a ++ b -> ends_with "/" a = true ->
         dir_exists (p_os p') (done ++ a) = true.
Proof.
  revert done p. induction rest as [|c rest IH]; intros done p Herr.
  - exists p, []. cbn. repeat split; try apply same_but_dirs_refl.
    + intros e [].
    + intros a b Hab Ha. destruct a; discriminate.
  - assert (Hlift : forall q ev,
               same_but_dirs (p_os p) (p_os q) ->
               p_log q = (ev ++ p_log p)%list ->
               (forall e, In e ev -> is_mkdir e = true) ->
               (Ascii.eqb c "/" = true ->
                dir_exists (p_os q) (done ++ String c "") = true) ->
               exists p' new,
                 mkdir_p_loop (done ++ String c "") rest mode q = Ok 0%Z p'
                 /\ p_log p' = (new ++ p_log p)%list
                 /\ (forall e, In e new -> is_mkdir e = true)
                 /\ same_but_dirs (p_os p) (p_os p')
                 /\ forall a b, String c rest = a ++ b -> ends_with "/" a = true ->
                      dir_exists (p_os p') (done ++ a) = true).
    { intros q ev Hos Hlog Hev Hbuf.
      assert (Herrq : os_mkdir_error (p_os q) = []).
      { destruct Hos as [_ [He _]]. congruence. }
      destruct (IH (done ++ String c "") q Herrq) as [p' [new [E [L [Hn [S H]]]]]].
      exists p', (new ++ ev)%list. split; [exact E|].
      split; [rewrite L, Hlog; now rewrite app_assoc|].
      split; [intros e He; apply in_app_or in He as [He | He]; auto|].
      split; [eapply same_but_dirs_trans; eassumption|].
      intros a b Hab Ha. destruct a as [|x a]; [discriminate|].
      cbn [String.append] in Hab. inversion Hab; subst x rest.
      destruct a as [|y a].
      - cbn [ends_with] in Ha. destruct S as [_ [_ [_ [_ [_ Hd]]]]].
        apply Hd. now apply Hbuf.
      - rewrite <- append_snoc. apply (H (String y a) b); [reflexivity|].
        rewrite ends_with_cons in Ha; [exact Ha | discriminate]. }
    destruct (Ascii.eqb c "/") eqn:Ec.
    + apply Ascii.eqb_eq in Ec. subst c.
      destruct (mkdir_step done rest mode p)
        as [[Hd ->] | [[_ [_ ->]] | [[e1 [_ [He _]]] | [e2 [_ [He _]]]]]];
        try (rewrite Herr in He; discriminate).
      * apply (Hlift _ [Ev_mkdir (done ++ "/") mode (-1)]);
          [apply same_but_dirs_refl | reflexivity | | intros _; exact Hd].
        intros e [<- | []]. reflexivity.
      * apply (Hlift _ [Ev_mkdir (done ++ "/") mode 0]);
          [apply same_but_dirs_add | reflexivity | | intros _; apply dir_exists_add].
        intros e [<- | []]. reflexivity.
    + cbn [mkdir_p_loop]. rewrite Ec. cbn [negb].
      apply (Hlift p []); [apply same_but_dirs_refl | reflexivity | | discriminate].
      intros e [].
Qed.

Lemma mkdir_p_start (dir : string) (mode : Z) (o : os) (u : Z) :
  mkdir_p dir mode (start o [] u)
  = mkdir_p_loop "" dir mode
      (mkProc o [] E_none u [Ev_malloc (strlen dir + 1) true]).
Proof. reflexivity. Qed.

(** X6.  Where the buffer is allocated and the environment refuses no
    directory, [mkdir_p dir mode] returns 0 and every prefix of [dir] that
    ends with a slash is a directory afterwards, whether it existed before
    or not; the buffer is not freed on this path. *)
Theorem mkdir_p_creates :
  forall (dir : string) (mode : Z) (o : os) (u : Z) (path : string),
    os_mkdir_error o = [] ->
    slash_prefix path dir ->
    let r := mkdir_p dir mode (start o [] u) in
    (exists p', r = Ok 0%Z p')
    /\ dir_exists (p_os (final r)) path = true
    /\ ~ In (Ev_free P_buf) (trace r).
Proof.
  intros dir mode o u path Herr [Hs [rest Hdir]] r. subst r.
  rewrite mkdir_p_start.
  destruct (mkdir_p_loop_creates dir "" mode
              (mkProc o [] E_none u [Ev_malloc (strlen dir + 1) true]) Herr)
    as [p' [new [E [L [Hn [_ H]]]]]].
  rewrite E. cbn [final].
  split; [now exists p'|]. split; [exact (H path rest Hdir Hs)|].
  intro Hin. unfold trace in Hin. cbn [final] in Hin. apply in_rev in Hin.
  rewrite L in Hin. cbn [p_log] in Hin.
  apply in_app_or in Hin as [Hin | [Hin | []]]; [|discriminate].
  apply Hn in Hin. discriminate.
Qed.

Lemma mkdir_p_creates_witness :
  os_mkdir_error os_sample = []
  /\ slash_prefix "/h/.runc/" "/h/.runc/cache/"
  /\ (exists p', mkdir_p "/h/.runc/cache/" dir_mode (start os_sample [] 0) = Ok 0%Z p')
  /\ dir_exists
       (p_os (final (mkdir_p "/h/.runc/cache/" dir_mode (start os_sample [] 0))))
       "/h/.runc/" = true.
Proof.
  assert (Hp : slash_prefix "/h/.runc/" "/h/.runc/cache/")
    by (split; [reflexivity | now exists "cache/"]).
  split; [reflexivity|]. split; [exact Hp|].
  destruct (mkdir_p_creates "/h/.runc/cache/" dir_mode os_sample 0 "/h/.runc/"
              eq_refl Hp) as [H1 [H2 _]].
  split; [exact H1 | exact H2].
Defined.

Lemma length_append_lt (done : string) (c : ascii) (a : string) :
  a <> "" -> done ++ String c "" <> done ++ String c a.
Proof.
  intros Ha H. apply append_inv_l in H. inversion H. congruence.
Qed.

Lemma mkdir_p_loop_stops (rest done : string) (mode : Z) (p : proc)
      (a b : string) (e : errno_t) :
  rest = a ++ b ->
  ends_with "/" a = true ->
  dir_exists (p_os p) (done ++ a) = false ->
  assoc (done ++ a) (os_mkdir_error (p_os p)) = Some e ->
  e <> EEXIST -> e <> EISDIR ->
  exists p' new,
    mkdir_p_loop done rest mode p = Ok (-1)%Z p'
    /\ p_log p' = (new ++ p_log p)%list
    /\ In (Ev_free P_buf) new
    /\ forall q md res, In (Ev_mkdir q md res) new ->
         String.length q <= String.length (done ++ a).
Proof.
  revert done p a. induction rest as [|c rest IH];
    intros done p a Hab Ha Hd He Hne1 Hne2.
  - destruct a; discriminate.
  - destruct a as [|x a]; [discriminate|].
    cbn [String.append] in Hab. inversion Hab; subst x rest. clear Hab.
    assert (Hlift : forall q ev,
               a <> "" ->
               same_but_dirs (p_os p) (p_os q) ->
               dir_exists (p_os q) (done ++ String c a) = false ->
               p_log q = (ev ++ p_log p)%list ->
               (forall q' md res, In (Ev_mkdir q' md res) ev ->
                  String.length q' <= String.length (done ++ String c a)) ->
               exists p' new,
                 mkdir_p_loop (done ++ String c "") (a ++ b) mode q = Ok (-1)%Z p'
                 /\ p_log p' = (new ++ p_log p)%list
                 /\ In (Ev_free P_buf) new
                 /\ forall q' md res, In (Ev_mkdir q' md res) new ->
                      String.length q' <= String.length (done ++ String c a)).
    { intros q ev Hane Hos Hdq Hlog Hev.
      assert (Ha' : ends_with "/" a = true)
        by (rewrite ends_with_cons in Ha; assumption).
      assert (Heq : assoc ((done ++ String c "") ++ a) (os_mkdir_error (p_os q))
                    = Some e).
      { rewrite append_snoc. destruct Hos as [_ [Herr _]]. now rewrite Herr. }
      rewrite <- append_snoc in Hdq.
      destruct (IH (done ++ String c "") q a eq_refl Ha' Hdq Heq Hne1 Hne2)
        as [p' [new [E [L [Hf Hb]]]]].
      exists p', (new ++ ev)%list. split; [exact E|].
      split; [rewrite L, Hlog; now rewrite app_assoc|].
      split; [apply in_or_app; now left|].
      intros q' md res Hin. apply in_app_or in Hin as [Hin | Hin].
      - rewrite <- append_snoc. eapply Hb; eassumption.
      - eapply Hev; eassumption. }
    assert (Hlen : String.length (done ++ String c "")
                   <= String.length (done ++ String c a)).
    { rewrite !length_append. cbn. lia. }
    destruct (Ascii.eqb c "/") eqn:Ec.
    + apply Ascii.eqb_eq in Ec. subst c.
      assert (Hev : forall res q' md res',
                 In (Ev_mkdir q' md res') [Ev_mkdir (done ++ "/") mode res] ->
                 String.length q' <= String.length (done ++ String "/" a)).
      { intros res q' md res' [Hq | []]. inversion Hq; subst. exact Hlen. }
      destruct a as [|y a].
      * (* the refused prefix itself *)
        destruct (mkdir_step done ("" ++ b) mode p)
          as [[Hd' _] | [[_ [He' _]] | [[e1 [_ [He' [Ht _]]]] | [e2 [_ [He' [_ [_ ->]]]]]]]];
          try congruence.
        -- rewrite He in He'. inversion He'; subst e1. destruct Ht; congruence.
        -- exists (log (Ev_free P_buf)
                     (log (Ev_mkdir (done ++ "/") mode (-1)) (set_errno e2 p))),
             [Ev_free P_buf; Ev_mkdir (done ++ "/") mode (-1)].
           split; [reflexivity|]. split; [reflexivity|].
           split; [now left|].
           intros q' md res [Hq | Hq]; [discriminate|].
           now apply (Hev (-1)%Z q' md res).
      * (* a shorter prefix *)
        assert (Hane : String y a <> "") by discriminate.
        destruct (mkdir_step done (String y a ++ b) mode p)
          as [[_ ->] | [[_ [_ ->]] | [[e1 [_ [_ [_ ->]]]] | [e2 [_ [_ [_ [_ ->]]]]]]]].
        -- apply (Hlift _ [Ev_mkdir (done ++ "/") mode (-1)]); auto.
           ++ apply same_but_dirs_refl.
           ++ apply (Hev (-1)%Z).
        -- apply (Hlift _ [Ev_mkdir (done ++ "/") mode 0]); auto.
           ++ apply same_but_dirs_add.
           ++ cbn [set_os log p_os]. rewrite dir_exists_add_other; [exact Hd|].
              intro H. symmetry in H. now apply length_append_lt in H.
           ++ apply (Hev 0%Z).
        -- apply (Hlift _ [Ev_mkdir (done ++ "/") mode (-1)]); auto.
           ++ apply same_but_dirs_refl.
           ++ apply (Hev (-1)%Z).
        -- exists (log (Ev_free P_buf)
                     (log (Ev_mkdir (done ++ "/") mode (-1)) (set_errno e2 p))),
             [Ev_free P_buf; Ev_mkdir (done ++ "/") mode (-1)].
           split; [reflexivity|]. split; [reflexivity|].
           split; [now left|].
           intros q' md res [Hq | Hq]; [discriminate|].
           now apply (Hev (-1)%Z q' md res).
    + cbn [mkdir_p_loop]. rewrite Ec. cbn [negb].
      assert (Hane : a <> "").
      { intro Hempty. subst a. cbn [ends_with] in Ha. congruence. }
      apply (Hlift p []); auto.
      * apply same_but_dirs_refl.
      * intros q' md res [].
Qed.

(** X7.  Where the environment refuses, with an error other than [EEXIST]
    and [EISDIR], a prefix of [dir] that ends with a slash and is not a
    directory, [mkdir_p dir mode] returns -1, frees its buffer, and calls
    [mkdir] on no longer prefix than that one. *)
Theorem mkdir_p_stops :
  forall (dir : string) (mode : Z) (o : os) (u : Z) (path : string)
         (e : errno_t),
    slash_prefix path dir ->
    dir_exists o path = false ->
    assoc path (os_mkdir_error o) = Some e ->
    e <> EEXIST ->
    e <> EISDIR ->
    let r := mkdir_p dir mode (start o [] u) in
    (exists p', r = Ok (-1)%Z p')
    /\ In (Ev_free P_buf) (trace r)
    /\ forall q md res,
         In (Ev_mkdir q md res) (trace r) ->
         String.length q <= String.length path.
Proof.
  intros dir mode o u path e [Hs [rest Hdir]] Hd He Hne1 Hne2 r. subst r.
  rewrite mkdir_p_start.
  destruct (mkdir_p_loop_stops dir "" mode
              (mkProc o [] E_none u [Ev_malloc (strlen dir + 1) true])
              path rest e Hdir Hs Hd He Hne1 Hne2)
    as [p' [new [E [L [Hf Hb]]]]].
  rewrite E. cbn [final]. split; [now exists p'|].
  unfold trace. cbn [final]. rewrite L. cbn [p_log]. split.
  - apply -> in_rev. apply in_or_app. now left.
  - intros q md res Hin. apply in_rev in Hin.
    apply in_app_or in Hin as [Hin | [Hin | []]]; [|discriminate].
    exact (Hb q md res Hin).
Qed.

(** An environment in which the directory [/h/.runc/] cannot be created. *)
Lemma mkdir_p_stops_witness :
  let o := mkOs [] ["/"; "/h/"] [("/h/.runc/", EACCES)] (Some "/h") None false in
  (exists p', mkdir_p "/h/.runc/cache/" dir_mode (start o [] 0) = Ok (-1)%Z p')
  /\ In (Ev_free P_buf) (trace (mkdir_p "/h/.runc/cache/" dir_mode (start o [] 0)))
  /\ forall q md res,
       In (Ev_mkdir q md res)
          (trace (mkdir_p "/h/.runc/cache/" dir_mode (start o [] 0))) ->
       String.length q <= String.length "/h/.runc/".
Proof.
  intro o.
  apply (mkdir_p_stops "/h/.runc/cache/" dir_mode o 0 "/h/.runc/" EACCES).
  - split; [reflexivity | now exists "cache/"].
  - reflexivity.
  - reflexivity.
  - discriminate.
  - discriminate.
Defined.

(* ------------------------------------------------------------------ *)
(** ** [hint_only_flags] *)

(** X8.  [hint_only_flags] returns true exactly on the hints whose first
    character that is not a space is a dash; on every other hint, the
    empty hint and the hints made of spaces included, it returns false. *)
Theorem hint_only_flags_iff :
  forall options : string,
    hint_only_flags options = true
    <-> exists ws rest,
          options = ws ++ String "-" rest /\ all isspace ws = true.
Proof.
  intro options. split.
  - induction options as [|c s IH]; cbn [hint_only_flags]; intro H.
    + discriminate H.
    + unfold hint_only_flags_body in H.
      destruct (Ascii.eqb c "-") eqn:Ec.
      * apply Ascii.eqb_eq in Ec. subst c. now exists "", s.
      * destruct (isspace c) eqn:Es; cbn [negb] in H; [|discriminate H].
        destruct (IH H) as [ws [rest [-> Hws]]].
        exists (String c ws), rest. cbn [String.append all].
        now rewrite Es, Hws.
  - intros [ws [rest [-> Hws]]].
    now rewrite hint_only_flags_first_nonspace.
Qed.

(* ------------------------------------------------------------------ *)
(** ** [extract_hint] *)

Lemma mem_append (c : ascii) (a b : string) :
  mem c (a ++ b) = mem c a || mem c b.
Proof.
  induction a as [|x a IH]; cbn [String.append mem]; [reflexivity|].
  now rewrite IH, orb_assoc.
Qed.

Lemma complete_lines_snoc (s : string) :
  complete_lines (s ++ String newline "") = true.
Proof.
  induction s as [|x s IH]; cbn [String.append complete_lines].
  - apply Ascii.eqb_refl.
  - destruct s; exact IH.
Qed.

(** What [regexec] finds is a match that starts where a line starts. *)
Lemma search_sound (s : string) (bol : bool) (off so eo : nat) :
  search bol off s = Some (so, eo) ->
  exists pre line so' eo',
    s = pre ++ line
    /\ match_here line = Some (so', eo')
    /\ so = off + String.length pre + so'
    /\ eo = off + String.length pre + eo'
    /\ ((pre = "" /\ bol = true) \/ (pre <> "" /\ complete_lines pre = true)).
Proof.
  revert bol off. induction s as [|c s IH]; intros bol off H; cbn [search] in H.
  - destruct bol; [|discriminate]. now vm_compute in H.
  - destruct (if bol then match_here (String c s) else None)
      as [[so' eo']|] eqn:E.
    + inversion H; subst so eo. destruct bol; [|discriminate].
      exists "", (String c s), so', eo'. cbn. repeat split; auto; lia.
    + destruct (IH _ _ H) as [pre [line [so' [eo' [-> [Hm [-> [-> Hpre]]]]]]]].
      exists (String c pre), line, so', eo'. cbn [String.append String.length].
      repeat split; auto; try lia.
      right. split; [discriminate|].
      destruct Hpre as [[-> Hc] | [Hne Hpre]].
      * exact Hc.
      * destruct pre; [congruence | exact Hpre].
Qed.

Lemma regexec_sound (s : string) (so eo : nat) :
  regexec s = Some (so, eo) ->
  exists pre lead payload trail post,
    s = pre ++ lead ++ "/*!" ++ payload ++ "*/" ++ trail ++ post
    /\ so = String.length pre + String.length lead + 3
    /\ eo = so + String.length payload
    /\ complete_lines pre = true
    /\ all blank_bracket lead = true
    /\ payload <> ""
    /\ all payload_bracket payload = true
    /\ all blank_bracket trail = true
    /\ at_eol post = true.
Proof.
  unfold regexec. intro H.
  destruct (search_sound _ _ _ _ _ H)
    as [pre [line [so' [eo' [-> [Hm [-> [-> Hpre]]]]]]]].
  destruct (match_here_sound _ _ _ Hm)
    as [lead [payload [trail [post [-> [-> [-> [Hl [Hne [Hp [Ht He]]]]]]]]]]].
  exists pre, lead, payload, trail, post.
  repeat split; auto; try lia.
  destruct Hpre as [[-> _] | [_ Hpre]]; [reflexivity | exact Hpre].
Qed.

Lemma stores_at_index (i j : nat) (c : ascii) (s : string) :
  In (j, c) (stores_at i s) -> i <= j < i + String.length s.
Proof.
  revert i; induction s as [|d s IH]; intros i H; cbn [stores_at] in H.
  - contradiction.
  - cbn [String.length]. destruct H as [H | H].
    + inversion H; subst; lia.
    + apply IH in H. lia.
Qed.

Lemma length_take (n : nat) (s : string) : String.length (take n s) <= n.
Proof.
  revert s. induction n as [|n IH]; intro s; [now destruct s|].
  destruct s as [|c s]; cbn [take String.length]; [lia|].
  specialize (IH s). lia.
Qed.

Lemma length_strncpy (src : string) (n : nat) :
  String.length (strncpy src n) = n.
Proof.
  unfold strncpy. rewrite length_append, length_string_of_list_ascii,
    repeat_length.
  pose proof (length_take n src). lia.
Qed.

(** X9.  Whatever hint [extract_hint] returns from a text without NUL stood
    between the two marks on one line of the text: the line starts the text
    or follows a newline, holds before and after the comment only
    characters among : b l a n k (no blank among them), and ends the text
    or is followed by a newline.  The hint is not empty and contains no
    star, no backslash and no newline. *)
Theorem extract_hint_sound :
  forall (sourcecode : string) (p p' : proc) (b : block),
    mem NUL sourcecode = false ->
    extract_hint sourcecode p = Ok (Some b) p' ->
    exists pre lead trail post,
      sourcecode = pre ++ lead ++ "/*!" ++ blk_string b ++ "*/" ++ trail ++ post
      /\ complete_lines pre = true
      /\ at_eol post = true
      /\ all blank_bracket lead = true
      /\ all blank_bracket trail = true
      /\ blk_string b <> ""
      /\ all payload_bracket (blk_string b) = true.
Proof.
  intros sourcecode p p' b Hnul E.
  unfold extract_hint in E.
  destruct (regexec sourcecode) as [[so eo]|] eqn:Hre; [|discriminate].
  destruct (regexec_sound _ _ _ Hre)
    as [pre [lead [payload [trail [post
         [Hs [Hso [Heo [Hpre [Hl [Hne [Hp [Ht He]]]]]]]]]]]]].
  unfold bind in E. destruct (malloc (eo - so) p) as [[|] q|q];
    cbn [negb] in E; unfold ret in E; inversion E; subst b. clear E.
  assert (Hstr : blk_string
                   (mkBlock (eo - so)
                      (stores_at 0 (strncpy (drop so sourcecode) (eo - so))
                       ++ [(eo - so, NUL)])%list) = payload).
  { unfold blk_string. cbn [blk_stores].
    rewrite map_app, string_of_list_ascii_app, string_of_stores.
    replace (eo - so) with (String.length payload) by lia.
    rewrite Hso, Hs.
    replace (String.length pre + String.length lead + 3)
      with (String.length (pre ++ lead) + 3)
      by (rewrite length_append; lia).
    rewrite <- (append_assoc pre lead), drop_add, drop_append.
    change (drop 3 ("/*!" ++ payload ++ "*/" ++ trail ++ post))
      with (payload ++ "*/" ++ trail ++ post).
    unfold strncpy. rewrite take_append, Nat.sub_diag.
    cbn [repeat string_of_list_ascii map snd]. rewrite append_nil_r.
    apply c_str_no_nul.
    rewrite Hs in Hnul. rewrite !mem_append in Hnul.
    do 3 (apply orb_false_iff in Hnul as [_ Hnul]).
    apply orb_false_iff in Hnul as [Hnul _]. exact Hnul. }
  rewrite Hstr. exists pre, lead, trail, post. repeat split; auto.
Qed.

Lemma extract_hint_sound_witness :
  exists pre lead trail post,
    "int x;" ++ nl ++ "blank/*!gcc*/" ++ nl
    = pre ++ lead ++ "/*!" ++ "gcc" ++ "*/" ++ trail ++ post
    /\ complete_lines pre = true
    /\ at_eol post = true
    /\ all blank_bracket lead = true
    /\ all blank_bracket trail = true.
Proof.
  assert (E : exists p',
             extract_hint ("int x;" ++ nl ++ "blank/*!gcc*/" ++ nl)
                          (start os_sample [] 0)
             = Ok (Some (mkBlock 3 [(0, "g"%char); (1, "c"%char); (2, "c"%char);
                                    (3, NUL)])) p')
    by (eexists; vm_compute; reflexivity).
  destruct E as [p' E].
  assert (Hnul : mem NUL ("int x;" ++ nl ++ "blank/*!gcc*/" ++ nl) = false)
    by (vm_compute; reflexivity).
  destruct (extract_hint_sound _ _ _ _ Hnul E)
    as [pre [lead [trail [post [H1 [H2 [H3 [H4 [H5 _]]]]]]]]].
  exists pre, lead, trail, post.
  split; [exact H1|]. split; [exact H2|]. split; [exact H3|].
  split; [exact H4 | exact H5].
Defined.

(** X10.  In the block of a hint every store but the last is within the
    block, and the last, the terminating NUL, is at the index that is the
    size of the block: the block is overrun by exactly one byte. *)
Theorem extract_hint_one_past :
  forall (sourcecode : string) (p p' : proc) (b : block),
    extract_hint sourcecode p = Ok (Some b) p' ->
    0 < blk_size b
    /\ (forall i c, In (i, c) (blk_stores b) -> i <= blk_size b)
    /\ (forall i c, In (i, c) (removelast (blk_stores b)) -> i < blk_size b)
    /\ last (blk_stores b) (0, NUL) = (blk_size b, NUL).
Proof.
  intros sourcecode p p' b E. unfold extract_hint in E.
  destruct (regexec sourcecode) as [[so eo]|] eqn:Hre; [|discriminate].
  destruct (regexec_sound _ _ _ Hre)
    as [pre [lead [payload [trail [post [_ [_ [Heo [_ [_ [Hne _]]]]]]]]]]].
  unfold bind in E. destruct (malloc (eo - so) p) as [[|] q|q];
    cbn [negb] in E; unfold ret in E; inversion E; subst b. clear E.
  cbn [blk_size blk_stores].
  assert (Hin : forall i c,
             In (i, c) (stores_at 0 (strncpy (drop so sourcecode) (eo - so))) ->
             i < eo - so).
  { intros i c H. apply stores_at_index in H.
    rewrite length_strncpy in H. lia. }
  split; [|split; [|split]].
  - destruct payload; [congruence|]. cbn [String.length] in Heo. lia.
  - intros i c H. apply in_app_or in H as [H | [H | []]].
    + apply Hin in H. lia.
    + inversion H. lia.
  - rewrite removelast_last. exact Hin.
  - apply last_last.
Qed.

Lemma extract_hint_one_past_witness :
  exists b p',
    extract_hint "/*! -lm */" (start os_sample [] 0) = Ok (Some b) p'
    /\ last (blk_stores b) (0, NUL) = (blk_size b, NUL).
Proof.
  assert (E : exists b p',
             extract_hint "/*! -lm */" (start os_sample [] 0) = Ok (Some b) p')
    by (eexists; eexists; vm_compute; reflexivity).
  destruct E as [b [p' E]]. exists b, p'. split; [exact E|].
  destruct (extract_hint_one_past _ _ _ _ E) as [_ [_ [_ H]]]. exact H.
Defined.

(* ------------------------------------------------------------------ *)
(** ** [launch] *)

(** X11.  The block [launch] allocates never holds its command line: with
    the terminating NUL the command line needs one byte more than the block
    has for each argument, and one more.  Even without arguments the NUL
    of the file name is stored past the end of the block. *)
Theorem launch_block_short :
  forall (sh : string -> os -> Z * os) (filename : string)
         (argv : list string) (o : os) (m : list bool) (u : Z)
         (n : nat) (ok : bool),
    In (Ev_malloc n ok) (trace (launch sh filename argv (start o m u))) ->
    n + (List.length argv + 1)
    = String.length (launch_cmdline filename argv) + 1.
Proof.
  intros sh filename argv o m u n ok Hin.
  unfold trace in Hin. apply in_rev in Hin.
  pose proof (launch_cmdline_short filename argv) as Hshort.
  destruct (launch_cases sh filename argv (start o m u))
    as [[p' [E [L _]]] | [p' [E L]]];
    rewrite E in Hin; cbn [final] in Hin; rewrite L in Hin;
    cbn [start p_log app] in Hin.
  - destruct Hin as [H | []]. inversion H; subst. lia.
  - destruct Hin as [H | [H | [H | []]]]; try discriminate.
    inversion H; subst. lia.
Qed.

Lemma launch_block_short_witness :
  In (Ev_malloc 15 true)
     (trace (launch sh_idle "/c/ab" ["x"; "y z"] (start os_sample [] 0)))
  /\ 15 + (List.length ["x"; "y z"] + 1)
     = String.length (launch_cmdline "/c/ab" ["x"; "y z"]) + 1.
Proof.
  assert (Hin : In (Ev_malloc 15 true)
                   (trace (launch sh_idle "/c/ab" ["x"; "y z"]
                             (start os_sample [] 0))))
    by (vm_compute; in_list).
  split; [exact Hin|].
  exact (launch_block_short sh_idle "/c/ab" ["x"; "y z"] os_sample [] 0 15 true Hin).
Defined.

Lemma plain_ordinary (c : ascii) :
  plain c = true ->
  Ascii.eqb c " " = false /\ Ascii.eqb c (ascii_of_nat 34) = false.
Proof.
  intro H. split.
  - destruct (Ascii.eqb_spec c " ") as [-> | _]; [|reflexivity].
    vm_compute in H. discriminate.
  - destruct (Ascii.eqb_spec c (ascii_of_nat 34)) as [-> | _]; [|reflexivity].
    vm_compute in H. discriminate.
Qed.

Lemma quoted_literal_no_quote (c : ascii) :
  quoted_literal c = true -> Ascii.eqb c (ascii_of_nat 34) = false.
Proof.
  unfold quoted_literal, dquote_char. intro H.
  do 4 (apply andb_true_iff in H as [H _]).
  now apply negb_true_iff in H.
Qed.

Lemma words_plain (s rest word : string) (started : bool) :
  all plain s = true ->
  Shell.words_from false started word (s ++ rest)
  = Shell.words_from false
      (started || negb (String.eqb s "")) (word ++ s) rest.
Proof.
  revert word started. induction s as [|c s IH]; intros word started H.
  - cbn. now rewrite orb_false_r, append_nil_r.
  - cbn [all] in H. apply andb_true_iff in H as [Hc Hs].
    destruct (plain_ordinary c Hc) as [Hsp Hq].
    cbn [String.append Shell.words_from]. rewrite Hq, Hsp. cbn [andb].
    rewrite (IH _ _ Hs). rewrite append_snoc.
    f_equal. now rewrite orb_true_r.
Qed.

Lemma words_quoted (s rest word : string) :
  quotable s = true ->
  Shell.words_from true true word (s ++ rest)
  = Shell.words_from true true (word ++ s) rest.
Proof.
  revert word. induction s as [|c s IH]; intros word H.
  - cbn. now rewrite append_nil_r.
  - unfold quotable in H. cbn [all] in H.
    apply andb_true_iff in H as [Hc Hs].
    apply quoted_literal_no_quote in Hc.
    cbn [String.append Shell.words_from]. rewrite Hc.
    cbn [negb andb]. rewrite andb_false_r.
    rewrite IH; [now rewrite append_snoc | exact Hs].
Qed.

Lemma words_arguments (argv : list string) (word : string) :
  forallb quotable argv = true ->
  Shell.words_from false true word (join (map launch_quoted argv))
  = word :: map (fun arg => arg ++ " ") argv.
Proof.
  revert word. induction argv as [|a argv IH]; intros word H.
  - reflexivity.
  - cbn [forallb] in H. apply andb_true_iff in H as [Ha Hargv].
    cbn [map join]. unfold launch_quoted at 1, dquote.
    rewrite !append_assoc. cbn [String.append Shell.words_from].
    change (Ascii.eqb " " (ascii_of_nat 34)) with false.
    change (Ascii.eqb " " " ") with true. cbn [negb andb app].
    rewrite Ascii.eqb_refl. cbn [negb].
    assert (Hq : quotable (a ++ " ") = true).
    { unfold quotable in *. rewrite all_append, Ha. reflexivity. }
    change (a ++ String " " (String (ascii_of_nat 34)
                               (join (map launch_quoted argv))))
      with (a ++ " " ++ String (ascii_of_nat 34) (join (map launch_quoted argv))).
    rewrite <- append_assoc, (words_quoted _ _ "" Hq).
    cbn [String.append Shell.words_from]. rewrite Ascii.eqb_refl. cbn [negb].
    now rewrite (IH _ Hargv).
Qed.

(** X12.  For a file name that starts with a slash and is made of letters,
    digits, slashes, dots, underscores and dashes, and arguments that hold
    no double quote, dollar, backquote, backslash or NUL, the words that the
    command interpreter makes of the command line of [launch] are the file
    name and then each argument with a space appended; no argument is lost,
    split or joined to another. *)
Theorem launch_words :
  forall (filename : string) (argv : list string),
    String.prefix "/" filename = true ->
    all plain filename = true ->
    forallb quotable argv = true ->
    Shell.words (launch_cmdline filename argv)
    = filename :: map (fun arg => arg ++ " ") argv.
Proof.
  intros filename argv Hslash Hplain Hargv.
  assert (Hne : String.eqb filename "" = false).
  { destruct filename; [discriminate | reflexivity]. }
  clear Hslash.
  rewrite launch_cmdline_eq. unfold Shell.words.
  rewrite (words_plain _ _ _ _ Hplain). cbn [String.append orb].
  rewrite Hne. cbn [negb].
  now apply words_arguments.
Qed.

Lemma launch_words_witness :
  String.prefix "/" "/c/ab" = true
  /\ Shell.words (launch_cmdline "/c/ab" ["-n"; "two words"])
     = ["/c/ab"; "-n "; "two words "].
Proof.
  split; [reflexivity|].
  apply (launch_words "/c/ab" ["-n"; "two words"]).
  - reflexivity.
  - reflexivity.
  - reflexivity.
Defined.

(* ------------------------------------------------------------------ *)
(** ** [readfilestr] *)

(** X13.  On a file that opens, [readfilestr] with a successful allocation
    returns the bytes of the file, stores their number as length when the
    file is shorter than 2^31 bytes, and closes the stream.  With a failed
    allocation the process faults, the stream still open: the terminating
    NUL is stored before the result of [malloc] is tested. *)
Theorem readfilestr_outcomes :
  forall (filename bytes : string) (o : os) (m : list bool) (u : Z),
    file_bytes o filename = Some bytes ->
    let r := readfilestr filename (start o m u) in
    (hd true m = true ->
     (exists p', r = Ok (Some (bytes, int_of_long (Z.of_nat (String.length bytes)))) p')
     /\ trace r = [ Ev_fopen filename true;
                    Ev_malloc (String.length bytes + 1) true;
                    Ev_fclose false ]
     /\ ((Z.of_nat (String.length bytes) < 2 ^ 31)%Z ->
         int_of_long (Z.of_nat (String.length bytes))
         = Z.of_nat (String.length bytes)))
    /\ (hd true m = false ->
        (exists p', r = Fault p')
        /\ trace r = [ Ev_fopen filename true;
                       Ev_malloc (String.length bytes + 1) false ]).
Proof.
  intros filename bytes o m u Hfile r. subst r.
  unfold readfilestr, bind, fopen. cbn [start p_os]. rewrite Hfile.
  unfold malloc. cbn [log p_malloc].
  destruct m as [|[|] m]; cbn [hd negb]; unfold fclose, ret, fault;
    cbn [trace final log p_log rev app p_os p_errno p_uninit]; split;
    try discriminate; intros _.
  - split; [eexists; reflexivity|]. split; [reflexivity|].
    intro H. unfold int_of_long.
    rewrite Z.mod_small by lia. lia.
  - split; [eexists; reflexivity|]. split; [reflexivity|].
    intro H. unfold int_of_long.
    rewrite Z.mod_small by lia. lia.
  - split; [eexists; reflexivity | reflexivity].
Qed.

Lemma readfilestr_outcomes_witness :
  file_bytes os_sample "a.c" = Some source_sample
  /\ (exists p',
         readfilestr "a.c" (start os_sample [] 0)
         = Ok (Some (source_sample,
                     int_of_long (Z.of_nat (String.length source_sample)))) p')
  /\ (exists p', readfilestr "a.c" (start os_sample [false] 0) = Fault p').
Proof.
  split; [reflexivity|].
  destruct (readfilestr_outcomes "a.c" source_sample os_sample [] 0 eq_refl)
    as [Hok _].
  destruct (readfilestr_outcomes "a.c" source_sample os_sample [false] 0 eq_refl)
    as [_ Hfail].
  destruct (Hok eq_refl) as [H _]. destruct (Hfail eq_refl) as [H' _].
  split; [exact H | exact H'].
Defined.

(* ------------------------------------------------------------------ *)
(** ** [main] before the probe *)

(** X14.  Without a file name argument [main] prints its usage line and
    returns 1, and does nothing else. *)
Theorem main_usage :
  forall (sh : string -> os -> Z * os) (argv : list string) (o : os)
         (m : list bool) (u : Z),
    List.length argv < 2 ->
    main sh argv (start o m u)
    = Ok 1%Z (log (Ev_printf ("runc: usage: runc <filename>" ++ nl)) (start o m u)).
Proof.
  intros sh argv o m u H.
  destruct argv as [|prog [|filename args]]; cbn [List.length] in H;
    [reflexivity | reflexivity | lia].
Qed.

Lemma main_usage_witness :
  List.length ["runc"] < 2
  /\ main sh_idle ["runc"] (start os_sample [] 0)
     = Ok 1%Z (log (Ev_printf ("runc: usage: runc <filename>" ++ nl))
                   (start os_sample [] 0)).
Proof.
  split; [cbn; lia|].
  apply (main_usage sh_idle ["runc"] os_sample [] 0). cbn. lia.
Defined.

(** X15.  When the source file cannot be opened [main] reports it and
    returns 1: it allocates nothing, touches no other file or directory and
    runs no command. *)
Theorem main_unreadable_source :
  forall (sh : string -> os -> Z * os) (prog filename : string)
         (args : list string) (o : os) (m : list bool) (u : Z),
    file_bytes o filename = None ->
    let r := main sh (prog :: filename :: args) (start o m u) in
    exit_status r = Some 1%Z
    /\ trace r = [ Ev_fopen filename false;
                   Ev_printf ("runc: could not read " ++ filename ++ nl) ]
    /\ p_os (final r) = o.
Proof.
  intros sh prog filename args o m u Hfile r.
  assert (E : r = Ok 1%Z (log (Ev_printf ("runc: could not read " ++ filename ++ nl))
                            (log (Ev_fopen filename false) (start o m u)))).
  { subst r. unfold main, bind at 1. unfold readfilestr, bind at 1, fopen.
    cbn [start p_os]. rewrite Hfile. reflexivity. }
  rewrite E. cbn. auto.
Qed.

Lemma main_unreadable_source_witness :
  file_bytes os_sample "b.c" = None
  /\ exit_status (main sh_idle ["runc"; "b.c"] (start os_sample [] 0)) = Some 1%Z.
Proof.
  split; [reflexivity|].
  destruct (main_unreadable_source sh_idle "runc" "b.c" [] os_sample [] 0 eq_refl)
    as [H _].
  exact H.
Defined.


(* ------------------------------------------------------------------ *)
(** ** Runs in which no allocation fails *)

Lemma malloc_next (size : nat) (p : proc) :
  hd true (p_malloc p) = true ->
  malloc size p
  = Ok true (mkProc (p_os p) (tl (p_malloc p)) (p_errno p) (p_uninit p)
               (Ev_malloc size true :: p_log p)).
Proof.
  intro H. unfold malloc, log.
  destruct (p_malloc p) as [|b rest]; cbn [hd tl] in *; [reflexivity|].
  now subst b.
Qed.

Lemma readfilestr_exact (filename bytes : string) (p : proc) :
  file_bytes (p_os p) filename = Some bytes ->
  hd true (p_malloc p) = true ->
  readfilestr filename p
  = Ok (Some (bytes, int_of_long (Z.of_nat (String.length bytes))))
       (mkProc (p_os p) (tl (p_malloc p)) (p_errno p) (p_uninit p)
          (Ev_fclose false
           :: Ev_malloc (String.length bytes + 1) true
           :: Ev_fopen filename true :: p_log p)).
Proof.
  intros Hfile Hm. unfold readfilestr, bind at 1, fopen. rewrite Hfile.
  erewrite bind_ok; [| apply malloc_next; exact Hm]. reflexivity.
Qed.

Lemma source_hash_exact (data : string) (size : Z) (p : proc) :
  hd true (p_malloc p) = true ->
  source_hash data size p
  = Ok (Some (SHA1 data (Z.to_nat size)))
       (mkProc (p_os p) (tl (p_malloc p)) (p_errno p) (p_uninit p)
          (Ev_malloc SHA_DIGEST_LENGTH true :: p_log p)).
Proof.
  intro Hm. unfold source_hash.
  erewrite bind_ok; [| apply malloc_next; exact Hm]. reflexivity.
Qed.

Lemma get_cache_path_exact (home : string) (p : proc) :
  home_dir (p_os p) = Some home ->
  hd true (p_malloc p) = true ->
  get_cache_path p
  = Ok (Some (strcat home path_part))
       (mkProc (p_os p) (tl (p_malloc p)) (p_errno p) (p_uninit p)
          (Ev_malloc (strlen path_part + strlen home + 1) true :: p_log p)).
Proof.
  intros Hh Hm. unfold home_dir in Hh.
  unfold get_cache_path, bind at 1, getenv_HOME.
  destruct (os_HOME (p_os p)) as [h|].
  - inversion Hh; subst h. unfold bind at 1, ret at 1.
    erewrite bind_ok; [| apply malloc_next; exact Hm]. reflexivity.
  - unfold bind at 1, getpwuid_pw_dir. rewrite Hh.
    erewrite bind_ok; [| apply malloc_next; exact Hm]. reflexivity.
Qed.

Lemma get_hash_path_exact (cache_path hash : string) (p : proc) :
  hd true (p_malloc p) = true ->
  hd true (tl (p_malloc p)) = true ->
  get_hash_path cache_path hash p
  = Ok (Some (strcat cache_path (to_hex hash SHA_DIGEST_LENGTH)))
       (mkProc (p_os p) (tl (tl (p_malloc p))) (p_errno p) (p_uninit p)
          (Ev_free P_hash_hex
           :: Ev_malloc (strlen cache_path
                         + strlen (to_hex hash SHA_DIGEST_LENGTH) + 1) true
           :: Ev_malloc (SHA_DIGEST_LENGTH * 2 + 1) true :: p_log p)).
Proof.
  intros Hm1 Hm2. unfold get_hash_path.
  erewrite bind_ok; [| apply malloc_next; exact Hm1]. cbn [negb].
  erewrite bind_ok; [| apply malloc_next; exact Hm2]. reflexivity.
Qed.

(** Whether the five allocations [main] makes before the probe succeed. *)
Lemma prelude_plan (m : list bool) :
  forallb (fun b => b) (firstn 5 m) = true ->
  hd true m = true
  /\ hd true (tl m) = true
  /\ hd true (tl (tl m)) = true
  /\ hd true (tl (tl (tl m))) = true
  /\ hd true (tl (tl (tl (tl m)))) = true
  /\ tl (tl (tl (tl (tl m)))) = skipn 5 m.
Proof.
  destruct m as [|[] [|[] [|[] [|[] [|[] m]]]]]; cbn; intro H;
    try discriminate; repeat split; reflexivity.
Qed.

(** With no allocation failing, a readable source file and a home
    directory, [main] reaches the probe after the calls of
    [prelude_calls], with the entry path of the source file. *)
Lemma main_prelude (sh : string -> os -> Z * os) (prog filename : string)
      (args : list string) (o : os) (m : list bool) (u : Z)
      (bytes home : string) :
  file_bytes o filename = Some bytes ->
  home_dir o = Some home ->
  forallb (fun b => b) (firstn 5 m) = true ->
  main sh (prog :: filename :: args) (start o m u)
  = run_entry sh filename bytes (strcat home path_part) (entry_path home bytes)
      args (mkProc o (skipn 5 m) E_none u
              (rev (prelude_calls filename bytes home))).
Proof.
  intros Hfile Hhome Hplan.
  destruct (prelude_plan m Hplan) as [H1 [H2 [H3 [H4 [H5 H6]]]]].
  change (main sh (prog :: filename :: args) (start o m u))
    with ((source <- readfilestr filename ;;
           match source with
           | None => printf ("runc: could not read " ++ filename ++ nl) ;; ret 1%Z
           | Some (sourcecode, sourcelen) =>
               hash <- source_hash sourcecode sourcelen ;;
               match hash with
               | None =>
                   printf ("runc: could not compute hash of " ++ filename ++ nl) ;;
                   free P_sourcecode ;; ret 1%Z
               | Some hash =>
                   cache_path <- get_cache_path ;;
                   match cache_path with
                   | None =>
                       printf ("runc: could not get cache path" ++ nl) ;;
                       free P_sourcecode ;; ret 1%Z
                   | Some cache_path =>
                       out_path <- get_hash_path cache_path hash ;;
                       free P_hash ;;
                       match out_path with
                       | None =>
                           printf ("runc: could not generate output file path for "
                                     ++ filename ++ nl) ;;
                           free P_sourcecode ;; free P_cache_path ;; ret 1%Z
                       | Some out_path =>
                           run_entry sh filename sourcecode cache_path out_path args
                       end
                   end
               end
           end) (start o m u)).
  erewrite bind_ok; [| apply readfilestr_exact; [exact Hfile | exact H1]].
  cbv beta iota.
  erewrite bind_ok; [| apply source_hash_exact; exact H2].
  cbv beta iota.
  erewrite bind_ok; [| apply get_cache_path_exact; [exact Hhome | exact H3]].
  cbv beta iota.
  erewrite bind_ok; [| apply get_hash_path_exact; [exact H4 | exact H5]].
  unfold bind at 1, free at 1, emit. cbv beta iota.
  fold (entry_path home bytes).
  cbn [start log p_os p_malloc p_errno p_uninit p_log tl]. rewrite H6.
  replace (strlen (strcat home path_part)
           + strlen (to_hex (SHA1 bytes
                               (Z.to_nat (int_of_long (Z.of_nat (String.length bytes)))))
                            SHA_DIGEST_LENGTH) + 1)
    with (String.length (entry_path home bytes) + 1)
    by (unfold entry_path, strcat, strlen; now rewrite length_append).
  reflexivity.
Qed.

Lemma mkdir_p_loop_keeps (rest done : string) (mode : Z) (p p' : proc) (v : Z) :
  mkdir_p_loop done rest mode p = Ok v p' ->
  p_malloc p' = p_malloc p /\ p_uninit p' = p_uninit p.
Proof.
  revert done p. induction rest as [|c rest IH]; intros done p E.
  - cbn in E. unfold ret in E. inversion E; subst. auto.
  - destruct (Ascii.eqb c "/") eqn:Hc.
    + apply Ascii.eqb_eq in Hc. subst c.
      destruct (mkdir_step done rest mode p)
        as [[_ E'] | [[_ [_ E']] | [[e [_ [_ [_ E']]]] | [e [_ [_ [_ [_ E']]]]]]]];
        rewrite E' in E.
      * apply IH in E. exact E.
      * apply IH in E. exact E.
      * apply IH in E. exact E.
      * inversion E; subst. auto.
    + cbn [mkdir_p_loop] in E. rewrite Hc in E. cbn [negb] in E.
      apply IH in E. exact E.
Qed.

Lemma mkdir_p_nofail (dir : string) (mode : Z) (p : proc) :
  p_malloc p = [] ->
  mkdir_p dir mode p
  = mkdir_p_loop "" dir mode (log (Ev_malloc (strlen dir + 1) true) p).
Proof.
  intro Hm. unfold mkdir_p, bind, malloc. rewrite Hm. reflexivity.
Qed.

Lemma extract_hint_exact (sourcecode : string) (p : proc) :
  p_malloc p = [] ->
  exists h p' new,
    extract_hint sourcecode p = Ok h p'
    /\ option_map blk_string h = source_hint sourcecode
    /\ p_log p' = (new ++ p_log p)%list
    /\ (forall e, In e new -> silent e)
    /\ p_os p' = p_os p
    /\ p_malloc p' = [].
Proof.
  intro Hm. unfold extract_hint, source_hint.
  destruct (Pattern.regexec sourcecode) as [[rm_so rm_eo]|].
  - unfold bind, malloc. rewrite Hm. cbn [negb]. unfold ret.
    eexists _, _, [_]. split; [reflexivity|].
    split; [reflexivity|]. split; [reflexivity|].
    split; [|split; [reflexivity | exact Hm]].
    intros e [<- | []]. exact I.
  - exists None, p, []. unfold ret. repeat split; try assumption.
    intros e [].
Qed.

Lemma compile_exact (sh : string -> os -> Z * os) (filename output : string)
      (hint : option string) (p : proc) :
  p_malloc p = [] ->
  let cmd := build_command filename output hint in
  compile sh filename output hint p
  = Ok (true, Some (fst (sh cmd (p_os p))))
       (mkProc (snd (sh cmd (p_os p))) [] (p_errno p) (p_uninit p)
          (Ev_free P_cmdline
           :: Ev_system By_compile cmd (fst (sh cmd (p_os p)))
           :: Ev_printf (cmd ++ nl)
           :: Ev_malloc (String.length cmd + 1) true
           :: p_log p)).
Proof.
  intros Hm cmd. subst cmd.
  set (cmdline := build_command filename output hint).
  unfold compile.
  set (ce := match hint with
             | Some h => if hint_only_flags h then (DEFAULT_COMPILER, h)
                         else (h, "")
             | None => (DEFAULT_COMPILER, "")
             end).
  assert (Hcmd : sprintf cmdline_fmt [fst ce; snd ce; filename; output] = cmdline).
  { rewrite sprintf_cmdline_fmt. subst ce cmdline. unfold build_command.
    destruct hint as [h|]; [destruct (hint_only_flags h)|]; reflexivity. }
  assert (Hsize : strlen cmdline_fmt - 8 + strlen (fst ce) + strlen (snd ce)
                  + strlen filename + strlen output + 1
                  = String.length cmdline + 1).
  { rewrite cmdline_fmt_size. now rewrite Hcmd. }
  destruct ce as [compiler extra_flags] eqn:Ece.
  cbn [fst snd] in Hcmd, Hsize. rewrite Hsize, Hcmd.
  unfold bind, malloc. rewrite Hm. cbn [negb].
  unfold printf, emit, system; cbn [log p_os set_os].
  destruct (sh cmdline (p_os p)) as [st o']. cbn [fst snd].
  unfold free, emit, ret, log, set_os. cbn. rewrite Hm. reflexivity.
Qed.

Lemma launch_entry_exact (sh : string -> os -> Z * os) (out_path : string)
      (args : list string) (p : proc) :
  p_malloc p = [] ->
  let cmd := launch_cmdline out_path args in
  launch_entry sh out_path args p
  = Ok (fst (sh cmd (p_os p)))
       (mkProc (snd (sh cmd (p_os p))) [] (p_errno p) (p_uninit p)
          (rev (launch_calls out_path args (fst (sh cmd (p_os p)))) ++ p_log p)%list).
Proof.
  intros Hm cmd. subst cmd.
  unfold launch_entry, launch, bind, free, emit, malloc.
  cbn [log p_malloc]. rewrite Hm. cbn [negb].
  unfold system; cbn [log p_os set_os].
  destruct (sh (launch_cmdline out_path args) (p_os p)) as [st o'].
  cbn [fst snd negb]. unfold ret, stored_or_uninitialised, ret, log, set_os.
  cbn. rewrite Hm. reflexivity.
Qed.

Lemma rev_eq_rev {A : Type} (l l' : list A) : l = rev l' -> rev l = l'.
Proof. intros ->. apply rev_involutive. Qed.

(** The state of [main] after the probe of a missing entry, and after the
    allocation of the buffer of [mkdir_p]. *)
Lemma main_miss_start (sh : string -> os -> Z * os) (prog filename : string)
      (args : list string) (o : os) (u : Z) (bytes home : string) :
  file_bytes o filename = Some bytes ->
  home_dir o = Some home ->
  readable o (entry_path home bytes) = false ->
  os_fclose_null_faults o = false ->
  let cache_path := strcat home path_part in
  let out_path := entry_path home bytes in
  main sh (prog :: filename :: args) (start o [] u)
  = (early <- (made <- mkdir_p_loop "" cache_path dir_mode ;;
               if negb (made =? 0)%Z then
                 printf ("runc: could not create cache directory at "
                           ++ cache_path ++ nl) ;;
                 free P_sourcecode ;; free P_cache_path ;; free P_out_path ;;
                 ret (Some 1%Z)
               else
                 hint <- extract_hint (c_str bytes) ;;
                 '(compile_ok, stored) <- compile sh filename out_path
                                            (option_map blk_string hint) ;;
                 free P_hint ;;
                 (if negb compile_ok then
                    printf ("runc: error compiling " ++ filename ++ " to "
                              ++ out_path ++ nl) ;;
                    free P_sourcecode ;; free P_cache_path ;; free P_out_path
                  else ret tt) ;;
                 compile_result <- stored_or_uninitialised stored ;;
                 if negb (compile_result =? 0)%Z then
                   free P_sourcecode ;; free P_cache_path ;; free P_out_path ;;
                   ret (Some compile_result)
                 else ret None) ;;
     match early with
     | Some status => ret status
     | None => launch_entry sh out_path args
     end)
      (mkProc o [] E_none u
         (rev (prelude_calls filename bytes home
               ++ [ Ev_fopen out_path false; Ev_fclose true;
                    Ev_malloc (strlen cache_path + 1) true ]))).
Proof.
  intros Hfile Hhome Hread Hflag cache_path out_path.
  rewrite (main_prelude sh prog filename args o [] u bytes home Hfile Hhome eq_refl).
  cbn [skipn].
  rewrite run_entry_eq. fold cache_path out_path.
  set (p0 := mkProc o [] E_none u (rev (prelude_calls filename bytes home))).
  destruct (file_exists_missing out_path p0 Hread) as [_ Efe].
  cbn [p0 p_os] in Efe. rewrite Hflag in Efe.
  rewrite (bind_ok _ _ _ _ _ Efe). cbn [negb].
  unfold bind at 1. unfold main_miss, bind at 1.
  rewrite mkdir_p_nofail by reflexivity.
  rewrite rev_app_distr. reflexivity.
Qed.

(* ------------------------------------------------------------------ *)
(** ** [main] on a miss *)

(** X16.  With a readable source file but no home directory, neither in
    [HOME] nor in the password database, [main] reads and hashes the file
    first, then reports the failure and returns 1.  It releases the source
    text but not the digest. *)
Theorem main_without_home :
  forall (sh : string -> os -> Z * os) (prog filename : string)
         (args : list string) (o : os) (u : Z) (bytes : string),
    file_bytes o filename = Some bytes ->
    home_dir o = None ->
    main sh (prog :: filename :: args) (start o [] u)
    = Ok 1%Z
        (mkProc o [] E_none u
           (rev [ Ev_fopen filename true;
                  Ev_malloc (String.length bytes + 1) true;
                  Ev_fclose false;
                  Ev_malloc SHA_DIGEST_LENGTH true;
                  Ev_printf ("runc: could not get cache path" ++ nl);
                  Ev_free P_sourcecode ])).
Proof.
  intros sh prog filename args o u bytes Hfile Hhome.
  unfold main.
  erewrite bind_ok; [| apply readfilestr_exact; [exact Hfile | reflexivity]].
  cbv beta iota.
  erewrite bind_ok; [| apply source_hash_exact; reflexivity].
  cbv beta iota. cbn [start p_os p_malloc p_errno p_uninit p_log tl].
  unfold home_dir in Hhome.
  unfold bind at 1. unfold get_cache_path, bind at 1, getenv_HOME.
  cbn [log p_os start].
  destruct (os_HOME o) as [h|]; [discriminate|].
  unfold bind, getpwuid_pw_dir. cbn [log p_os start]. rewrite Hhome.
  reflexivity.
Qed.

Lemma main_without_home_witness :
  let o := mkOs [("a.c", source_sample)] ["/"] [] None None false in
  exit_status (main sh_idle ["runc"; "a.c"] (start o [] 0)) = Some 1%Z.
Proof.
  intro o.
  rewrite (main_without_home sh_idle "runc" "a.c" [] o 0 source_sample
             eq_refl eq_refl).
  reflexivity.
Defined.

(** X17.  With a library whose [fclose] faults on the null stream, a run
    whose entry is not in the cache dies at the probe: it creates no
    directory and runs no command. *)
Theorem main_miss_strict_library :
  forall (sh : string -> os -> Z * os) (prog filename : string)
         (args : list string) (o : os) (u : Z) (bytes home : string),
    file_bytes o filename = Some bytes ->
    home_dir o = Some home ->
    readable o (entry_path home bytes) = false ->
    os_fclose_null_faults o = true ->
    main sh (prog :: filename :: args) (start o [] u)
    = Fault (mkProc o [] E_none u
               (rev (prelude_calls filename bytes home
                     ++ [ Ev_fopen (entry_path home bytes) false;
                          Ev_fclose true ]))).
Proof.
  intros sh prog filename args o u bytes home Hfile Hhome Hread Hflag.
  rewrite (main_prelude sh prog filename args o [] u bytes home Hfile Hhome eq_refl).
  cbn [skipn].
  rewrite run_entry_eq.
  set (p0 := mkProc o [] E_none u (rev (prelude_calls filename bytes home))).
  destruct (file_exists_missing (entry_path home bytes) p0 Hread) as [_ Efe].
  cbn [p0 p_os] in Efe. rewrite Hflag in Efe.
  rewrite (bind_fault _ _ _ _ Efe).
  rewrite rev_app_distr. reflexivity.
Qed.

Lemma main_miss_strict_library_witness :
  exit_status (main sh_cc ["runc"; "a.c"] (start os_strict [] 0)) = None.
Proof.
  rewrite (main_miss_strict_library sh_cc "runc" "a.c" [] os_strict 0
             source_sample "/h" eq_refl eq_refl).
  - reflexivity.
  - vm_compute. reflexivity.
  - reflexivity.
Defined.

(** X18.  A run whose entry is not in the cache, with no allocation failing,
    a library that tolerates [fclose] on the null stream and an environment
    that refuses no directory: the cache directory exists when the build
    command runs; the command is the one of [compile] for the hint of the
    source text; if it returns 0 the entry is launched in the environment
    the command left, and the status of the launch is the status of the
    run; otherwise the three blocks are released and its status is the
    status of the run. *)
Theorem main_builds_then_launches :
  forall (sh : string -> os -> Z * os) (prog filename : string)
         (args : list string) (o : os) (u : Z) (bytes home : string),
    file_bytes o filename = Some bytes ->
    home_dir o = Some home ->
    readable o (entry_path home bytes) = false ->
    os_fclose_null_faults o = false ->
    os_mkdir_error o = [] ->
    let out_path := entry_path home bytes in
    let cmd := build_command filename out_path (source_hint (c_str bytes)) in
    let run := launch_cmdline out_path args in
    let r := main sh (prog :: filename :: args) (start o [] u) in
    exists (o1 : os) (before : list event),
      same_but_dirs o o1
      /\ dir_exists o1 (strcat home path_part) = true
      /\ (forall e, In e before -> silent e)
      /\ let st := fst (sh cmd o1) in
         let o2 := snd (sh cmd o1) in
         if (st =? 0)%Z
         then exit_status r = Some (fst (sh run o2))
              /\ trace r = (before ++ build_calls cmd 0
                            ++ launch_calls out_path args (fst (sh run o2)))%list
              /\ p_os (final r) = snd (sh run o2)
         else exit_status r = Some st
              /\ trace r = (before ++ build_calls cmd st ++ release_calls)%list
              /\ p_os (final r) = o2.
Proof.
  intros sh prog filename args o u bytes home Hfile Hhome Hread Hflag Hmk
         out_path cmd run r.
  pose proof (main_miss_start sh prog filename args o u bytes home
                Hfile Hhome Hread Hflag) as E0.
  cbv zeta in E0. fold out_path in E0. fold r in E0.
  set (cache_path := strcat home path_part) in *.
  set (p1 := mkProc o [] E_none u
               (rev (prelude_calls filename bytes home
                     ++ [ Ev_fopen out_path false; Ev_fclose true;
                          Ev_malloc (strlen cache_path + 1) true ]))) in *.
  destruct (mkdir_p_loop_creates cache_path "" dir_mode p1 Hmk)
    as [p2 [new [E2 [L2 [Hnew [S2 Hd2]]]]]].
  destruct (mkdir_p_loop_keeps _ _ _ _ _ _ E2) as [M2 _]. cbn [p1 p_malloc] in M2.
  destruct (extract_hint_exact (c_str bytes) p2 M2)
    as [h [p3 [new3 [E3 [Hh [L3 [Hs3 [O3 M3]]]]]]]].
  pose proof (compile_exact sh filename out_path (option_map blk_string h) p3 M3)
    as E4.
  rewrite O3 in E4. cbv zeta in E4.
  exists (p_os p2), (rev (p_log p3)).
  split; [exact S2|].
  split.
  { apply (Hd2 cache_path ""); [now rewrite append_nil_r|].
    unfold cache_path, strcat, path_part.
    change (home ++ "/.runc/cache/") with (home ++ "/.runc/cache" ++ String "/" "").
    rewrite <- append_assoc. apply ends_with_snoc. }
  split.
  { intros e He. apply in_rev in He. rewrite L3 in He.
    apply in_app_or in He as [He | He]; [now apply Hs3|].
    rewrite L2 in He. apply in_app_or in He as [He | He].
    - apply Hnew in He. destruct e; try discriminate. exact I.
    - cbn [p1 p_log] in He. apply in_rev in He.
      unfold prelude_calls in He. cbn [app In] in He.
      repeat (destruct He as [<- | He]; [exact I|]). destruct He. }
  cbv zeta.
  unfold bind at 1 in E0.
  rewrite (bind_ok _ _ _ _ _ E2) in E0. cbn [Z.eqb negb] in E0.
  rewrite (bind_ok _ _ _ _ _ E3) in E0.
  rewrite (bind_ok _ _ _ _ _ E4) in E0. cbv beta iota in E0.
  rewrite Hh in E0. fold cmd in E0.
  unfold bind, free, printf, emit, ret, stored_or_uninitialised, ret in E0.
  cbn [negb log p_os p_log p_errno p_uninit p_malloc] in E0.
  destruct (fst (sh cmd (p_os p2)) =? 0)%Z eqn:Hst.
  - cbn [negb] in E0. apply Z.eqb_eq in Hst. rewrite Hst in E0.
    rewrite launch_entry_exact in E0 by reflexivity.
    cbv zeta in E0. cbn [log p_os p_log p_errno p_uninit] in E0. fold run in E0.
    rewrite E0. cbn [exit_status trace final p_os p_log].
    split; [reflexivity|]. split; [|reflexivity].
    apply rev_eq_rev. rewrite !rev_app_distr, !rev_involutive.
    cbn [build_calls rev app]. rewrite <- ?app_assoc. reflexivity.
  - cbn [negb] in E0.
    rewrite E0. cbn [exit_status trace final p_os p_log].
    split; [reflexivity|]. split; [|reflexivity].
    apply rev_eq_rev. rewrite !rev_app_distr, !rev_involutive.
    cbn [build_calls release_calls rev app]. rewrite <- ?app_assoc. reflexivity.
Qed.

Lemma main_builds_then_launches_witness :
  let out_path := entry_path "/h" source_sample in
  let cmd := build_command "a.c" out_path (source_hint (c_str source_sample)) in
  let run := launch_cmdline out_path ["x"] in
  let r := main sh_cc ["runc"; "a.c"; "x"] (start os_sample [] 0) in
  exists (o1 : os) (before : list event),
    same_but_dirs os_sample o1
    /\ dir_exists o1 (strcat "/h" path_part) = true
    /\ (forall e, In e before -> silent e)
    /\ let st := fst (sh_cc cmd o1) in
       let o2 := snd (sh_cc cmd o1) in
       if (st =? 0)%Z
       then exit_status r = Some (fst (sh_cc run o2))
            /\ trace r = (before ++ build_calls cmd 0
                          ++ launch_calls out_path ["x"] (fst (sh_cc run o2)))%list
            /\ p_os (final r) = snd (sh_cc run o2)
       else exit_status r = Some st
            /\ trace r = (before ++ build_calls cmd st ++ release_calls)%list
            /\ p_os (final r) = o2.
Proof.
  apply (main_builds_then_launches sh_cc "runc" "a.c" ["x"] os_sample 0
           source_sample "/h").
  - reflexivity.
  - reflexivity.
  - vm_compute. reflexivity.
  - reflexivity.
  - reflexivity.
Defined.

(** X19.  When the environment refuses, with an error other than [EEXIST]
    and [EISDIR], to create a missing directory on the way to the cache
    directory, a run whose entry is not in the cache reports it and returns
    1.  It runs no command and leaves the files as they were. *)
Theorem main_cache_directory_refused :
  forall (sh : string -> os -> Z * os) (prog filename : string)
         (args : list string) (o : os) (u : Z) (bytes home path : string)
         (e : errno_t),
    file_bytes o filename = Some bytes ->
    home_dir o = Some home ->
    readable o (entry_path home bytes) = false ->
    os_fclose_null_faults o = false ->
    slash_prefix path (strcat home path_part) ->
    dir_exists o path = false ->
    assoc path (os_mkdir_error o) = Some e ->
    e <> EEXIST ->
    e <> EISDIR ->
    let r := main sh (prog :: filename :: args) (start o [] u) in
    exists before,
      exit_status r = Some 1%Z
      /\ trace r
         = (before
            ++ Ev_printf ("runc: could not create cache directory at "
                            ++ strcat home path_part ++ nl)
            :: release_calls)%list
      /\ (forall ev, In ev before -> silent ev)
      /\ In (Ev_free P_buf) before
      /\ same_but_dirs o (p_os (final r)).
Proof.
  intros sh prog filename args o u bytes home path e Hfile Hhome Hread Hflag
         [Hs [rest Hdir]] Hd He Hne1 Hne2 r.
  pose proof (main_miss_start sh prog filename args o u bytes home
                Hfile Hhome Hread Hflag) as E0.
  cbv zeta in E0. fold r in E0.
  set (cache_path := strcat home path_part) in *.
  set (p1 := mkProc o [] E_none u
               (rev (prelude_calls filename bytes home
                     ++ [ Ev_fopen (entry_path home bytes) false; Ev_fclose true;
                          Ev_malloc (strlen cache_path + 1) true ]))) in *.
  destruct (mkdir_p_loop_stops cache_path "" dir_mode p1 path rest e
              Hdir Hs Hd He Hne1 Hne2)
    as [p2 [new [E2 [L2 [Hfree _]]]]].
  destruct (mkdir_p_loop_calls cache_path "" dir_mode p1)
    as [v [p2' [new' [E2' [L2' [S2 Hcalls]]]]]].
  rewrite E2 in E2'. inversion E2'; subst v p2'. clear E2'.
  assert (Hnew : new' = new).
  { apply (app_inv_tail (p_log p1)). now rewrite <- L2, <- L2'. }
  subst new'.
  unfold bind at 1 in E0. rewrite (bind_ok _ _ _ _ _ E2) in E0.
  cbn [Z.eqb negb] in E0.
  unfold bind, printf, free, emit, ret in E0.
  exists (rev (p_log p2)). rewrite E0.
  cbn [exit_status trace final log p_os p_log].
  split; [reflexivity|]. split.
  { apply rev_eq_rev. rewrite rev_app_distr, rev_involutive. reflexivity. }
  split.
  { intros ev Hev. apply in_rev in Hev. rewrite L2 in Hev.
    apply in_app_or in Hev as [Hev | Hev].
    - apply Hcalls in Hev. destruct ev; try contradiction; exact I.
    - cbn [p1 p_log] in Hev. apply in_rev in Hev.
      unfold prelude_calls in Hev. cbn [app In] in Hev.
      repeat (destruct Hev as [<- | Hev]; [exact I|]). destruct Hev. }
  split.
  { apply -> in_rev. rewrite L2. apply in_or_app. now left. }
  exact S2.
Qed.

(** An environment in which the directory [/h/.runc/] cannot be created. *)
Lemma main_cache_directory_refused_witness :
  let o := mkOs [("a.c", source_sample)] ["/"; "/h/"] [("/h/.runc/", EACCES)]
             (Some "/h") None false in
  let r := main sh_cc ["runc"; "a.c"] (start o [] 0) in
  exists before,
    exit_status r = Some 1%Z
    /\ trace r
       = (before
          ++ Ev_printf ("runc: could not create cache directory at "
                          ++ strcat "/h" path_part ++ nl)
          :: release_calls)%list
    /\ (forall ev, In ev before -> silent ev)
    /\ In (Ev_free P_buf) before
    /\ same_but_dirs o (p_os (final r)).
Proof.
  intro o.
  apply (main_cache_directory_refused sh_cc "runc" "a.c" [] o 0 source_sample
           "/h" "/h/.runc/" EACCES).
  - reflexivity.
  - reflexivity.
  - vm_compute. reflexivity.
  - reflexivity.
  - split; [reflexivity | now exists "cache/"].
  - reflexivity.
  - reflexivity.
  - discriminate.
  - discriminate.
Defined.

(* ------------------------------------------------------------------ *)
(** ** [main] on a hit whose launch cannot be allocated *)

(** X20.  When the entry is in the cache and the allocation of the command
    line of the launch is the first to fail, [main] runs no command and
    returns 1.  Its last call is the [printf] of the diagnostic, made after
    [free(out_path)] with the released block as the argument of [%s]: what
    the message shows for the path is not determined. *)
Theorem main_launch_unallocated :
  forall (sh : string -> os -> Z * os) (prog filename : string)
         (args : list string) (o : os) (rest : list bool) (u : Z)
         (bytes home : string),
    file_bytes o filename = Some bytes ->
    home_dir o = Some home ->
    readable o (entry_path home bytes) = true ->
    let out_path := entry_path home bytes in
    main sh (prog :: filename :: args)
         (start o ([true; true; true; true; true; false] ++ rest) u)
    = Ok 1%Z
        (mkProc o rest E_none u
           (rev (prelude_calls filename bytes home
                 ++ [ Ev_fopen out_path true; Ev_fclose false;
                      Ev_free P_sourcecode; Ev_free P_cache_path;
                      Ev_malloc (launch_cmdline_len out_path args) false;
                      Ev_free P_out_path;
                      Ev_printf_freed ("runc: failed to launch %s" ++ nl)
                                      P_out_path ]))).
Proof.
  intros sh prog filename args o rest u bytes home Hfile Hhome Hread.
  cbv zeta.
  rewrite (main_prelude sh prog filename args o
             ([true; true; true; true; true; false] ++ rest) u bytes home
             Hfile Hhome eq_refl).
  cbn [app skipn]. rewrite run_entry_eq.
  erewrite bind_ok; [| apply file_exists_present; exact Hread].
  cbn [negb]. unfold bind at 1, ret at 1.
  unfold launch_entry, launch, bind, free, printf_freed, emit, malloc, ret.
  cbn [log p_os p_malloc p_errno p_uninit p_log negb].
  rewrite rev_app_distr. reflexivity.
Qed.

Lemma main_launch_unallocated_witness :
  exit_status (main sh_idle ["runc"; "a.c"]
                 (start os_cached ([true; true; true; true; true; false] ++ []) 0))
  = Some 1%Z.
Proof.
  rewrite (main_launch_unallocated sh_idle "runc" "a.c" [] os_cached [] 0
             source_sample "/h").
  - reflexivity.
  - reflexivity.
  - reflexivity.
  - vm_compute. reflexivity.
Defined.

(* ------------------------------------------------------------------ *)
(** ** [get_cache_path] *)

(** X21.  [get_cache_path] returns null, without allocating, when there is
    no home directory.  Otherwise it allocates a block that the home
    directory followed by [/.runc/cache/] and a NUL fill exactly, and
    returns that path; if the allocation fails the process faults, as the
    result of [malloc] is stored through untested. *)
Theorem get_cache_path_outcomes :
  forall (p : proc),
    match home_dir (p_os p) with
    | None => get_cache_path p = Ok None p
    | Some home =>
        if hd true (p_malloc p)
        then exists p',
            get_cache_path p = Ok (Some (home ++ "/.runc/cache/")) p'
            /\ p_log p'
               = Ev_malloc (String.length (home ++ "/.runc/cache/") + 1) true
                   :: p_log p
        else exists p',
            get_cache_path p = Fault p'
            /\ p_log p'
               = Ev_malloc (String.length (home ++ "/.runc/cache/") + 1) false
                   :: p_log p
    end.
Proof.
  intro p.
  assert (Hsize : forall home,
             strlen path_part + strlen home + 1
             = String.length (home ++ "/.runc/cache/") + 1).
  { intro home. unfold strlen, path_part. rewrite length_append. lia. }
  destruct (home_dir (p_os p)) as [home|] eqn:Hh.
  - destruct (hd true (p_malloc p)) eqn:Hm.
    + rewrite (get_cache_path_exact home p Hh Hm).
      eexists. split; [reflexivity|]. cbn [p_log]. now rewrite Hsize.
    + assert (Hf : forall n,
                 malloc n p
                 = Ok false (mkProc (p_os p) (tl (p_malloc p)) (p_errno p)
                               (p_uninit p) (Ev_malloc n false :: p_log p))).
      { intro n. unfold malloc, log.
        destruct (p_malloc p) as [|[|] rest]; cbn [hd tl] in *;
          try discriminate; reflexivity. }
      unfold home_dir in Hh.
      unfold get_cache_path, bind at 1, getenv_HOME.
      destruct (os_HOME (p_os p)) as [h|].
      * inversion Hh; subst h. unfold bind at 1, ret at 1.
        rewrite (bind_ok _ _ _ _ _ (Hf _)). cbn [negb]. unfold fault.
        eexists. split; [reflexivity|]. cbn [p_log]. now rewrite Hsize.
      * unfold bind at 1, getpwuid_pw_dir. rewrite Hh.
        rewrite (bind_ok _ _ _ _ _ (Hf _)). cbn [negb]. unfold fault.
        eexists. split; [reflexivity|]. cbn [p_log]. now rewrite Hsize.
  - unfold home_dir in Hh.
    unfold get_cache_path, bind, getenv_HOME, getpwuid_pw_dir, ret.
    destruct (os_HOME (p_os p)); [discriminate|]. now rewrite Hh.
Qed.
